(** * Minesweeper board engine (board.py): shallow embedding and verification

    The Python class [Board] is embedded as a record that is threaded through
    every method.  Python exceptions and the two sources of possible
    non-termination (the sampling loop of [_place_mines] and the recursion of
    [reveal]) are made explicit in the result type [outcome].  The arithmetic
    of settings.py, the hover test of [Board.draw], the status message and
    the theme-button layout of screens.py and the event handling of main.py
    are embedded after the engine. *)

From stdpp Require Import base list gmap sets.
From Stdlib Require Import ZArith Lia.

Open Scope Z_scope.

(** ** Results of running a method *)

(** The exceptions that reach the caller: the three the engine's own
    statements can raise, the interpreter's RecursionError, and pygame.error
    from a display call. *)
Inductive exn := IndexError | ValueError | ZeroDivisionError | RecursionError | pygame_error.

(** [Done a]: the call returned.  [Raised e]: it raised.  [Starved]: the model
    ran out of random draws or of recursion budget before the call finished. *)
Inductive outcome (A : Type) :=
  | Done (a : A)
  | Raised (e : exn)
  | Starved.
Arguments Done {A} a.
Arguments Raised {A} e.
Arguments Starved {A}.

Global Instance exn_eq_dec : EqDecision exn.
Proof. solve_decision. Defined.

Global Instance outcome_eq_dec {A} `{EqDecision A} : EqDecision (outcome A).
Proof. solve_decision. Defined.

Global Instance outcome_ret : MRet outcome := @Done.
Global Instance outcome_bind : MBind outcome := λ A B f m,
  match m with
  | Done a => f a
  | Raised e => Raised e
  | Starved => Starved
  end.

(** ** settings.py *)

Inductive CellState := HIDDEN | REVEALED | FLAGGED.

Global Instance CellState_eq_dec : EqDecision CellState.
Proof. solve_decision. Defined.

Definition MINE_VALUE : Z := -1.

(** The module-level values of settings.py that board.py reads.  The game
    area position is recomputed on every window resize, so it is an input of
    each click rather than a constant. *)
Record Settings := {
  GRID_ROWS : Z;
  GRID_COLS : Z;
  NUM_MINES : Z;
  CELL_SIZE : Z;
  GAME_AREA_X : Z;
  GAME_AREA_Y : Z
}.

(** The values settings.py computes at import time (800x650 window). *)
Definition default_settings : Settings :=
  {| GRID_ROWS := 16; GRID_COLS := 16; NUM_MINES := 40;
     CELL_SIZE := Z.min (600 `div` 16) (600 `div` 16);
     GAME_AREA_X := (800 - 37 * 16) `div` 2;
     GAME_AREA_Y := (650 - 37 * 16) `div` 2 + 25 |}.

(** ** Python lists and loops *)

(** Index normalisation of [l[i]]: negative indices count from the end. *)
Definition py_index (len : nat) (i : Z) : option nat :=
  if bool_decide (0 ≤ i < Z.of_nat len) then Some (Z.to_nat i)
  else if bool_decide (- Z.of_nat len ≤ i < 0) then Some (Z.to_nat (Z.of_nat len + i))
  else None.

Definition getitem {A} (l : list A) (i : Z) : outcome A :=
  match py_index (length l) i with
  | Some n => match l !! n with Some x => Done x | None => Raised IndexError end
  | None => Raised IndexError
  end.

Definition setitem {A} (l : list A) (i : Z) (x : A) : outcome (list A) :=
  match py_index (length l) i with
  | Some n => Done (<[n:=x]> l)
  | None => Raised IndexError
  end.

(** [m[r][c]] and [m[r][c] = x] on a list of row lists. *)
Definition get2 {A} (m : list (list A)) (r c : Z) : outcome A :=
  row ← getitem m r; getitem row c.

Definition set2 {A} (m : list (list A)) (r c : Z) (x : A) : outcome (list (list A)) :=
  row ← getitem m r; row' ← setitem row c x; setitem m r row'.

(** [range(n)] and [range(a, b)]. *)
Definition range (n : Z) : list Z := seqZ 0 n.
Definition range2 (a b : Z) : list Z := seqZ a (b - a).

(** [for x in l: s = body x s]. *)
Fixpoint for_each {A S} (l : list A) (body : A → S → outcome S) (s : S) : outcome S :=
  match l with
  | [] => Done s
  | x :: l' => s' ← body x s; for_each l' body s'
  end.

(** [a // b]. *)
Definition floordiv (a b : Z) : outcome Z :=
  if b =? 0 then Raised ZeroDivisionError else Done (a `div` b).

(** [random.randint(a, b)]: [raw] is the entropy the generator consumes; every
    value of the closed range is the image of some [raw]. *)
Definition randint (a b raw : Z) : outcome Z :=
  if b <? a then Raised ValueError else Done (a + raw `mod` (b - a + 1)).

(** ** The Board object *)

(** The pixel-size attributes that only [draw] reads are left out. *)
Record Board := {
  rows : Z;
  cols : Z;
  mines : Z;
  grid : list (list Z);
  cell_states : list (list CellState);
  flags_placed : Z;
  mines_location : gset (Z * Z);
  first_click : bool;
  game_over : bool;
  game_won : bool;
  cell_size : Z
}.

Definition with_mines (x : Z) (b : Board) : Board :=
  {| rows := rows b; cols := cols b; mines := x; grid := grid b;
     cell_states := cell_states b; flags_placed := flags_placed b;
     mines_location := mines_location b; first_click := first_click b;
     game_over := game_over b; game_won := game_won b; cell_size := cell_size b |}.

Definition with_grid (x : list (list Z)) (b : Board) : Board :=
  {| rows := rows b; cols := cols b; mines := mines b; grid := x;
     cell_states := cell_states b; flags_placed := flags_placed b;
     mines_location := mines_location b; first_click := first_click b;
     game_over := game_over b; game_won := game_won b; cell_size := cell_size b |}.

Definition with_cell_states (x : list (list CellState)) (b : Board) : Board :=
  {| rows := rows b; cols := cols b; mines := mines b; grid := grid b;
     cell_states := x; flags_placed := flags_placed b;
     mines_location := mines_location b; first_click := first_click b;
     game_over := game_over b; game_won := game_won b; cell_size := cell_size b |}.

Definition with_flags_placed (x : Z) (b : Board) : Board :=
  {| rows := rows b; cols := cols b; mines := mines b; grid := grid b;
     cell_states := cell_states b; flags_placed := x;
     mines_location := mines_location b; first_click := first_click b;
     game_over := game_over b; game_won := game_won b; cell_size := cell_size b |}.

Definition with_mines_location (x : gset (Z * Z)) (b : Board) : Board :=
  {| rows := rows b; cols := cols b; mines := mines b; grid := grid b;
     cell_states := cell_states b; flags_placed := flags_placed b;
     mines_location := x; first_click := first_click b;
     game_over := game_over b; game_won := game_won b; cell_size := cell_size b |}.

Definition with_first_click (x : bool) (b : Board) : Board :=
  {| rows := rows b; cols := cols b; mines := mines b; grid := grid b;
     cell_states := cell_states b; flags_placed := flags_placed b;
     mines_location := mines_location b; first_click := x;
     game_over := game_over b; game_won := game_won b; cell_size := cell_size b |}.

Definition with_game_over (x : bool) (b : Board) : Board :=
  {| rows := rows b; cols := cols b; mines := mines b; grid := grid b;
     cell_states := cell_states b; flags_placed := flags_placed b;
     mines_location := mines_location b; first_click := first_click b;
     game_over := x; game_won := game_won b; cell_size := cell_size b |}.

Definition with_game_won (x : bool) (b : Board) : Board :=
  {| rows := rows b; cols := cols b; mines := mines b; grid := grid b;
     cell_states := cell_states b; flags_placed := flags_placed b;
     mines_location := mines_location b; first_click := first_click b;
     game_over := game_over b; game_won := x; cell_size := cell_size b |}.

(** [[[x for _ in range(cols)] for _ in range(rows)]] *)
Definition fresh_matrix {A} (nrows ncols : Z) (x : A) : list (list A) :=
  replicate (Z.to_nat nrows) (replicate (Z.to_nat ncols) x).

(** [Board.__init__] *)
Definition init (env : Settings) (nrows ncols nmines : Z) : Board :=
  {| rows := nrows; cols := ncols; mines := nmines;
     grid := fresh_matrix nrows ncols 0;
     cell_states := fresh_matrix nrows ncols HIDDEN;
     flags_placed := 0;
     mines_location := ∅;
     first_click := true;
     game_over := false;
     game_won := false;
     cell_size := CELL_SIZE env |}.

(** [0 <= r < self.rows and 0 <= c < self.cols] *)
Definition in_bounds (b : Board) (r c : Z) : bool :=
  (0 <=? r) && (r <? rows b) && (0 <=? c) && (c <? cols b).

(** The safe zone built by the first double loop of [_place_mines]. *)
Definition safe_zone_of (b : Board) (first_click_row first_click_col : Z) : outcome (gset (Z * Z)) :=
  for_each (range2 (-1) 2) (λ r_offset safe_zone,
    for_each (range2 (-1) 2) (λ c_offset safe_zone,
      let nr := first_click_row + r_offset in
      let nc := first_click_col + c_offset in
      if in_bounds b nr nc then Done ({[ (nr, nc) ]} ∪ safe_zone)
      else Done safe_zone) safe_zone) (∅ : gset (Z * Z)).

(** The [while placed_mines < mines_to_place] loop.  Each iteration consumes
    two draws (row first, then column); the loop state is the board (its
    [mines_location] and [grid]) and [placed_mines]. *)
Fixpoint place_loop (draws : list Z) (safe_zone : gset (Z * Z)) (mines_to_place : Z)
    (b : Board) (placed_mines : Z) : outcome Board :=
  if placed_mines <? mines_to_place then
    match draws with
    | raw_row :: raw_col :: draws' =>
        row ← randint 0 (rows b - 1) raw_row;
        col ← randint 0 (cols b - 1) raw_col;
        if bool_decide ((row, col) ∉ mines_location b) && bool_decide ((row, col) ∉ safe_zone) then
          g ← set2 (grid b) row col MINE_VALUE;
          place_loop draws' safe_zone mines_to_place
            (with_grid g (with_mines_location ({[ (row, col) ]} ∪ mines_location b) b))
            (placed_mines + 1)
        else place_loop draws' safe_zone mines_to_place b placed_mines
    | _ => Starved
    end
  else Done b.

(** [Board._place_mines] *)
Definition _place_mines (draws : list Z) (b : Board) (first_click_row first_click_col : Z)
    : outcome Board :=
  let b := with_mines_location ∅ b in
  safe_zone ← safe_zone_of b first_click_row first_click_col;
  let placed_mines := 0 in
  let max_possible_mines := rows b * cols b - Z.of_nat (size safe_zone) in
  let mines_to_place := Z.min (mines b) max_possible_mines in
  b ← place_loop draws safe_zone mines_to_place b placed_mines;
  Done (with_mines mines_to_place b).

(** Whether [_place_mines] prints its warning (the [if] before the loop). *)
Definition _place_mines_warns (b : Board) (first_click_row first_click_col : Z) : outcome bool :=
  safe_zone ← safe_zone_of b first_click_row first_click_col;
  let max_possible_mines := rows b * cols b - Z.of_nat (size safe_zone) in
  let mines_to_place := Z.min (mines b) max_possible_mines in
  Done (mines_to_place <? mines b).

(** The neighbour count of one cell: the inner double loop of
    [_calculate_adjacent_mines]. *)
Definition count_adjacent (b : Board) (r c : Z) : outcome Z :=
  for_each (range2 (-1) 2) (λ i count,
    for_each (range2 (-1) 2) (λ j count,
      if (i =? 0) && (j =? 0) then Done count
      else
        let nr := r + i in
        let nc := c + j in
        if in_bounds b nr nc then
          v ← get2 (grid b) nr nc;
          if v =? MINE_VALUE then Done (count + 1) else Done count
        else Done count) count) 0.

(** [Board._calculate_adjacent_mines] *)
Definition _calculate_adjacent_mines (b : Board) : outcome Board :=
  for_each (range (rows b)) (λ r b,
    for_each (range (cols b)) (λ c b,
      v ← get2 (grid b) r c;
      if negb (v =? MINE_VALUE) then
        count ← count_adjacent b r c;
        g ← set2 (grid b) r c count;
        Done (with_grid g b)
      else Done b) b) b.

(** [Board._reveal_all_mines] *)
Definition _reveal_all_mines (b : Board) : outcome Board :=
  for_each (range (rows b)) (λ r b,
    for_each (range (cols b)) (λ c b,
      v ← get2 (grid b) r c;
      if v =? MINE_VALUE then
        st ← get2 (cell_states b) r c;
        if negb (bool_decide (st = FLAGGED)) then
          cs ← set2 (cell_states b) r c REVEALED;
          Done (with_cell_states cs b)
        else Done b
      else
        (* the elif reads the state and passes *)
        st ← get2 (cell_states b) r c;
        Done b) b) b.

(** [Board.reveal], with the depth of the Python call stack as [fuel]. *)
Fixpoint reveal_rec (fuel : nat) (b : Board) (row col : Z) : outcome Board :=
  match fuel with
  | O => Starved
  | S fuel' =>
      if game_over b then Done b
      else
        st ← get2 (cell_states b) row col;
        if bool_decide (st = REVEALED) then Done b
        else
          cs ← set2 (cell_states b) row col REVEALED;
          let b := with_cell_states cs b in
          v ← get2 (grid b) row col;
          if v =? MINE_VALUE then
            let b := with_game_over true b in
            _reveal_all_mines b
          else
            v ← get2 (grid b) row col;
            if v =? 0 then
              for_each (range2 (-1) 2) (λ i b,
                for_each (range2 (-1) 2) (λ j b,
                  if (i =? 0) && (j =? 0) then Done b
                  else
                    let nr := row + i in
                    let nc := col + j in
                    if in_bounds b nr nc then
                      st ← get2 (cell_states b) nr nc;
                      if bool_decide (st = HIDDEN) then reveal_rec fuel' b nr nc
                      else Done b
                    else Done b) b) b
            else Done b
  end.


(** Number of entries of [cell_states] that are not REVEALED. *)
Definition unrevealed (cs : list (list CellState)) : nat :=
  length (filter (λ st, st ≠ REVEALED) (concat cs)).

(** [Board.reveal] run on a call stack with room for one frame per cell that
    can still be revealed, more than any cascade can use.  What the method
    does when the interpreter grants fewer frames is [reveal_rec] with that
    number of frames, where Starved is the RecursionError that ends the call
    (see [reveal_within]). *)
Definition reveal (b : Board) (row col : Z) : outcome Board :=
  reveal_rec (S (unrevealed (cell_states b))) b row col.

(** [Board.toggle_flag] *)
Definition toggle_flag (b : Board) (row col : Z) : outcome Board :=
  st ← get2 (cell_states b) row col;
  if bool_decide (st = HIDDEN) then
    cs ← set2 (cell_states b) row col FLAGGED;
    Done (with_flags_placed (flags_placed b + 1) (with_cell_states cs b))
  else
    st ← get2 (cell_states b) row col;
    if bool_decide (st = FLAGGED) then
      cs ← set2 (cell_states b) row col HIDDEN;
      Done (with_flags_placed (flags_placed b - 1) (with_cell_states cs b))
    else Done b.

(** The counting loop of [_check_win]. *)
Definition revealed_count (b : Board) : outcome Z :=
  for_each (range (rows b)) (λ r revealed_count,
    for_each (range (cols b)) (λ c revealed_count,
      st ← get2 (cell_states b) r c;
      if bool_decide (st = REVEALED) then
        v ← get2 (grid b) r c;
        if negb (v =? MINE_VALUE) then Done (revealed_count + 1)
        else Done revealed_count
      else Done revealed_count) revealed_count) 0.

(** The auto-flagging loop of [_check_win]. *)
Definition flag_remaining_mines (b : Board) : outcome Board :=
  for_each (range (rows b)) (λ r b,
    for_each (range (cols b)) (λ c b,
      v ← get2 (grid b) r c;
      if v =? MINE_VALUE then
        st ← get2 (cell_states b) r c;
        if bool_decide (st = HIDDEN) then
          cs ← set2 (cell_states b) r c FLAGGED;
          Done (with_flags_placed (flags_placed b + 1) (with_cell_states cs b))
        else Done b
      else Done b) b) b.

(** [Board._check_win] *)
Definition _check_win (b : Board) : outcome Board :=
  revealed_count ← revealed_count b;
  let total_non_mines := rows b * cols b - mines b in
  if revealed_count =? total_non_mines then
    let b := with_game_won true b in
    let b := with_game_over true b in
    flag_remaining_mines b
  else Done b.

(** [Board.handle_click].  [draws] is the entropy available to the mine
    placement of a first left click. *)
Definition handle_click (env : Settings) (draws : list Z) (b : Board)
    (mouse_pos : Z * Z) (button : Z) : outcome Board :=
  if game_over b || game_won b then Done b
  else
    let board_x := GAME_AREA_X env in
    let board_y := GAME_AREA_Y env in
    col ← floordiv (mouse_pos.1 - board_x) (cell_size b);
    row ← floordiv (mouse_pos.2 - board_y) (cell_size b);
    if negb (in_bounds b row col) then Done b
    else
      b ← (if button =? 1 then
             b ← (if first_click b then
                    b ← _place_mines draws b row col;
                    b ← _calculate_adjacent_mines b;
                    Done (with_first_click false b)
                  else Done b);
             st ← get2 (cell_states b) row col;
             if negb (bool_decide (st = FLAGGED)) then reveal b row col
             else Done b
           else if button =? 3 then
             st ← get2 (cell_states b) row col;
             if negb (bool_decide (st = REVEALED)) then toggle_flag b row col
             else Done b
           else Done b);
      if negb (game_over b) then _check_win b else Done b.

(** [Board.reset] *)
Definition reset (env : Settings) (b : Board) : Board :=
  {| rows := GRID_ROWS env; cols := GRID_COLS env; mines := NUM_MINES env;
     grid := fresh_matrix (GRID_ROWS env) (GRID_COLS env) 0;
     cell_states := fresh_matrix (GRID_ROWS env) (GRID_COLS env) HIDDEN;
     flags_placed := 0;
     mines_location := ∅;
     first_click := true;
     game_over := false;
     game_won := false;
     cell_size := cell_size b |}.

(** * Specification vocabulary *)

(** A nested loop visits the pairs of the two ranges in row-major order. *)
Definition pairs (l1 l2 : list Z) : list (Z * Z) :=
  l1 ≫= λ r, pair r <$> l2.

(** Where [m[r][c]] lives: row position, column position and the row. *)
Definition locate {A} (m : list (list A)) (r c : Z) : option (nat * nat * list A) :=
  n ← py_index (length m) r;
  row ← m !! n;
  k ← py_index (length row) c;
  Some (n, k, row).

(** Number of cells of a grid that satisfy [P]. *)
Definition count_cells {A} (P : A → Prop) `{!∀ x, Decision (P x)} (m : list (list A)) : nat :=
  length (filter P (concat m)).

Definition indicator {A} (P : A → Prop) `{!∀ x, Decision (P x)} (x : A) : nat :=
  if decide (P x) then 1%nat else 0%nat.

(** Number of cells in a given state, over the whole grid. *)
Definition count_state (s : CellState) (cs : list (list CellState)) : nat :=
  count_cells (λ st, st = s) cs.

Definition has_dims {A} (m : list (list A)) (nrows ncols : Z) : Prop :=
  0 ≤ nrows ∧ 0 ≤ ncols ∧
  length m = Z.to_nat nrows ∧ Forall (λ row, length row = Z.to_nat ncols) m.

(** Both grids have the shape the constructor gave them. *)
Definition wf (b : Board) : Prop :=
  has_dims (grid b) (rows b) (cols b) ∧ has_dims (cell_states b) (rows b) (cols b).

(** A game on a 1x6 board: the first click on column 0 put the mines on
    columns 3 and 5 and opened columns 0 to 2 ... *)
Definition opened_board : Board :=
  {| rows := 1; cols := 6; mines := 2;
     grid := [[0; 0; 1; -1; 2; -1]];
     cell_states := [[REVEALED; REVEALED; REVEALED; HIDDEN; HIDDEN; HIDDEN]];
     flags_placed := 0;
     mines_location := {[ (0, 3); (0, 5) ]};
     first_click := false;
     game_over := false;
     game_won := false;
     cell_size := 37 |}.

(** ... and the second click hit the mine on column 3 (see
    [lost_board_played]). *)
Definition lost_board : Board :=
  {| rows := 1; cols := 6; mines := 2;
     grid := [[0; 0; 1; -1; 2; -1]];
     cell_states := [[REVEALED; REVEALED; REVEALED; REVEALED; HIDDEN; REVEALED]];
     flags_placed := 0;
     mines_location := {[ (0, 3); (0, 5) ]};
     first_click := false;
     game_over := true;
     game_won := false;
     cell_size := 37 |}.

(** The cell at row position [n] and column position [k], if any. *)
Definition cellN {A} (m : list (list A)) (n k : nat) : option A :=
  m !! n ≫= λ row, row !! k.

(** The attributes that [reveal] never writes. *)
Definition reveal_frame (b b' : Board) : Prop :=
  rows b' = rows b ∧ cols b' = cols b ∧ mines b' = mines b ∧ grid b' = grid b ∧
  flags_placed b' = flags_placed b ∧ mines_location b' = mines_location b ∧
  first_click b' = first_click b ∧ game_won b' = game_won b ∧
  cell_size b' = cell_size b.

(** [cs'] comes from [cs] by turning some HIDDEN cells to REVEALED: every
    cell is as before or went from HIDDEN to REVEALED, so the shape and the
    number of flags are the same and no cell became unrevealed. *)
Definition opens (cs cs' : list (list CellState)) : Prop :=
  (∀ n k, cellN cs' n k = cellN cs n k
          ∨ (cellN cs n k = Some HIDDEN ∧ cellN cs' n k = Some REVEALED)) ∧
  count_state FLAGGED cs' = count_state FLAGGED cs ∧
  (unrevealed cs' ≤ unrevealed cs)%nat ∧
  (∀ nrows ncols, has_dims cs nrows ncols → has_dims cs' nrows ncols).

(** Two runs have the same kind of outcome, with related results. *)
Definition sim {A B} (R : A → B → Prop) (o1 : outcome A) (o2 : outcome B) : Prop :=
  match o1, o2 with
  | Done a, Done b => R a b
  | Raised e1, Raised e2 => e1 = e2
  | Starved, Starved => True
  | _, _ => False
  end.

(** [flags_placed] counts the FLAGGED cells. *)
Definition flags_consistent (b : Board) : Prop :=
  flags_placed b = Z.of_nat (count_state FLAGGED (cell_states b)).

(** The operations of the engine, as a caller can invoke them. *)
Inductive op :=
  | Click (env : Settings) (draws : list Z) (mouse_pos : Z * Z) (button : Z)
  | Reveal (row col : Z)
  | ToggleFlag (row col : Z)
  | CheckWin
  | RevealAllMines
  | Reset (env : Settings).

Definition run (o : op) (b : Board) : outcome Board :=
  match o with
  | Click env draws mouse_pos button => handle_click env draws b mouse_pos button
  | Reveal row col => reveal b row col
  | ToggleFlag row col => toggle_flag b row col
  | CheckWin => _check_win b
  | RevealAllMines => _reveal_all_mines b
  | Reset env => Done (reset env b)
  end.

(** Boards reached from [b0] by operations that return. *)
Inductive reachable (b0 : Board) : Board → Prop :=
  | reachable_start : reachable b0 b0
  | reachable_step b o b' : reachable b0 b → run o b = Done b' → reachable b0 b'.

(** The precondition under which [handle_click] calls [reveal]: the target
    is not FLAGGED. *)
Definition guarded (o : op) (b : Board) : Prop :=
  match o with
  | Reveal row col => get2 (cell_states b) row col ≠ Done FLAGGED
  | _ => True
  end.

(** Boards reached by operations that respect that precondition. *)
Inductive reachable_guarded (b0 : Board) : Board → Prop :=
  | reachable_guarded_start : reachable_guarded b0 b0
  | reachable_guarded_step b o b' :
      reachable_guarded b0 b → guarded o b → run o b = Done b' →
      reachable_guarded b0 b'.

(** The attributes that mine placement and the adjacency pass never write. *)
Definition placement_frame (b b' : Board) : Prop :=
  rows b' = rows b ∧ cols b' = cols b ∧ cell_states b' = cell_states b ∧
  flags_placed b' = flags_placed b ∧ first_click b' = first_click b ∧
  game_over b' = game_over b ∧ game_won b' = game_won b ∧
  cell_size b' = cell_size b.

(** The eight neighbour offsets, in the order the double loop over
    [range(-1, 2)] visits them, and the neighbour positions of a cell. *)
Definition offsets : list (Z * Z) :=
  [(-1, -1); (-1, 0); (-1, 1); (0, -1); (0, 1); (1, -1); (1, 0); (1, 1)].

Definition around (r c : Z) : list (Z * Z) :=
  (λ d, (r + d.1, c + d.2)) <$> offsets.

(** Whether the grid holds the mine marker at a position (false outside). *)
Definition mine_at (g : list (list Z)) (r c : Z) : bool :=
  match get2 g r c with
  | Done v => v =? MINE_VALUE
  | _ => false
  end.

(** Number of mines among the in-bounds neighbours of a cell. *)
Definition adjacent_mines (b : Board) (r c : Z) : Z :=
  Z.of_nat (length (filter (λ p, in_bounds b p.1 p.2 = true ∧ mine_at (grid b) p.1 p.2 = true)
                           (around r c))).

(** The in-range positions, in row-major order. *)
Definition positions (b : Board) : list (Z * Z) :=
  pairs (range (rows b)) (range (cols b)).

(** Whether a cell is in a given state (false outside the grid). *)
Definition state_at (b : Board) (st : CellState) (r c : Z) : bool :=
  match get2 (cell_states b) r c with
  | Done s => bool_decide (s = st)
  | _ => false
  end.

(** Number of in-range positions that satisfy a test. *)
Definition count_positions (b : Board) (P : Z * Z → bool) : Z :=
  Z.of_nat (length (filter (λ p, P p = true) (positions b))).

(** A 1x5 board with its only mine on column 4 and every other cell
    revealed, as the cascade of a first click on column 0 leaves it. *)
Definition cleared_board : Board :=
  {| rows := 1; cols := 5; mines := 1;
     grid := [[0; 0; 0; 1; -1]];
     cell_states := [[REVEALED; REVEALED; REVEALED; REVEALED; HIDDEN]];
     flags_placed := 0;
     mines_location := {[ (0, 4) ]};
     first_click := false;
     game_over := false;
     game_won := false;
     cell_size := 37 |}.

(** The state of the sampling loop of [_place_mines] after [placed] mines:
    [t] is the board it started from, [b0], with [placed] distinct mines, all
    in range and outside [safe_zone], marked in the grid. *)
Definition placed_ok (b0 : Board) (safe_zone : gset (Z * Z)) (t : Board) (placed : Z) : Prop :=
  placement_frame b0 t ∧ has_dims (grid t) (rows b0) (cols b0) ∧
  Z.of_nat (size (mines_location t)) = placed ∧ mines t = mines b0 ∧
  (∀ p, p ∈ mines_location t → in_bounds b0 p.1 p.2 = true ∧ p ∉ safe_zone) ∧
  (∀ r c, in_bounds b0 r c = true →
     get2 (grid t) r c
     = if decide ((r, c) ∈ mines_location t) then Done MINE_VALUE else get2 (grid b0) r c).

Definition hidden_at (b : Board) (q : Z * Z) : Prop :=
  get2 (cell_states b) q.1 q.2 = Done HIDDEN.

Definition zero_at (b : Board) (q : Z * Z) : Prop :=
  get2 (grid b) q.1 q.2 = Done 0.

(** The cells a cascade started at [p] gets to: the ends of chains of
    neighbour steps that start at [p], go through zero-count cells only, and
    after [p] visit in-range HIDDEN cells only. *)
Inductive cascades (b : Board) (p : Z * Z) : Z * Z → Prop :=
  | cascades_first q :
      zero_at b p → q ∈ around p.1 p.2 → in_bounds b q.1 q.2 = true → hidden_at b q →
      cascades b p q
  | cascades_next q q' :
      cascades b p q → zero_at b q →
      q' ∈ around q.1 q.2 → in_bounds b q'.1 q'.2 = true → hidden_at b q' →
      cascades b p q'.

(** The grid holds the neighbour counts (what [_calculate_adjacent_mines]
    establishes). *)
Definition counts_consistent (b : Board) : Prop :=
  ∀ r c, in_bounds b r c = true → mine_at (grid b) r c = false →
         get2 (grid b) r c = Done (adjacent_mines b r c).

(** What an effective call [reveal(p)] on board [t] has done when it returns
    [t']: [p] is REVEALED; every other cell is as before or was HIDDEN, is
    REVEALED and is reached by the cascade; and every zero-count cell
    revealed by the call has no HIDDEN neighbour left. *)
Definition cascade_post (t : Board) (p : Z * Z) (t' : Board) : Prop :=
  game_over t' = false ∧ reveal_frame t t' ∧ wf t' ∧
  get2 (cell_states t') p.1 p.2 = Done REVEALED ∧
  (∀ q, in_bounds t q.1 q.2 = true → q ≠ p →
     get2 (cell_states t') q.1 q.2 = get2 (cell_states t) q.1 q.2
     ∨ (hidden_at t q ∧ get2 (cell_states t') q.1 q.2 = Done REVEALED ∧ cascades t p q)) ∧
  (∀ q q', in_bounds t q.1 q.2 = true →
     get2 (cell_states t) q.1 q.2 ≠ Done REVEALED →
     get2 (cell_states t') q.1 q.2 = Done REVEALED →
     zero_at t q → q' ∈ around q.1 q.2 → in_bounds t q'.1 q'.2 = true →
     ¬ hidden_at t' q').

(** The zero-count region of [p] and its border: the ends of chains of
    neighbour steps from [p] through zero-count cells, whatever the cell
    states. *)
Inductive region (b : Board) (p : Z * Z) : Z * Z → Prop :=
  | region_first q :
      zero_at b p → q ∈ around p.1 p.2 → in_bounds b q.1 q.2 = true → region b p q
  | region_next q q' :
      region b p q → zero_at b q → q' ∈ around q.1 q.2 → in_bounds b q'.1 q'.2 = true →
      region b p q'.

(** A mined 1x7 board (mine on column 6) with a flag on column 1. *)
Definition flagged_row : Board :=
  {| rows := 1; cols := 7; mines := 1;
     grid := [[0; 0; 0; 0; 0; 1; -1]];
     cell_states := [[HIDDEN; FLAGGED; HIDDEN; HIDDEN; HIDDEN; HIDDEN; HIDDEN]];
     flags_placed := 1;
     mines_location := {[ (0, 6) ]};
     first_click := false;
     game_over := false;
     game_won := false;
     cell_size := 37 |}.

(** Boards reached from [b0] by operations that return and satisfy [ok]. *)
Inductive reachable_if (ok : op → Board → Prop) (b0 : Board) : Board → Prop :=
  | reachable_if_start : reachable_if ok b0 b0
  | reachable_if_step b o b' :
      reachable_if ok b0 b → ok o b → run o b = Done b' → reachable_if ok b0 b'.

(** The settings a reset reads describe a grid. *)
Definition sane (o : op) : Prop :=
  match o with
  | Reset env => 0 ≤ GRID_ROWS env ∧ 0 ≤ GRID_COLS env
  | _ => True
  end.

(** The cell (r,c) is in range and REVEALED, on a well-formed board. *)
Definition open_at (r c : Z) (b : Board) : Prop :=
  wf b ∧ in_bounds b r c = true ∧ get2 (cell_states b) r c = Done REVEALED.

(** The grid of a board on which no mines have been placed. *)
Definition blank (b : Board) : Prop :=
  ∀ r c, in_bounds b r c = true → get2 (grid b) r c = Done 0.

(** The grid of a board after mine placement: the mine marker sits exactly
    at the positions of [mines_location], which are in range and as many as
    [mines] says (none if that is negative), and every other cell holds its
    neighbour count. *)
Definition mined (b : Board) : Prop :=
  counts_consistent b ∧
  (∀ r c, (r, c) ∈ mines_location b ↔ in_bounds b r c = true ∧ mine_at (grid b) r c = true) ∧
  Z.of_nat (size (mines_location b)) = Z.max 0 (mines b).

Definition laid_out (b : Board) : Prop :=
  wf b ∧ if first_click b then blank b else mined b.

(** The attributes [laid_out] reads apart from the cell states. *)
Definition layout_eq (b b' : Board) : Prop :=
  rows b' = rows b ∧ cols b' = cols b ∧ mines b' = mines b ∧ grid b' = grid b ∧
  mines_location b' = mines_location b ∧ first_click b' = first_click b.

(** Some in-range cell holds a mine and is REVEALED. *)
Definition mine_revealed (b : Board) : Prop :=
  ∃ r c, in_bounds b r c = true ∧ get2 (cell_states b) r c = Done REVEALED ∧
         mine_at (grid b) r c = true.

(** A finished game is won or shows a mine. *)
Definition explained (b : Board) : Prop :=
  wf b ∧ (game_over b = true → game_won b = true ∨ mine_revealed b).

(** Every in-range cell that holds no mine is REVEALED. *)
Definition cleared (b : Board) : Prop :=
  ∀ r c, in_bounds b r c = true → mine_at (grid b) r c = false →
         get2 (cell_states b) r c = Done REVEALED.

(** The win flag of a board with its mines laid (a non-negative number of
    them) stands for a cleared board. *)
Definition win_sound (b : Board) : Prop :=
  game_won b = true → first_click b = false → 0 ≤ mines b → cleared b.

(** ** The recursion limit of the interpreter *)

(** CPython ends a call with RecursionError when the call stack would grow
    past its recursion limit (1000 frames unless changed, and nothing under
    src/ changes it).  [frames] is the number of nested activations of
    [reveal] that still fit under the limit when the call is made; the
    helpers an activation calls are taken to fit.  [reveal_rec] answers
    Starved when the cascade needs more. *)
Definition reveal_within (frames : nat) (b : Board) (row col : Z) : outcome Board :=
  match reveal_rec frames b row col with
  | Starved => Raised RecursionError
  | o => o
  end.

(** [Board.handle_click] when [frames] activations of [reveal] fit under the
    limit at its call of [self.reveal]. *)
Definition handle_click_within (frames : nat) (env : Settings) (draws : list Z) (b : Board)
    (mouse_pos : Z * Z) (button : Z) : outcome Board :=
  if game_over b || game_won b then Done b
  else
    let board_x := GAME_AREA_X env in
    let board_y := GAME_AREA_Y env in
    col ← floordiv (mouse_pos.1 - board_x) (cell_size b);
    row ← floordiv (mouse_pos.2 - board_y) (cell_size b);
    if negb (in_bounds b row col) then Done b
    else
      b ← (if button =? 1 then
             b ← (if first_click b then
                    b ← _place_mines draws b row col;
                    b ← _calculate_adjacent_mines b;
                    Done (with_first_click false b)
                  else Done b);
             st ← get2 (cell_states b) row col;
             if negb (bool_decide (st = FLAGGED)) then reveal_within frames b row col
             else Done b
           else if button =? 3 then
             st ← get2 (cell_states b) row col;
             if negb (bool_decide (st = REVEALED)) then toggle_flag b row col
             else Done b
           else Done b);
      if negb (game_over b) then _check_win b else Done b.

(** ** settings.py: the derived constants *)

(** The module-level computation of settings.py for given values of WIDTH,
    HEIGHT, GRID_ROWS, GRID_COLS and NUM_MINES ([default_settings] is its
    result for the values in the file, see [module_settings_default]). *)
Definition module_settings (WIDTH HEIGHT grid_rows grid_cols num_mines : Z) : outcome Settings :=
  let _FIXED_GAME_AREA_WIDTH := 600 in
  let _FIXED_GAME_AREA_HEIGHT := 600 in
  CELL_WIDTH ← floordiv _FIXED_GAME_AREA_WIDTH grid_cols;
  CELL_HEIGHT ← floordiv _FIXED_GAME_AREA_HEIGHT grid_rows;
  let CELL_SIZE := Z.min CELL_WIDTH CELL_HEIGHT in
  let GAME_AREA_WIDTH := CELL_SIZE * grid_cols in
  let GAME_AREA_HEIGHT := CELL_SIZE * grid_rows in
  Done {| GRID_ROWS := grid_rows; GRID_COLS := grid_cols; NUM_MINES := num_mines;
          CELL_SIZE := CELL_SIZE;
          GAME_AREA_X := (WIDTH - GAME_AREA_WIDTH) `div` 2;
          GAME_AREA_Y := (HEIGHT - GAME_AREA_HEIGHT) `div` 2 + 25 |}.

(** GAME_AREA_WIDTH and GAME_AREA_HEIGHT, fixed at import time. *)
Definition GAME_AREA_WIDTH (env : Settings) : Z := CELL_SIZE env * GRID_COLS env.
Definition GAME_AREA_HEIGHT (env : Settings) : Z := CELL_SIZE env * GRID_ROWS env.

(** [settings.update_game_area_position], run after a resize has stored the
    new window size in WIDTH and HEIGHT. *)
Definition update_game_area_position (WIDTH HEIGHT : Z) (env : Settings) : Settings :=
  {| GRID_ROWS := GRID_ROWS env; GRID_COLS := GRID_COLS env; NUM_MINES := NUM_MINES env;
     CELL_SIZE := CELL_SIZE env;
     GAME_AREA_X := (WIDTH - GAME_AREA_WIDTH env) `div` 2;
     GAME_AREA_Y := (HEIGHT - GAME_AREA_HEIGHT env) `div` 2 + 25 |}.

(** ** Board.draw: the cell rectangles and the hover test *)

(** [pygame.Rect(x, y, width, height).collidepoint(pos)] for a
    rectangle of positive size: the right and bottom edges are outside. *)
Definition collidepoint (rect : Z * Z * Z * Z) (pos : Z * Z) : bool :=
  let '(x, y, width, height) := rect in
  (x <=? pos.1) && (pos.1 <? x + width) && (y <=? pos.2) && (pos.2 <? y + height).

(** The rectangle [draw] gives the cell (r,c). *)
Definition cell_rect (env : Settings) (b : Board) (r c : Z) : Z * Z * Z * Z :=
  let board_x := GAME_AREA_X env in
  let board_y := GAME_AREA_Y env in
  (board_x + c * cell_size b, board_y + r * cell_size b, cell_size b, cell_size b).

(** [is_hovered] for the cell (r,c) in [draw]. *)
Definition is_hovered (env : Settings) (b : Board) (mouse_pos : Z * Z) (r c : Z) : outcome bool :=
  if collidepoint (cell_rect env b r c) mouse_pos then
    st ← get2 (cell_states b) r c;
    if bool_decide (st = HIDDEN) then Done (negb (game_over b)) else Done false
  else Done false.

(** ** screens.draw_game_screen: the status message *)

Inductive message := Won | Lost.

(** None, or the message shown with the Play Again button. *)
Definition status_message (b : Board) : option message :=
  if game_won b then Some Won
  else if game_over b then Some Lost
  else None.

(** ** screens.draw_colour_settings_screen: the grid of theme buttons *)

(** The rectangles handed to [ui.button] for the themes, in the order of the
    loop over the themes, for a window of the given width and a title whose
    rectangle ends at [title_bottom].  The loop state is current_col,
    current_row and the buttons drawn so far. *)
Definition theme_buttons {A} (width title_bottom : Z) (themes : list A)
    : list (A * (Z * Z * Z * Z)) :=
  let button_width := 200 in
  let button_height := 50 in
  let button_padding_x := 40 in
  let button_padding_y := 25 in
  let max_buttons_per_row := 3 in
  let total_grid_width :=
    max_buttons_per_row * button_width + (max_buttons_per_row - 1) * button_padding_x in
  let start_x := Z.max 20 ((width - total_grid_width) `div` 2) in
  let start_y := title_bottom + 50 in
  (fold_left (λ (s : Z * Z * list (A * (Z * Z * Z * Z))) theme_name,
     let '(current_col, current_row, buttons) := s in
     let button_x := start_x + current_col * (button_width + button_padding_x) in
     let button_y := start_y + current_row * (button_height + button_padding_y) in
     let buttons :=
       buttons ++ [(theme_name, (button_x, button_y, button_width, button_height))] in
     let current_col := current_col + 1 in
     if max_buttons_per_row <=? current_col then (0, current_row + 1, buttons)
     else (current_col, current_row, buttons))
   themes (0, 0, [])).2.

(** ** main.py: the application state and its events *)

Inductive GameState := HOME | COLOUR_SETTINGS | PLAYING.

(** The variables of [main] that the event loop updates: current_state and
    game_board, and the module globals settings.WIDTH, settings.HEIGHT and
    the derived constants. *)
Record App := {
  current_state : GameState;
  game_board : option Board;
  window_width : Z;
  window_height : Z;
  app_settings : Settings
}.

(** The action closures of [main]. *)
Definition go_to_home (a : App) : App :=
  {| current_state := HOME; game_board := None;
     window_width := window_width a; window_height := window_height a;
     app_settings := app_settings a |}.

Definition go_to_play (a : App) : App :=
  let env := update_game_area_position (window_width a) (window_height a) (app_settings a) in
  {| current_state := PLAYING;
     game_board := Some (init env (GRID_ROWS env) (GRID_COLS env) (NUM_MINES env));
     window_width := window_width a; window_height := window_height a;
     app_settings := env |}.

Definition go_to_colours (a : App) : App :=
  {| current_state := COLOUR_SETTINGS; game_board := game_board a;
     window_width := window_width a; window_height := window_height a;
     app_settings := app_settings a |}.

Definition reset_game (a : App) : App :=
  match game_board a with
  | Some b =>
      {| current_state := current_state a; game_board := Some (reset (app_settings a) b);
         window_width := window_width a; window_height := window_height a;
         app_settings := app_settings a |}
  | None => a
  end.

(** What the loop reacts to: the two pygame events it handles, and a press
    on a button, which calls that button's action.  A VIDEORESIZE event
    carries what [pygame.display.set_mode] answers for the new size: the
    call returns, or raises pygame.error. *)
Inductive event :=
  | VIDEORESIZE (w h : Z) (set_mode_returns : bool)
  | MOUSEBUTTONDOWN (pos : Z * Z) (button : Z) (draws : list Z)
  | GoToHome
  | GoToPlay
  | GoToColours
  | ResetGame.

(** One event of the loop, when [frames] activations of [reveal] fit under
    the recursion limit at the call from [handle_click]. *)
Definition handle_event (frames : nat) (e : event) (a : App) : outcome App :=
  match e with
  | VIDEORESIZE w h set_mode_returns =>
      if set_mode_returns then
        Done {| current_state := current_state a; game_board := game_board a;
                window_width := w; window_height := h;
                app_settings := update_game_area_position w h (app_settings a) |}
      else Raised pygame_error
  | MOUSEBUTTONDOWN pos button draws =>
      match current_state a, game_board a with
      | PLAYING, Some b =>
          b' ← handle_click_within frames (app_settings a) draws b pos button;
          Done {| current_state := current_state a; game_board := Some b';
                  window_width := window_width a; window_height := window_height a;
                  app_settings := app_settings a |}
      | _, _ => Done a
      end
  | GoToHome => Done (go_to_home a)
  | GoToPlay => Done (go_to_play a)
  | GoToColours => Done (go_to_colours a)
  | ResetGame => Done (reset_game a)
  end.

(** [main] starts on the home screen without a board. *)
Definition initial_app (width height : Z) (env : Settings) : App :=
  {| current_state := HOME; game_board := None;
     window_width := width; window_height := height; app_settings := env |}.

(** The states of the loop after events that were handled without an
    exception. *)
Inductive app_reachable (frames : nat) (a0 : App) : App → Prop :=
  | app_reachable_start : app_reachable frames a0 a0
  | app_reachable_step a e a' :
      app_reachable frames a0 a → handle_event frames e a = Done a' →
      app_reachable frames a0 a'.

(** What every state of the event loop satisfies, for settings [env0]. *)
Definition app_ok (env0 : Settings) (a : App) : Prop :=
  GRID_ROWS (app_settings a) = GRID_ROWS env0 ∧
  GRID_COLS (app_settings a) = GRID_COLS env0 ∧
  CELL_SIZE (app_settings a) = CELL_SIZE env0 ∧
  (current_state a = PLAYING → ∃ b, game_board a = Some b) ∧
  (∀ b, game_board a = Some b →
     wf b ∧ cell_size b = CELL_SIZE env0 ∧
     rows b = GRID_ROWS env0 ∧ cols b = GRID_COLS env0).

(** * Verification *)

(** ** The outcome monad *)

Lemma bind_Done_inv {A B} (m : outcome A) (f : A → outcome B) (y : B) :
  m ≫= f = Done y → ∃ a, m = Done a ∧ f a = Done y.
Proof. destruct m; simpl; intros H; try discriminate. eauto. Qed.

Lemma bind_Starved_inv {A B} (m : outcome A) (f : A → outcome B) :
  m ≫= f = Starved → m = Starved ∨ ∃ a, m = Done a ∧ f a = Starved.
Proof. destruct m; simpl; intros H; try discriminate; eauto. Qed.

Ltac inv_bind H :=
  let a := fresh "a" in
  let E := fresh "E" in
  apply bind_Done_inv in H; destruct H as (a & E & H); cbv beta zeta in H.

(** Reduce the binds whose first computation is known, and nothing else. *)
Ltac obind := cbn [mbind outcome_bind] in *.

(** ** Loops *)

Section loops.
Context {A S : Type}.
Implicit Types (l : list A) (body : A → S → outcome S).

Lemma for_each_app l1 l2 body s :
    for_each (l1 ++ l2) body s = for_each l1 body s ≫= for_each l2 body.
  Proof.
    revert s. induction l1 as [|x l1 IH]; intros s; simpl; [done|].
    destruct (body x s); simpl; auto.
  Qed.

  (** Partial correctness: an invariant kept by every iteration that returns
      holds when the loop returns. *)
Lemma for_each_returns (I : S → Prop) l body s s' :
    I s →
    (∀ x t t', x ∈ l → I t → body x t = Done t' → I t') →
    for_each l body s = Done s' → I s'.
  Proof.
    revert s. induction l as [|x l IH]; intros s Hs Hstep H; simpl in H.
    - by inversion H; subst.
    - inv_bind H. eapply (IH a); [|intros; eapply Hstep; eauto; by right|done].
      eapply Hstep; eauto. by left.
  Qed.

  (** Total correctness for loops whose iterations all return. *)
Lemma for_each_total (I : S → Prop) l body s :
    I s →
    (∀ x t, x ∈ l → I t → ∃ t', body x t = Done t' ∧ I t') →
    ∃ s', for_each l body s = Done s' ∧ I s'.
  Proof.
    revert s. induction l as [|x l IH]; intros s Hs Hstep; simpl; [eauto|].
    destruct (Hstep x s) as (t' & -> & Ht'); [by left|done|]. simpl.
    apply IH; [done|]. intros; apply Hstep; [by right|done].
  Qed.

  (** The same with an invariant that knows which items were processed. *)
Lemma for_each_prefix (I : list A → S → Prop) l body s :
    I [] s →
    (∀ pre x post t, l = pre ++ x :: post → I pre t →
       ∃ t', body x t = Done t' ∧ I (pre ++ [x]) t') →
    ∃ s', for_each l body s = Done s' ∧ I l s'.
  Proof.
    intros Hs Hstep.
    assert (∀ post pre t, l = pre ++ post → I pre t →
              ∃ s', for_each post body t = Done s' ∧ I l s') as Hgen.
    { induction post as [|x post IH]; intros pre t Hl Ht; simpl.
      - rewrite app_nil_r in Hl. subst. eauto.
      - destruct (Hstep pre x post t Hl Ht) as (t' & -> & Ht'). simpl.
        apply (IH (pre ++ [x])); [|done]. by rewrite <- app_assoc. }
    by apply (Hgen l []).
  Qed.

  (** No loop starves unless one of its iterations does. *)
Lemma for_each_fed (I : S → Prop) l body s :
    I s →
    (∀ x t, x ∈ l → I t → body x t ≠ Starved ∧ ∀ t', body x t = Done t' → I t') →
    for_each l body s ≠ Starved ∧ ∀ s', for_each l body s = Done s' → I s'.
  Proof.
    revert s. induction l as [|x l IH]; intros s Hs Hstep; simpl.
    - split; [done|]. intros s' [= <-]. done.
    - destruct (Hstep x s) as [Hne Hd]; [by left|done|].
      destruct (body x s) as [t| |] eqn:E; simpl; [|done|done].
      apply IH; [by apply Hd|]. intros; apply Hstep; [by right|done].
  Qed.
End loops.

Lemma for_each_nested {S} (l1 l2 : list Z) (body : Z → Z → S → outcome S) s :
  for_each l1 (λ r s, for_each l2 (λ c s, body r c s) s) s
  = for_each (pairs l1 l2) (λ p s, body p.1 p.2 s) s.
Proof.
  revert s. induction l1 as [|r l1 IH]; intros s; [done|].
  change (pairs (r :: l1) l2) with ((pair r <$> l2) ++ pairs l1 l2).
  rewrite for_each_app. simpl.
  assert (∀ t, for_each l2 (λ c s, body r c s) t
               = for_each (pair r <$> l2) (λ p s, body p.1 p.2 s) t) as ->.
  { clear IH. induction l2 as [|c l2 IH2]; intros t; simpl; [done|].
    destruct (body r c t); simpl; auto. }
  destruct (for_each (pair r <$> l2) _ s); simpl; auto.
Qed.

Lemma elem_of_pairs l1 l2 r c : (r, c) ∈ pairs l1 l2 ↔ r ∈ l1 ∧ c ∈ l2.
Proof.
  unfold pairs. rewrite list_elem_of_bind. split.
  - intros (r' & Hin & Hr'). apply list_elem_of_fmap in Hin as (c' & [= -> ->] & Hc'). done.
  - intros [Hr Hc]. exists r. split; [|done]. apply list_elem_of_fmap. eauto.
Qed.

Lemma NoDup_pairs l1 l2 : NoDup l1 → NoDup l2 → NoDup (pairs l1 l2).
Proof.
  intros H1 H2. induction H1 as [|r l1 Hr H1 IH].
  - constructor.
  - change (pairs (r :: l1) l2) with ((pair r <$> l2) ++ pairs l1 l2).
    apply NoDup_app. split_and!.
    + by apply (NoDup_fmap_2 _).
    + intros [r' c'] Hin Hin'. apply list_elem_of_fmap in Hin as (c'' & [= -> ->] & _).
      apply elem_of_pairs in Hin' as [? _]. done.
    + done.
Qed.

Lemma elem_of_range n i : i ∈ range n ↔ 0 ≤ i < n.
Proof. unfold range. rewrite elem_of_seqZ. lia. Qed.

Lemma range2_m1_2 : range2 (-1) 2 = [-1; 0; 1].
Proof. reflexivity. Qed.

(** ** Indexing *)

Section indexing.
Context {A : Type}.
Implicit Types (m : list (list A)) (row : list A).

Lemma py_index_lt len i n : py_index len i = Some n → (n < len)%nat.
  Proof.
    unfold py_index. repeat case_bool_decide; intros [=]; subst; lia.
  Qed.

Lemma py_index_nonneg len i n : 0 ≤ i → py_index len i = Some n → n = Z.to_nat i.
  Proof.
    unfold py_index. repeat case_bool_decide; intros ? [=]; subst; lia.
  Qed.

Lemma py_index_in_range len i :
    0 ≤ i < Z.of_nat len → py_index len i = Some (Z.to_nat i).
  Proof. intros. unfold py_index. by rewrite bool_decide_eq_true_2. Qed.

Lemma py_index_nonneg_ge len i : 0 ≤ i → Z.of_nat len ≤ i → py_index len i = None.
  Proof.
    intros. unfold py_index. rewrite !bool_decide_eq_false_2; [done|lia|lia].
  Qed.

Lemma getitem_index (l : list A) i :
    getitem l i = match py_index (length l) i with
                  | Some n => from_option Done (Raised IndexError) (l !! n)
                  | None => Raised IndexError
                  end.
  Proof. unfold getitem. destruct (py_index _ _); [|done]. by destruct (l !! _). Qed.

Lemma get2_locate m r c :
    get2 m r c = match locate m r c with
                 | Some (n, k, row) => from_option Done (Raised IndexError) (row !! k)
                 | None => Raised IndexError
                 end.
  Proof.
    unfold get2, locate, getitem.
    destruct (py_index (length m) r) as [n|]; simpl; [|done].
    destruct (m !! n) as [row|]; simpl; [|done].
    destruct (py_index (length row) c) as [k|]; simpl; [|done].
    by destruct (row !! k).
  Qed.

Lemma set2_locate m r c x :
    set2 m r c x = match locate m r c with
                   | Some (n, k, row) => Done (<[n:=<[k:=x]> row]> m)
                   | None => Raised IndexError
                   end.
  Proof.
    unfold set2, locate, setitem, getitem.
    destruct (py_index (length m) r) as [n|] eqn:En; simpl; [|done].
    destruct (m !! n) as [row|]; simpl; [|done].
    destruct (py_index (length row) c) as [k|]; simpl; [|done].
    done.
  Qed.

Lemma locate_Some m r c n k row :
    locate m r c = Some (n, k, row) → m !! n = Some row ∧ (k < length row)%nat.
  Proof.
    unfold locate. intros H.
    destruct (py_index (length m) r) as [n'|]; simpl in H; [|done].
    destruct (m !! n') as [row'|] eqn:E; simpl in H; [|done].
    destruct (py_index (length row') c) as [k'|] eqn:Ek; simpl in H; [|done].
    inversion H; subst. split; [done|]. by eapply py_index_lt.
  Qed.

Lemma locate_nonneg m r c n k row :
    0 ≤ r → 0 ≤ c → locate m r c = Some (n, k, row) → n = Z.to_nat r ∧ k = Z.to_nat c.
  Proof.
    unfold locate. intros Hr Hc H.
    destruct (py_index (length m) r) as [n'|] eqn:En; simpl in H; [|done].
    destruct (m !! n') as [row'|] eqn:E; simpl in H; [|done].
    destruct (py_index (length row') c) as [k'|] eqn:Ek; simpl in H; [|done].
    inversion H; subst. split; by eapply py_index_nonneg.
  Qed.

Lemma get2_not_Starved m r c : get2 m r c ≠ Starved.
  Proof.
    rewrite get2_locate. destruct (locate m r c) as [[[n k] row]|]; [|done].
    by destruct (row !! k).
  Qed.

Lemma set2_not_Starved m r c x : set2 m r c x ≠ Starved.
  Proof. rewrite set2_locate. by destruct (locate m r c) as [[[n k] row]|]. Qed.

Lemma get2_Done m r c x :
    get2 m r c = Done x ↔
    ∃ n k row, locate m r c = Some (n, k, row) ∧ row !! k = Some x.
  Proof.
    rewrite get2_locate. split.
    - destruct (locate m r c) as [[[n k] row]|]; [|done].
      destruct (row !! k) eqn:E; simpl; intros [=]; subst. eauto.
    - intros (n & k & row & -> & ->). done.
  Qed.

Lemma get2_set2_Done m r c old x :
    get2 m r c = Done old → ∃ m', set2 m r c x = Done m'.
  Proof.
    intros (n & k & row & Hl & _)%get2_Done. rewrite set2_locate, Hl. eauto.
  Qed.

Lemma set2_get2_Done m r c x m' :
    set2 m r c x = Done m' → ∃ old, get2 m r c = Done old.
  Proof.
    rewrite set2_locate, get2_locate.
    destruct (locate m r c) as [[[n k] row]|] eqn:E; [|done]. intros _.
    apply locate_Some in E as [_ Hk]. apply lookup_lt_is_Some_2 in Hk as [old ->].
    eauto.
  Qed.

  (** Writing the value that is already there changes nothing. *)
Lemma set2_same m r c x : get2 m r c = Done x → set2 m r c x = Done m.
  Proof.
    intros (n & k & row & Hl & Hx)%get2_Done. rewrite set2_locate, Hl.
    apply locate_Some in Hl as [Hn _]. by rewrite (list_insert_id row), list_insert_id.
  Qed.

  (** The second of two writes to one cell wins. *)
Lemma set2_set2 m r c x y m1 :
    set2 m r c x = Done m1 → set2 m1 r c y = set2 m r c y.
  Proof.
    rewrite !set2_locate.
    destruct (locate m r c) as [[[n k] row]|] eqn:E; [|done]. intros [= <-].
    pose proof (locate_Some _ _ _ _ _ _ E) as [Hn Hk].
    assert (locate (<[n:=<[k:=x]> row]> m) r c = Some (n, k, <[k:=x]> row)) as ->.
    { revert E. unfold locate. rewrite length_insert.
      destruct (py_index (length m) r) as [n'|] eqn:En; simpl; [|done].
      destruct (m !! n') as [row'|] eqn:E'; simpl; [|done].
      destruct (py_index (length row') c) as [k'|] eqn:Ek; simpl; [|done].
      intros [= -> -> ->]. rewrite list_lookup_insert_eq by (by eapply lookup_lt_Some).
      simpl. by rewrite length_insert, Ek. }
    by rewrite list_insert_insert_eq, list_insert_insert_eq.
  Qed.

  (** Reading after a write, for the indices a loop or a click produces. *)
Lemma get2_set2_nonneg m r c x m' r' c' :
    0 ≤ r → 0 ≤ c → 0 ≤ r' → 0 ≤ c' →
    set2 m r c x = Done m' →
    get2 m' r' c' = if decide (r' = r ∧ c' = c) then Done x else get2 m r' c'.
  Proof.
    intros Hr Hc Hr' Hc'. rewrite set2_locate.
    destruct (locate m r c) as [[[n k] row]|] eqn:E; [|done]. intros [= <-].
    pose proof (locate_nonneg _ _ _ _ _ _ Hr Hc E) as [-> ->].
    pose proof (locate_Some _ _ _ _ _ _ E) as [Hn Hk].
    rewrite !get2_locate. unfold locate. rewrite length_insert.
    destruct (py_index (length m) r') as [n'|] eqn:En; simpl;
      [|by rewrite decide_False by (intros [-> _]; revert E; unfold locate; by rewrite En)].
    pose proof (py_index_nonneg _ _ _ Hr' En) as ->.
    destruct (decide (r' = r)) as [->|Hne].
    - rewrite list_lookup_insert_eq by (by eapply lookup_lt_Some). rewrite Hn. simpl.
      rewrite length_insert.
      destruct (py_index (length row) c') as [k'|] eqn:Ek; simpl;
        [|rewrite decide_False; [done|]; intros [_ ->]; revert E; unfold locate;
          rewrite En; simpl; rewrite Hn; simpl; by rewrite Ek].
      pose proof (py_index_nonneg _ _ _ Hc' Ek) as ->.
      destruct (decide (c' = c)) as [->|Hnc].
      + rewrite decide_True by done. by rewrite list_lookup_insert_eq.
      + rewrite decide_False by (by intros [_ ?]).
        rewrite list_lookup_insert_ne by lia. done.
    - rewrite decide_False by (by intros [? _]).
      rewrite list_lookup_insert_ne by lia. done.
  Qed.
End indexing.

(** ** Counting cells *)

Section counting.
Context {A : Type} (P : A → Prop) `{!∀ x, Decision (P x)}.

Lemma count_list_insert (l : list A) k old x :
    l !! k = Some old →
    (length (filter P (<[k:=x]> l)) + indicator P old
     = length (filter P l) + indicator P x)%nat.
  Proof.
    intros Hk. pose proof (lookup_lt_Some _ _ _ Hk) as Hlt.
    rewrite insert_take_drop by done.
    rewrite <- (take_drop_middle l k old Hk) at 3.
    rewrite !filter_app, !filter_cons, !length_app. unfold indicator.
    destruct (decide (P x)), (decide (P old)); simpl; lia.
  Qed.

Lemma count_cells_insert (m : list (list A)) n k row old x :
    m !! n = Some row → row !! k = Some old →
    (count_cells P (<[n:=<[k:=x]> row]> m) + indicator P old
     = count_cells P m + indicator P x)%nat.
  Proof.
    intros Hn Hk. pose proof (lookup_lt_Some _ _ _ Hn) as Hlt.
    pose proof (count_list_insert row k old x Hk) as Hrow.
    unfold count_cells. rewrite insert_take_drop by done.
    rewrite <- (take_drop_middle m n row Hn) at 3.
    rewrite !concat_app, !concat_cons, !filter_app, !length_app. lia.
  Qed.

Lemma count_cells_set2 (m m' : list (list A)) r c old x :
    get2 m r c = Done old → set2 m r c x = Done m' →
    (count_cells P m' + indicator P old = count_cells P m + indicator P x)%nat.
  Proof.
    intros (n & k & row & Hl & Hk)%get2_Done. rewrite set2_locate, Hl.
    intros [= <-]. apply locate_Some in Hl as [Hn _].
    by apply count_cells_insert.
  Qed.
End counting.

Lemma unrevealed_count cs : unrevealed cs = count_cells (λ st, st ≠ REVEALED) cs.
Proof. reflexivity. Qed.

(** ** Well-formed boards *)

Section dims.
Context {A : Type}.
Implicit Types (m : list (list A)).

Lemma fresh_matrix_dims nrows ncols (x : A) :
    0 ≤ nrows → 0 ≤ ncols → has_dims (fresh_matrix nrows ncols x) nrows ncols.
  Proof.
    intros. unfold has_dims, fresh_matrix. split_and!; [done|done| |].
    - by rewrite length_replicate.
    - apply Forall_forall. intros row ->%elem_of_replicate_inv.
      by rewrite length_replicate.
  Qed.

Lemma locate_in_dims m nrows ncols r c :
    has_dims m nrows ncols → 0 ≤ r < nrows → 0 ≤ c < ncols →
    ∃ row, locate m r c = Some (Z.to_nat r, Z.to_nat c, row)
           ∧ m !! Z.to_nat r = Some row ∧ length row = Z.to_nat ncols.
  Proof.
    intros (HR & HC & Hlen & Hrows) Hr Hc. unfold locate.
    rewrite py_index_in_range by lia. simpl.
    destruct (lookup_lt_is_Some_2 m (Z.to_nat r)) as [row Hrow]; [lia|].
    rewrite Hrow. simpl.
    assert (length row = Z.to_nat ncols) as Hl.
    { eapply (proj1 (Forall_forall _ _) Hrows). by eapply list_elem_of_lookup_2. }
    rewrite py_index_in_range by lia. simpl. eauto.
  Qed.

Lemma get2_in_dims m nrows ncols r c :
    has_dims m nrows ncols → 0 ≤ r < nrows → 0 ≤ c < ncols →
    ∃ x, get2 m r c = Done x.
  Proof.
    intros Hd Hr Hc. destruct (locate_in_dims m _ _ r c Hd Hr Hc) as (row & Hl & _ & Hlen).
    rewrite get2_locate, Hl.
    destruct (lookup_lt_is_Some_2 row (Z.to_nat c)) as [x ->]; [lia|]. eauto.
  Qed.

Lemma set2_dims m nrows ncols r c x m' :
    has_dims m nrows ncols → set2 m r c x = Done m' → has_dims m' nrows ncols.
  Proof.
    intros (HR & HC & Hlen & Hrows). rewrite set2_locate.
    destruct (locate m r c) as [[[n k] row]|] eqn:E; [|done]. intros [= <-].
    apply locate_Some in E as [Hn _].
    split_and!; [done|done|by rewrite length_insert|].
    apply Forall_insert; [done|]. rewrite length_insert.
    eapply (proj1 (Forall_forall _ _) Hrows). by eapply list_elem_of_lookup_2.
  Qed.

Lemma set2_in_dims m nrows ncols r c x :
    has_dims m nrows ncols → 0 ≤ r < nrows → 0 ≤ c < ncols →
    ∃ m', set2 m r c x = Done m' ∧ has_dims m' nrows ncols.
  Proof.
    intros Hd Hr Hc. destruct (get2_in_dims m _ _ r c Hd Hr Hc) as [old Hold].
    destruct (get2_set2_Done m r c old x Hold) as [m' Hm']. exists m'. split; [done|].
    by eapply set2_dims.
  Qed.

  (** Outside the grid there is nothing to read, for non-negative indices. *)
Lemma get2_out_of_dims m nrows ncols r c :
    has_dims m nrows ncols → 0 ≤ r → 0 ≤ c → ¬ (r < nrows ∧ c < ncols) →
    get2 m r c = Raised IndexError.
  Proof.
    intros (HR & HC & Hlen & Hrows) Hr Hc Hout. rewrite get2_locate. unfold locate.
    destruct (decide (r < nrows)) as [Hlt|Hge].
    - rewrite py_index_in_range by lia. simpl.
      destruct (lookup_lt_is_Some_2 m (Z.to_nat r)) as [row Hrow]; [lia|].
      rewrite Hrow. simpl.
      assert (length row = Z.to_nat ncols) as Hl.
      { eapply (proj1 (Forall_forall _ _) Hrows). by eapply list_elem_of_lookup_2. }
      rewrite py_index_nonneg_ge by lia. done.
    - rewrite py_index_nonneg_ge by lia. done.
  Qed.

  (** Two grids of one shape with the same cells are the same list. *)
Lemma matrix_ext m1 m2 nrows ncols :
    has_dims m1 nrows ncols → has_dims m2 nrows ncols →
    (∀ r c, 0 ≤ r < nrows → 0 ≤ c < ncols → get2 m1 r c = get2 m2 r c) →
    m1 = m2.
  Proof.
    intros Hd1 Hd2 Heq.
    pose proof Hd1 as (HR & HC & Hlen1 & Hrows1).
    pose proof Hd2 as (_ & _ & Hlen2 & Hrows2).
    apply list_eq_same_length with (Z.to_nat nrows); [done|done|].
    intros n row1 row2 Hn H1 H2.
    assert (length row1 = Z.to_nat ncols) as Hl1.
    { eapply (proj1 (Forall_forall _ _) Hrows1). by eapply list_elem_of_lookup_2. }
    assert (length row2 = Z.to_nat ncols) as Hl2.
    { eapply (proj1 (Forall_forall _ _) Hrows2). by eapply list_elem_of_lookup_2. }
    apply list_eq_same_length with (Z.to_nat ncols); [done|done|].
    intros k x1 x2 Hk Hx1 Hx2.
    specialize (Heq (Z.of_nat n) (Z.of_nat k) ltac:(lia) ltac:(lia)).
    destruct (locate_in_dims m1 _ _ (Z.of_nat n) (Z.of_nat k) Hd1) as (r1 & L1 & R1 & _); [lia|lia|].
    destruct (locate_in_dims m2 _ _ (Z.of_nat n) (Z.of_nat k) Hd2) as (r2 & L2 & R2 & _); [lia|lia|].
    rewrite !get2_locate, L1, L2 in Heq. rewrite Nat2Z.id in *.
    rewrite H1 in R1. rewrite H2 in R2. simplify_eq. rewrite Hx1, Hx2 in Heq.
    simpl in Heq. congruence.
  Qed.
End dims.

Global Instance has_dims_dec {A} (m : list (list A)) nrows ncols :
  Decision (has_dims m nrows ncols).
Proof. unfold has_dims. apply _. Defined.

Global Instance wf_dec b : Decision (wf b).
Proof. unfold wf. apply _. Defined.

Lemma in_bounds_spec b r c : in_bounds b r c = true ↔ (0 ≤ r < rows b) ∧ (0 ≤ c < cols b).
Proof. unfold in_bounds. rewrite !andb_true_iff. lia. Qed.

Lemma in_bounds_false b r c : in_bounds b r c = false ↔ ¬ ((0 ≤ r < rows b) ∧ (0 ≤ c < cols b)).
Proof. rewrite <- in_bounds_spec. by destruct (in_bounds b r c). Qed.

Lemma init_wf env nrows ncols nmines :
  0 ≤ nrows → 0 ≤ ncols → wf (init env nrows ncols nmines).
Proof. intros. split; by apply fresh_matrix_dims. Qed.

Lemma reset_wf env b : 0 ≤ GRID_ROWS env → 0 ≤ GRID_COLS env → wf (reset env b).
Proof. intros. split; by apply fresh_matrix_dims. Qed.

(** ** toggle_flag *)

Lemma locate_insert_same {A} (m : list (list A)) r c n k row x :
  locate m r c = Some (n, k, row) →
  locate (<[n:=<[k:=x]> row]> m) r c = Some (n, k, <[k:=x]> row).
Proof.
  intros E. pose proof (locate_Some _ _ _ _ _ _ E) as [Hn Hk].
  revert E. unfold locate. rewrite length_insert.
  destruct (py_index (length m) r) as [n'|] eqn:En; simpl; [|done].
  destruct (m !! n') as [row'|] eqn:E'; simpl; [|done].
  destruct (py_index (length row') c) as [k'|] eqn:Ek; simpl; [|done].
  intros [= -> -> ->]. rewrite list_lookup_insert_eq by (by eapply lookup_lt_Some).
  simpl. by rewrite length_insert, Ek.
Qed.

Lemma get2_set2_same {A} (m m' : list (list A)) r c x :
  set2 m r c x = Done m' → get2 m' r c = Done x.
Proof.
  rewrite set2_locate.
  destruct (locate m r c) as [[[n k] row]|] eqn:E; [|done]. intros [= <-].
  pose proof (locate_Some _ _ _ _ _ _ E) as [Hn Hk].
  rewrite get2_locate, (locate_insert_same _ _ _ _ _ _ _ E).
  by rewrite list_lookup_insert_eq.
Qed.

Lemma toggle_flag_hidden b r c :
  get2 (cell_states b) r c = Done HIDDEN →
  ∃ cs, set2 (cell_states b) r c FLAGGED = Done cs ∧
        toggle_flag b r c
        = Done (with_flags_placed (flags_placed b + 1) (with_cell_states cs b)).
Proof.
  intros H. destruct (get2_set2_Done _ _ _ _ FLAGGED H) as [cs Hcs].
  exists cs. split; [done|]. unfold toggle_flag. rewrite H. simpl. by rewrite Hcs.
Qed.

Lemma toggle_flag_flagged b r c :
  get2 (cell_states b) r c = Done FLAGGED →
  ∃ cs, set2 (cell_states b) r c HIDDEN = Done cs ∧
        toggle_flag b r c
        = Done (with_flags_placed (flags_placed b - 1) (with_cell_states cs b)).
Proof.
  intros H. destruct (get2_set2_Done _ _ _ _ HIDDEN H) as [cs Hcs].
  exists cs. split; [done|]. unfold toggle_flag. rewrite H. simpl. by rewrite Hcs.
Qed.

Lemma toggle_flag_revealed b r c :
  get2 (cell_states b) r c = Done REVEALED → toggle_flag b r c = Done b.
Proof. intros H. unfold toggle_flag. by rewrite H. Qed.

Lemma board_eta b :
  {| rows := rows b; cols := cols b; mines := mines b; grid := grid b;
     cell_states := cell_states b; flags_placed := flags_placed b;
     mines_location := mines_location b; first_click := first_click b;
     game_over := game_over b; game_won := game_won b; cell_size := cell_size b |} = b.
Proof. by destruct b. Qed.

(** What a board shares with another one apart from the cell states and the
    flag counter. *)
Definition same_frame (b b' : Board) : Prop :=
  rows b' = rows b ∧ cols b' = cols b ∧ mines b' = mines b ∧ grid b' = grid b ∧
  mines_location b' = mines_location b ∧ first_click b' = first_click b ∧
  game_over b' = game_over b ∧ game_won b' = game_won b ∧ cell_size b' = cell_size b.

(** C10: on a well-formed board, for an in-range cell that is not REVEALED,
    two calls of toggle_flag on that cell give back exactly the board that
    held before the first call.  The first call returns, flips the cell
    between HIDDEN and FLAGGED, moves flags_placed by one, and touches no
    other cell and no other attribute. *)
Theorem toggle_flag_twice b r c :
  wf b → in_bounds b r c = true →
  get2 (cell_states b) r c ≠ Done REVEALED →
  ∃ b1, toggle_flag b r c = Done b1 ∧
        toggle_flag b1 r c = Done b ∧
        same_frame b b1 ∧
        (get2 (cell_states b) r c = Done HIDDEN →
           get2 (cell_states b1) r c = Done FLAGGED ∧ flags_placed b1 = flags_placed b + 1) ∧
        (get2 (cell_states b) r c = Done FLAGGED →
           get2 (cell_states b1) r c = Done HIDDEN ∧ flags_placed b1 = flags_placed b - 1) ∧
        (∀ r' c', in_bounds b r' c' = true → ¬ (r' = r ∧ c' = c) →
           get2 (cell_states b1) r' c' = get2 (cell_states b) r' c').
Proof.
  intros [_ Hcs] [Hr Hc]%in_bounds_spec Hst.
  destruct (get2_in_dims _ _ _ r c Hcs Hr Hc) as [st Hget].
  assert (∀ cs x, set2 (cell_states b) r c x = Done cs →
            ∀ r' c', in_bounds b r' c' = true → ¬ (r' = r ∧ c' = c) →
              get2 cs r' c' = get2 (cell_states b) r' c') as Hother.
  { intros cs x Hset r' c' [Hr' Hc']%in_bounds_spec Hne.
    rewrite (get2_set2_nonneg (cell_states b) r c x cs r' c'); [|lia|lia|lia|lia|done].
    by rewrite decide_False. }
  destruct st.
  - destruct (toggle_flag_hidden b r c Hget) as (cs & Hset & Htog).
    eexists. split; [exact Htog|].
    pose proof (get2_set2_same _ _ _ _ _ Hset) as Hf.
    split_and!.
    + destruct (toggle_flag_flagged (with_flags_placed (flags_placed b + 1) (with_cell_states cs b)) r c Hf)
        as (cs' & Hset' & ->). simpl in *.
      rewrite (set2_set2 _ _ _ _ _ _ Hset), (set2_same _ _ _ _ Hget) in Hset'.
      inversion Hset'; subst cs'. f_equal. destruct b.
      unfold with_flags_placed, with_cell_states; simpl. f_equal; lia.
    + by repeat split.
    + intros _. by split.
    + rewrite Hget. intros [=].
    + simpl. by eapply Hother.
  - by destruct Hst.
  - destruct (toggle_flag_flagged b r c Hget) as (cs & Hset & Htog).
    eexists. split; [exact Htog|].
    pose proof (get2_set2_same _ _ _ _ _ Hset) as Hf.
    split_and!.
    + destruct (toggle_flag_hidden (with_flags_placed (flags_placed b - 1) (with_cell_states cs b)) r c Hf)
        as (cs' & Hset' & ->). simpl in *.
      rewrite (set2_set2 _ _ _ _ _ _ Hset), (set2_same _ _ _ _ Hget) in Hset'.
      inversion Hset'; subst cs'. f_equal. destruct b.
      unfold with_flags_placed, with_cell_states; simpl. f_equal; lia.
    + by repeat split.
    + rewrite Hget. intros [=].
    + intros _. by split.
    + simpl. by eapply Hother.
Qed.

Lemma toggle_flag_twice_witness :
  let b := init default_settings 2 2 1 in
  wf b ∧ in_bounds b 1 0 = true ∧ get2 (cell_states b) 1 0 ≠ Done REVEALED ∧
  ∃ b1, toggle_flag b 1 0 = Done b1 ∧ toggle_flag b1 1 0 = Done b.
Proof.
  intros b.
  assert (wf b) as Hwf by (apply init_wf; lia).
  assert (in_bounds b 1 0 = true) as Hin by reflexivity.
  assert (get2 (cell_states b) 1 0 ≠ Done REVEALED) as Hst by (vm_compute; discriminate).
  split_and!; [done|done|done|].
  destruct (toggle_flag_twice b 1 0 Hwf Hin Hst) as (b1 & H1 & H2 & _).
  exists b1. by split.
Defined.

(** ** The terminal state *)

(** [lost_board] is a position of a real game: two left clicks on a fresh
    1x6 board with two mines. *)
Lemma lost_board_played :
  let env := default_settings in
  let click col := (GAME_AREA_X env + 37 * col + 5, GAME_AREA_Y env + 5) in
  handle_click env [0; 3; 0; 5] (init env 1 6 2) (click 0) 1 = Done opened_board ∧
  handle_click env [] opened_board (click 3) 1 = Done lost_board.
Proof. split; vm_compute; reflexivity. Qed.

Lemma handle_click_game_over env draws b pos button :
  game_over b = true → handle_click env draws b pos button = Done b.
Proof. intros H. unfold handle_click. by rewrite H. Qed.

Lemma reveal_rec_game_over fuel b r c :
  game_over b = true → reveal_rec (S fuel) b r c = Done b.
Proof. intros H. simpl. by rewrite H. Qed.

Lemma reveal_game_over b r c : game_over b = true → reveal b r c = Done b.
Proof. intros H. unfold reveal. by apply reveal_rec_game_over. Qed.

(** C1 as stated fails: toggle_flag has no game_over guard.  On the lost
    board, a direct call on the hidden cell (0,4) returns a different board:
    the cell is FLAGGED and flags_placed is 1. *)
Lemma toggle_flag_after_game_over :
  game_over lost_board = true ∧
  ∃ b', toggle_flag lost_board 0 4 = Done b' ∧ b' ≠ lost_board ∧
        get2 (cell_states lost_board) 0 4 = Done HIDDEN ∧
        get2 (cell_states b') 0 4 = Done FLAGGED ∧
        flags_placed lost_board = 0 ∧ flags_placed b' = 1.
Proof.
  split; [reflexivity|]. eexists. split; [vm_compute; reflexivity|].
  split_and!; try reflexivity. intros H. apply (f_equal flags_placed) in H.
  vm_compute in H. discriminate.
Qed.

(** C1, amended: once game_over is true, handle_click and reveal return the
    board unchanged for every coordinate and button.  toggle_flag does not
    read game_over (its only caller, handle_click, does): called directly it
    leaves the board unchanged on a REVEALED cell and still flips a HIDDEN or
    FLAGGED cell and moves flags_placed by one. *)
Theorem game_over_is_terminal b :
  game_over b = true →
  (∀ env draws pos button, handle_click env draws b pos button = Done b) ∧
  (∀ r c, reveal b r c = Done b) ∧
  (∀ fuel r c, reveal_rec (S fuel) b r c = Done b) ∧
  (∀ r c, get2 (cell_states b) r c = Done REVEALED → toggle_flag b r c = Done b) ∧
  (∀ r c, get2 (cell_states b) r c = Done HIDDEN →
     ∃ b', toggle_flag b r c = Done b' ∧ get2 (cell_states b') r c = Done FLAGGED ∧
           flags_placed b' = flags_placed b + 1 ∧ same_frame b b') ∧
  (∀ r c, get2 (cell_states b) r c = Done FLAGGED →
     ∃ b', toggle_flag b r c = Done b' ∧ get2 (cell_states b') r c = Done HIDDEN ∧
           flags_placed b' = flags_placed b - 1 ∧ same_frame b b').
Proof.
  intros Hover. split_and!.
  - intros. by apply handle_click_game_over.
  - intros. by apply reveal_game_over.
  - intros. by apply reveal_rec_game_over.
  - intros. by apply toggle_flag_revealed.
  - intros r c H. destruct (toggle_flag_hidden b r c H) as (cs & Hset & ->).
    eexists. split; [done|]. simpl. split_and!; [|done|by repeat split].
    by eapply get2_set2_same.
  - intros r c H. destruct (toggle_flag_flagged b r c H) as (cs & Hset & ->).
    eexists. split; [done|]. simpl. split_and!; [|done|by repeat split].
    by eapply get2_set2_same.
Qed.

Lemma game_over_is_terminal_witness :
  game_over lost_board = true ∧
  (∀ env draws pos button, handle_click env draws lost_board pos button = Done lost_board) ∧
  (∀ r c, reveal lost_board r c = Done lost_board).
Proof.
  assert (game_over lost_board = true) as H by reflexivity.
  split; [done|].
  destruct (game_over_is_terminal lost_board H) as (H1 & H2 & _). by split.
Defined.

(** ** Cells by position *)

Lemma get2_cellN {A} (m : list (list A)) r c :
  0 ≤ r → 0 ≤ c →
  get2 m r c = from_option Done (Raised IndexError) (cellN m (Z.to_nat r) (Z.to_nat c)).
Proof.
  intros Hr Hc. rewrite get2_locate. unfold cellN.
  destruct (locate m r c) as [[[n k] row]|] eqn:E.
  - pose proof (locate_nonneg _ _ _ _ _ _ Hr Hc E) as [-> ->].
    apply locate_Some in E as [-> _]. done.
  - revert E. unfold locate.
    destruct (decide (r < Z.of_nat (length m))) as [Hlt|Hge].
    + rewrite py_index_in_range by lia. simpl.
      destruct (m !! Z.to_nat r) as [row|]; simpl; [|done].
      destruct (decide (c < Z.of_nat (length row))) as [Hlt'|Hge'].
      * rewrite py_index_in_range by lia. done.
      * intros _. rewrite lookup_ge_None_2 by lia. done.
    + intros _. rewrite lookup_ge_None_2 by lia. done.
Qed.

Lemma cellN_insert {A} (m : list (list A)) n k row x n' k' :
  m !! n = Some row → (k < length row)%nat →
  cellN (<[n:=<[k:=x]> row]> m) n' k'
  = if decide (n' = n ∧ k' = k) then Some x else cellN m n' k'.
Proof.
  intros Hn Hk. unfold cellN. pose proof (lookup_lt_Some _ _ _ Hn).
  destruct (decide (n' = n)) as [->|Hne].
  - rewrite list_lookup_insert_eq by done. rewrite Hn. simpl.
    destruct (decide (k' = k)) as [->|Hnk].
    + rewrite decide_True by done. by rewrite list_lookup_insert_eq.
    + rewrite decide_False by (by intros [_ ?]). by rewrite list_lookup_insert_ne.
  - rewrite decide_False by (by intros [? _]). by rewrite list_lookup_insert_ne.
Qed.

(** One write, seen by position. *)
Lemma set2_cellN {A} (m m' : list (list A)) r c old x :
  get2 m r c = Done old → set2 m r c x = Done m' →
  ∃ n k, cellN m n k = Some old ∧
         (∀ n' k', cellN m' n' k'
                   = if decide (n' = n ∧ k' = k) then Some x else cellN m n' k') ∧
         (0 ≤ r → 0 ≤ c → n = Z.to_nat r ∧ k = Z.to_nat c).
Proof.
  intros (n & k & row & Hl & Hk)%get2_Done. rewrite set2_locate, Hl. intros [= <-].
  pose proof (locate_Some _ _ _ _ _ _ Hl) as [Hn Hlt].
  exists n, k. split_and!.
  - unfold cellN. by rewrite Hn.
  - intros. by apply cellN_insert.
  - intros. by eapply locate_nonneg.
Qed.

(** ** The [opens] relation *)

Lemma opens_refl cs : opens cs cs.
Proof. split_and!; auto. Qed.

Lemma opens_trans cs1 cs2 cs3 : opens cs1 cs2 → opens cs2 cs3 → opens cs1 cs3.
Proof.
  intros (P1 & F1 & U1 & D1) (P2 & F2 & U2 & D2). split_and!.
  - intros n k. destruct (P1 n k) as [E1|[E1 E1']], (P2 n k) as [E2|[E2 E2']].
    + left. congruence.
    + right. split; congruence.
    + right. split; congruence.
    + congruence.
  - congruence.
  - lia.
  - auto.
Qed.

(** Writing REVEALED over a cell that is not FLAGGED is an opening step. *)
Lemma opens_set2 cs cs' r c old :
  get2 cs r c = Done old → old ≠ FLAGGED →
  set2 cs r c REVEALED = Done cs' → opens cs cs'.
Proof.
  intros Hget Hold Hset.
  destruct (set2_cellN _ _ _ _ _ _ Hget Hset) as (n & k & Hc & Hp & _).
  pose proof (count_cells_set2 (λ st, st = FLAGGED) _ _ _ _ _ _ Hget Hset) as HF.
  pose proof (count_cells_set2 (λ st, st ≠ REVEALED) _ _ _ _ _ _ Hget Hset) as HU.
  unfold indicator in HF, HU.
  rewrite (decide_False (P:=REVEALED = FLAGGED)) in HF by done.
  rewrite (decide_False (P:=old = FLAGGED)) in HF by done.
  rewrite (decide_False (P:=REVEALED ≠ REVEALED)) in HU by (intros Hn; by apply Hn).
  split_and!.
  - intros n' k'. rewrite Hp. destruct (decide (n' = n ∧ k' = k)) as [Hd|Hd]; [|by left].
    destruct Hd as [-> ->]. destruct old; [by right|left; congruence|done].
  - unfold count_state. rewrite !Nat.add_0_r in HF. exact HF.
  - rewrite (unrevealed_count cs), (unrevealed_count cs').
    destruct (decide (old ≠ REVEALED)); lia.
  - intros ???. by eapply set2_dims.
Qed.

(** Writing REVEALED over a cell that is not yet REVEALED leaves fewer
    unrevealed cells. *)
Lemma unrevealed_set2 cs cs' r c old :
  get2 cs r c = Done old → old ≠ REVEALED →
  set2 cs r c REVEALED = Done cs' → S (unrevealed cs') = unrevealed cs.
Proof.
  intros Hget Hold Hset.
  pose proof (count_cells_set2 (λ st, st ≠ REVEALED) _ _ _ _ _ _ Hget Hset) as HU.
  unfold indicator in HU.
  rewrite (decide_False (P:=REVEALED ≠ REVEALED)) in HU by (intros Hn; by apply Hn).
  rewrite (decide_True (P:=old ≠ REVEALED)) in HU by done.
  rewrite (unrevealed_count cs), (unrevealed_count cs'). lia.
Qed.

(** ** _reveal_all_mines *)

Arguments range2 : simpl never.
Arguments range : simpl never.

Lemma reveal_all_mines_opens b b' :
  _reveal_all_mines b = Done b' →
  b' = with_cell_states (cell_states b') b ∧ opens (cell_states b) (cell_states b').
Proof.
  set (I := λ t : Board, t = with_cell_states (cell_states t) b
                         ∧ opens (cell_states b) (cell_states t)).
  intros H. cut (I b'); [done|]. revert H. unfold _reveal_all_mines.
  apply (for_each_returns I).
  { split; [by destruct b|apply opens_refl]. }
  intros r t0 t0' _ Ht0. apply (for_each_returns I); [done|].
  intros c t t' _ [Hfr Hop] H.
  inv_bind H. destruct (a =? MINE_VALUE).
  - inv_bind H. rename a0 into st, E0 into Hst. destruct st; simpl in H.
    + inv_bind H. inversion H; subst t'; simpl. split.
      * rewrite Hfr at 1. by destruct b.
      * eapply opens_trans; [done|]. by eapply (opens_set2 _ _ _ _ HIDDEN).
    + inv_bind H. inversion H; subst t'; simpl. split.
      * rewrite Hfr at 1. by destruct b.
      * eapply opens_trans; [done|]. by eapply (opens_set2 _ _ _ _ REVEALED).
    + inversion H; subst t'. by split.
  - inv_bind H. inversion H; subst t'. by split.
Qed.

(** ** reveal *)

Lemma reveal_rec_S fuel b row col :
  reveal_rec (S fuel) b row col =
  if game_over b then Done b
  else
    st ← get2 (cell_states b) row col;
    if bool_decide (st = REVEALED) then Done b
    else
      cs ← set2 (cell_states b) row col REVEALED;
      let b := with_cell_states cs b in
      v ← get2 (grid b) row col;
      if v =? MINE_VALUE then
        let b := with_game_over true b in
        _reveal_all_mines b
      else
        v ← get2 (grid b) row col;
        if v =? 0 then
          for_each (range2 (-1) 2) (λ i b,
            for_each (range2 (-1) 2) (λ j b,
              if (i =? 0) && (j =? 0) then Done b
              else
                let nr := row + i in
                let nc := col + j in
                if in_bounds b nr nc then
                  st ← get2 (cell_states b) nr nc;
                  if bool_decide (st = HIDDEN) then reveal_rec fuel b nr nc
                  else Done b
                else Done b) b) b
        else Done b.
Proof. reflexivity. Qed.

Lemma reveal_frame_refl b : reveal_frame b b.
Proof. by repeat split. Qed.

Lemma reveal_frame_trans b1 b2 b3 :
  reveal_frame b1 b2 → reveal_frame b2 b3 → reveal_frame b1 b3.
Proof.
  unfold reveal_frame. intros (?&?&?&?&?&?&?&?&?) (?&?&?&?&?&?&?&?&?).
  split_and!; congruence.
Qed.

(** What a call of [reveal] that returns has done: nothing, or it wrote
    REVEALED on the target, and everything after that write is an opening of
    HIDDEN cells. *)
Lemma reveal_rec_opens fuel b r c b' :
  reveal_rec fuel b r c = Done b' →
  reveal_frame b b' ∧
  (((game_over b = true ∨ get2 (cell_states b) r c = Done REVEALED) ∧ b' = b) ∨
   ∃ old cs1, game_over b = false ∧ get2 (cell_states b) r c = Done old ∧
              old ≠ REVEALED ∧ set2 (cell_states b) r c REVEALED = Done cs1 ∧
              opens cs1 (cell_states b')).
Proof.
  revert b r c b'. induction fuel as [|fuel IH]; intros b r c b' H; [done|].
  rewrite reveal_rec_S in H.
  destruct (game_over b) eqn:Hover.
  { inversion H; subst. split; [apply reveal_frame_refl|left; auto]. }
  inv_bind H. rename a into old, E into Hold.
  case_bool_decide as Hrev.
  { inversion H; subst. split; [apply reveal_frame_refl|left; auto]. }
  inv_bind H. rename a into cs1, E into Hcs1.
  inv_bind H. rename a into v.
  assert (reveal_frame b (with_cell_states cs1 b)) as Hfr1 by (by repeat split).
  destruct (v =? MINE_VALUE).
  { apply reveal_all_mines_opens in H as [Hb' Hop]. simpl in *. split.
    - rewrite Hb'. by repeat split.
    - right. exists old, cs1. by split_and!. }
  inv_bind H. destruct (a =? 0); cycle 1.
  { inversion H; subst b'. split; [done|]. right. exists old, cs1.
    split_and!; try done. apply opens_refl. }
  set (I := λ t : Board, reveal_frame b t ∧ opens cs1 (cell_states t)).
  assert (I b') as [Hfr Hop]; cycle 1.
  { split; [done|]. right. exists old, cs1. by split_and!. }
  revert H. apply (for_each_returns I).
  { split; [done|apply opens_refl]. }
  intros i t t' _ Ht. apply (for_each_returns I); [done|].
  intros j u u' _ [Hfu Hou] H. cbv beta zeta in H.
  destruct ((i =? 0) && (j =? 0)); [by inversion H; subst|].
  destruct (in_bounds u (r + i) (c + j)); [|by inversion H; subst].
  inv_bind H. rename a0 into st, E1 into Hst.
  case_bool_decide as Hhid; [|by inversion H; subst]. subst st.
  apply IH in H as [Hfr' Hcase]. split; [by eapply reveal_frame_trans|].
  destruct Hcase as [[_ ->]|(old' & cs2 & _ & Hold' & _ & Hcs2 & Hop2)]; [done|].
  eapply opens_trans; [done|]. eapply opens_trans; [|done].
  rewrite Hst in Hold'. inversion Hold'; subst old'.
  by eapply (opens_set2 _ _ _ _ HIDDEN).
Qed.

(** A cascade call (on a HIDDEN cell) only opens HIDDEN cells. *)
Lemma reveal_rec_hidden_opens fuel b r c b' :
  get2 (cell_states b) r c = Done HIDDEN →
  reveal_rec fuel b r c = Done b' →
  reveal_frame b b' ∧ opens (cell_states b) (cell_states b').
Proof.
  intros Hst H. apply reveal_rec_opens in H as [Hfr Hcase]. split; [done|].
  destruct Hcase as [[_ ->]|(old & cs1 & _ & Hold & _ & Hcs1 & Hop)]; [apply opens_refl|].
  rewrite Hst in Hold. inversion Hold; subst old.
  eapply opens_trans; [|done]. by eapply (opens_set2 _ _ _ _ HIDDEN).
Qed.

(** ** Termination of the flood fill *)

Lemma reveal_all_mines_fed b : _reveal_all_mines b ≠ Starved.
Proof.
  unfold _reveal_all_mines.
  eapply proj1, (for_each_fed (λ _, True)); [done|]. intros r t _ _. split; [|done].
  eapply proj1, (for_each_fed (λ _, True)); [done|]. intros c u _ _. split; [|done].
  intros H. apply bind_Starved_inv in H as [H|(v & _ & H)].
  { by apply get2_not_Starved in H. }
  destruct (v =? MINE_VALUE).
  - apply bind_Starved_inv in H as [H|(st & _ & H)].
    { by apply get2_not_Starved in H. }
    destruct (negb _); [|done].
    apply bind_Starved_inv in H as [H|(cs & _ & H)]; [|done].
    by apply set2_not_Starved in H.
  - apply bind_Starved_inv in H as [H|(st & _ & H)]; [|done].
    by apply get2_not_Starved in H.
Qed.

Lemma hidden_unrevealed cs r c st :
  get2 cs r c = Done st → st ≠ REVEALED → (1 ≤ unrevealed cs)%nat.
Proof.
  intros Hget Hst. destruct (get2_set2_Done _ _ _ _ REVEALED Hget) as [cs' Hset].
  pose proof (unrevealed_set2 _ _ _ _ _ Hget Hst Hset). lia.
Qed.

(** A call stack with one frame per unrevealed cell (and at least one frame)
    is never exhausted. *)
Lemma reveal_rec_fed fuel b r c :
  (1 ≤ fuel)%nat → (unrevealed (cell_states b) ≤ fuel)%nat →
  reveal_rec fuel b r c ≠ Starved.
Proof.
  revert b r c. induction fuel as [|fuel IH]; intros b r c Hpos Hfuel; [lia|].
  rewrite reveal_rec_S. destruct (game_over b); [done|].
  intros H. apply bind_Starved_inv in H as [H|(old & Hold & H)].
  { by apply get2_not_Starved in H. }
  case_bool_decide as Hrev; [done|].
  apply bind_Starved_inv in H as [H|(cs1 & Hcs1 & H)].
  { by apply set2_not_Starved in H. }
  cbv beta zeta in H.
  pose proof (unrevealed_set2 _ _ _ _ _ Hold Hrev Hcs1) as Hless.
  apply bind_Starved_inv in H as [H|(v & _ & H)].
  { by apply get2_not_Starved in H. }
  destruct (v =? MINE_VALUE).
  { by apply reveal_all_mines_fed in H. }
  apply bind_Starved_inv in H as [H|(v' & _ & H)].
  { by apply get2_not_Starved in H. }
  destruct (v' =? 0); [|done].
  set (I := λ t : Board, (unrevealed (cell_states t) ≤ unrevealed cs1)%nat).
  revert H. eapply proj1, (for_each_fed I); [unfold I; simpl; lia|].
  intros i t _ Ht. apply (for_each_fed I); [done|].
  intros j u _ Hu. unfold I in Hu. cbv beta zeta.
  destruct ((i =? 0) && (j =? 0)); [split; [done|by intros ? [= <-]]|].
  destruct (in_bounds u (r + i) (c + j)); [|split; [done|by intros ? [= <-]]].
  destruct (get2 (cell_states u) (r + i) (c + j)) as [st| |] eqn:Hst;
    [|done|by apply get2_not_Starved in Hst].
  change (Done st ≫= ?f) with (f st). cbv beta.
  case_bool_decide as Hhid; [|split; [done|by intros ? [= <-]]]. subst st.
  pose proof (hidden_unrevealed _ _ _ _ Hst ltac:(done)).
  split.
  - apply IH; lia.
  - intros u' Hu'. apply reveal_rec_hidden_opens in Hu' as [_ (_ & _ & Hle & _)]; [|done].
    unfold I. lia.
Qed.

(** More frames than needed change nothing. *)
Lemma for_each_more {A S} (l : list A) (body1 body2 : A → S → outcome S) s :
  (∀ x t, body1 x t ≠ Starved → body2 x t = body1 x t) →
  for_each l body1 s ≠ Starved → for_each l body2 s = for_each l body1 s.
Proof.
  intros Hb. revert s. induction l as [|x l IH]; intros s H; simpl in *; [done|].
  destruct (body1 x s) as [t| |] eqn:E; simpl in *; [| |done].
  - rewrite Hb, E by (by rewrite E). simpl. by apply IH.
  - rewrite Hb, E by (by rewrite E). done.
Qed.

Lemma reveal_rec_more fuel fuel' b r c :
  (fuel ≤ fuel')%nat → reveal_rec fuel b r c ≠ Starved →
  reveal_rec fuel' b r c = reveal_rec fuel b r c.
Proof.
  revert fuel' b r c. induction fuel as [|fuel IH]; intros fuel' b r c Hle H; [done|].
  destruct fuel' as [|fuel']; [lia|].
  rewrite !reveal_rec_S in *. destruct (game_over b); [done|].
  destruct (get2 (cell_states b) r c) as [old| |]; obind; [|done|done].
  case_bool_decide; [done|].
  destruct (set2 (cell_states b) r c REVEALED) as [cs1| |]; obind; [|done|done].
  destruct (get2 (grid (with_cell_states cs1 b)) r c) as [v| |]; obind; [|done|done].
  destruct (v =? MINE_VALUE); [done|]. destruct (v =? 0); [|done].
  apply for_each_more; [|done]. intros i t Ht.
  apply for_each_more; [|done]. intros j u Hu.
  destruct ((i =? 0) && (j =? 0)); [done|].
  destruct (in_bounds u (r + i) (c + j)); [|done].
  destruct (get2 (cell_states u) (r + i) (c + j)) as [st| |]; obind; [|done|done].
  case_bool_decide; [|done]. apply IH; [lia|done].
Qed.

Lemma length_concat_dims {A} (m : list (list A)) nrows ncols :
  has_dims m nrows ncols → length (concat m) = Z.to_nat (nrows * ncols).
Proof.
  intros (HR & HC & Hlen & Hrows).
  assert (length (concat m) = (length m * Z.to_nat ncols)%nat) as ->.
  { clear Hlen. induction Hrows as [|row m Hrow _ IH]; [done|].
    simpl. rewrite length_app, IH, Hrow. lia. }
  rewrite Hlen. lia.
Qed.

Lemma unrevealed_le_cells b :
  wf b → (unrevealed (cell_states b) ≤ Z.to_nat (rows b * cols b))%nat.
Proof.
  intros [_ Hd]. rewrite <- (length_concat_dims _ _ _ Hd). apply length_filter.
Qed.

(** ** Counting the calls *)


Lemma sim_refl_eq {A} (o : outcome A) : sim eq o o.
Proof. by destruct o. Qed.




(** ** Frames of mine placement and of the adjacency pass *)

Lemma placement_frame_refl b : placement_frame b b.
Proof. by repeat split. Qed.

Lemma placement_frame_trans b1 b2 b3 :
  placement_frame b1 b2 → placement_frame b2 b3 → placement_frame b1 b3.
Proof.
  unfold placement_frame. intros (?&?&?&?&?&?&?&?) (?&?&?&?&?&?&?&?).
  split_and!; congruence.
Qed.

Lemma list_pair_ind {A} (P : list A → Prop) :
  P [] → (∀ a, P [a]) → (∀ a b l, P l → P (a :: b :: l)) → ∀ l, P l.
Proof.
  intros H0 H1 H2 l. cut (P l ∧ ∀ a, P (a :: l)); [by intros []|].
  induction l as [|x l [IH1 IH2]]; [by split|]. split; [apply IH2|]. intros a. by apply H2.
Qed.

Lemma place_loop_eq draws safe_zone mines_to_place b placed_mines :
  place_loop draws safe_zone mines_to_place b placed_mines =
  if placed_mines <? mines_to_place then
    match draws with
    | raw_row :: raw_col :: draws' =>
        row ← randint 0 (rows b - 1) raw_row;
        col ← randint 0 (cols b - 1) raw_col;
        if bool_decide ((row, col) ∉ mines_location b) && bool_decide ((row, col) ∉ safe_zone) then
          g ← set2 (grid b) row col MINE_VALUE;
          place_loop draws' safe_zone mines_to_place
            (with_grid g (with_mines_location ({[ (row, col) ]} ∪ mines_location b) b))
            (placed_mines + 1)
        else place_loop draws' safe_zone mines_to_place b placed_mines
    | _ => Starved
    end
  else Done b.
Proof. by destruct draws. Qed.

Lemma place_loop_frame draws safe_zone mines_to_place b placed_mines b' :
  place_loop draws safe_zone mines_to_place b placed_mines = Done b' →
  placement_frame b b' ∧ mines b' = mines b.
Proof.
  revert b placed_mines.
  induction draws as [|a|raw_row raw_col draws IH] using list_pair_ind;
    intros b placed_mines H; rewrite place_loop_eq in H;
    destruct (placed_mines <? mines_to_place);
    try (by inversion H; subst; split; [apply placement_frame_refl|]); try done.
  inv_bind H. inv_bind H.
  destruct (_ && _).
  - inv_bind H. apply IH in H as [Hfr Hm]. split; [|done].
    eapply placement_frame_trans; [|exact Hfr]. by repeat split.
  - by apply IH in H.
Qed.

Lemma place_mines_frame draws b r c b' :
  _place_mines draws b r c = Done b' → placement_frame b b'.
Proof.
  unfold _place_mines. intros H. inv_bind H. inv_bind H. inversion H; subst b'.
  apply place_loop_frame in E0 as [Hfr _].
  eapply placement_frame_trans; [|eapply placement_frame_trans; [exact Hfr|]];
    by repeat split.
Qed.

Lemma calculate_adjacent_mines_frame b b' :
  _calculate_adjacent_mines b = Done b' →
  placement_frame b b' ∧ mines b' = mines b ∧ mines_location b' = mines_location b.
Proof.
  set (I := λ t : Board, placement_frame b t ∧ mines t = mines b
                         ∧ mines_location t = mines_location b).
  intros H. cut (I b'); [done|]. revert H. unfold _calculate_adjacent_mines.
  apply (for_each_returns I).
  { split; [apply placement_frame_refl|done]. }
  intros r t0 t0' _ Ht0. apply (for_each_returns I); [done|].
  intros c t t' _ (Hfr & Hm & Hl) H.
  inv_bind H. destruct (negb _); [|by inversion H; subst].
  inv_bind H. inv_bind H. inversion H; subst t'. split; [|done].
  eapply placement_frame_trans; [exact Hfr|]. by repeat split.
Qed.

(** ** Invariants of a click *)

(** A property kept by every step of [handle_click] is kept by a click.
    The steps are taken under the conditions [handle_click] checks before
    them. *)
Lemma handle_click_preserves (I : Board → Prop) :
  (∀ draws b r c b', I b → in_bounds b r c = true → first_click b = true →
     _place_mines draws b r c = Done b' → I b') →
  (∀ b b', I b → _calculate_adjacent_mines b = Done b' → I b') →
  (∀ b, I b → I (with_first_click false b)) →
  (∀ b r c b', I b → in_bounds b r c = true → game_over b = false →
     get2 (cell_states b) r c ≠ Done FLAGGED → reveal b r c = Done b' → I b') →
  (∀ b r c b', I b → in_bounds b r c = true →
     get2 (cell_states b) r c ≠ Done REVEALED → toggle_flag b r c = Done b' → I b') →
  (∀ b b', I b → game_over b = false → _check_win b = Done b' → I b') →
  ∀ env draws b mouse_pos button b',
    I b → handle_click env draws b mouse_pos button = Done b' → I b'.
Proof.
  intros Hplace Hadj Hfirst Hreveal Htoggle Hwin env draws b mouse_pos button b' Hb H.
  unfold handle_click in H.
  destruct (game_over b || game_won b) eqn:Hfin; [by inversion H; subst|].
  apply orb_false_iff in Hfin as [Hover Hwon].
  cbv beta zeta in H. inv_bind H. rename a into col. inv_bind H. rename a into row.
  destruct (in_bounds b row col) eqn:Hin; [|by inversion H; subst].
  cbn [negb] in H. inv_bind H. rename a into b1, E1 into Hstep.
  assert (I b1) as Hb1.
  { destruct (button =? 1).
    - inv_bind Hstep. rename a into b2, E1 into Hinit.
      assert (I b2 ∧ rows b2 = rows b ∧ cols b2 = cols b ∧ game_over b2 = game_over b)
        as (Hb2 & Hr & Hc & Hgo).
      { destruct (first_click b) eqn:Hfc; [|by inversion Hinit; subst].
        inv_bind Hinit. inv_bind Hinit. inversion Hinit; subst b2.
        pose proof (place_mines_frame _ _ _ _ _ E1) as (? & ? & _ & _ & _ & ? & _).
        pose proof (calculate_adjacent_mines_frame _ _ E2) as ((? & ? & _ & _ & _ & ? & _) & _).
        split; [eauto|]. cbn [rows cols game_over with_first_click].
        split_and!; congruence. }
      inv_bind Hstep. rename a into st, E1 into Hst.
      case_bool_decide as Hfl; cbn [negb] in Hstep; [by inversion Hstep; subst|].
      eapply (Hreveal b2 row col); [done| |congruence| |done].
      + unfold in_bounds in *. by rewrite Hr, Hc.
      + rewrite Hst. congruence.
    - destruct (button =? 3); [|by inversion Hstep; subst].
      inv_bind Hstep. rename a into st, E1 into Hst.
      case_bool_decide as Hrv; cbn [negb] in Hstep; [by inversion Hstep; subst|].
      eapply (Htoggle b row col); [done|done| |done]. rewrite Hst. congruence. }
  destruct (game_over b1) eqn:Hover1; cbn [negb] in H; [by inversion H; subst|].
  by eapply Hwin.
Qed.

(** ** flags_placed counts the flags *)

Lemma filter_replicate_none {A} (P : A → Prop) `{!∀ x, Decision (P x)} n x :
  ¬ P x → filter P (replicate n x) = [].
Proof.
  intros Hx. induction n as [|n IH]; [done|]. simpl. by rewrite filter_cons_False.
Qed.

Lemma fresh_matrix_no_flags nrows ncols :
  count_state FLAGGED (fresh_matrix nrows ncols HIDDEN) = 0%nat.
Proof.
  unfold count_state, count_cells, fresh_matrix.
  induction (Z.to_nat nrows) as [|n IH]; [done|]. simpl.
  rewrite filter_app, length_app, IH. by rewrite filter_replicate_none.
Qed.

Lemma init_flags_consistent env nrows ncols nmines :
  flags_consistent (init env nrows ncols nmines).
Proof. unfold flags_consistent. simpl. by rewrite fresh_matrix_no_flags. Qed.

Lemma reset_flags_consistent env b : flags_consistent (reset env b).
Proof. unfold flags_consistent. simpl. by rewrite fresh_matrix_no_flags. Qed.

Lemma count_flagged_set2 cs cs' r c old x :
  get2 cs r c = Done old → set2 cs r c x = Done cs' →
  Z.of_nat (count_state FLAGGED cs')
  = Z.of_nat (count_state FLAGGED cs)
    - (if decide (old = FLAGGED) then 1 else 0) + (if decide (x = FLAGGED) then 1 else 0).
Proof.
  intros Hget Hset.
  pose proof (count_cells_set2 (λ st, st = FLAGGED) _ _ _ _ _ _ Hget Hset) as HF.
  unfold indicator in HF. unfold count_state.
  destruct (decide (old = FLAGGED)), (decide (x = FLAGGED)); lia.
Qed.

Lemma toggle_flag_flags_consistent b r c b' :
  flags_consistent b → toggle_flag b r c = Done b' → flags_consistent b'.
Proof.
  unfold flags_consistent, toggle_flag. intros Hb H.
  inv_bind H. rename a into st, E into Hst. destruct st; cbn [bool_decide decide_rel] in H.
  - rewrite bool_decide_eq_true_2 in H by done. inv_bind H. inversion H; subst b'. simpl.
    rewrite (count_flagged_set2 _ _ _ _ _ _ Hst E).
    rewrite decide_False, decide_True by done. lia.
  - rewrite bool_decide_eq_false_2 in H by done. inv_bind H.
    rewrite bool_decide_eq_false_2 in H by (rewrite Hst in E; by inversion E).
    by inversion H; subst.
  - rewrite bool_decide_eq_false_2 in H by done. inv_bind H.
    rewrite Hst in E. inversion E; subst a.
    rewrite bool_decide_eq_true_2 in H by done. inv_bind H. inversion H; subst b'. simpl.
    rewrite (count_flagged_set2 _ _ _ _ _ _ Hst E0).
    rewrite decide_True, decide_False by done. lia.
Qed.

Lemma reveal_rec_flags_consistent fuel b r c b' :
  flags_consistent b → get2 (cell_states b) r c ≠ Done FLAGGED →
  reveal_rec fuel b r c = Done b' → flags_consistent b'.
Proof.
  unfold flags_consistent. intros Hb Hnf H.
  apply reveal_rec_opens in H as [Hfr Hcase].
  destruct Hfr as (_ & _ & _ & _ & -> & _).
  destruct Hcase as [[_ ->]|(old & cs1 & _ & Hold & _ & Hcs1 & (_ & HF & _))]; [done|].
  rewrite HF, Hb.
  rewrite (count_flagged_set2 _ _ _ _ _ _ Hold Hcs1).
  rewrite decide_False by (intros ->; by rewrite Hold in Hnf).
  rewrite decide_False by done. lia.
Qed.

Lemma reveal_all_mines_flags_consistent b b' :
  flags_consistent b → _reveal_all_mines b = Done b' → flags_consistent b'.
Proof.
  unfold flags_consistent. intros Hb H.
  apply reveal_all_mines_opens in H as [Heq (_ & HF & _)].
  rewrite HF, <- Hb, Heq. done.
Qed.

Lemma flag_remaining_mines_flags_consistent b b' :
  flags_consistent b → flag_remaining_mines b = Done b' → flags_consistent b'.
Proof.
  intros Hb H. revert H. unfold flag_remaining_mines.
  apply (for_each_returns flags_consistent); [done|].
  intros r t0 t0' _ Ht0. apply (for_each_returns flags_consistent); [done|].
  intros c t t' _ Ht H. unfold flags_consistent in *.
  inv_bind H. destruct (a =? MINE_VALUE); [|by inversion H; subst].
  inv_bind H. rename a0 into st, E0 into Hst.
  case_bool_decide as Hh; [|by inversion H; subst]. subst st.
  inv_bind H. inversion H; subst t'. simpl.
  rewrite (count_flagged_set2 _ _ _ _ _ _ Hst E0).
  rewrite decide_False, decide_True by done. lia.
Qed.

Lemma check_win_flags_consistent b b' :
  flags_consistent b → _check_win b = Done b' → flags_consistent b'.
Proof.
  intros Hb H. unfold _check_win in H. inv_bind H.
  destruct (a =? _); [|by inversion H; subst].
  eapply flag_remaining_mines_flags_consistent; [|exact H]. exact Hb.
Qed.

Lemma placement_frame_flags_consistent b b' :
  placement_frame b b' → flags_consistent b → flags_consistent b'.
Proof.
  unfold flags_consistent. intros (_ & _ & -> & -> & _) H. done.
Qed.

Lemma handle_click_flags_consistent env draws b mouse_pos button b' :
  flags_consistent b → handle_click env draws b mouse_pos button = Done b' →
  flags_consistent b'.
Proof.
  apply (handle_click_preserves flags_consistent).
  - intros ?????? _ _ H%place_mines_frame. by eapply placement_frame_flags_consistent.
  - intros ??? [H _]%calculate_adjacent_mines_frame.
    by eapply placement_frame_flags_consistent.
  - done.
  - intros ????? _ _ ??. by eapply reveal_rec_flags_consistent.
  - intros ????? _ _ ?. by eapply toggle_flag_flags_consistent.
  - intros ??? _ ?. by eapply check_win_flags_consistent.
Qed.

(** C2 as stated fails: [reveal] called directly on a FLAGGED cell sets it
    to REVEALED without touching flags_placed.  On a fresh 1x1 board,
    toggle_flag(0,0) followed by reveal(0,0) reaches a board with
    flags_placed = 1 and no FLAGGED cell. *)
Lemma direct_reveal_breaks_flag_count :
  let b0 := init default_settings 1 1 0 in
  ∃ b1 b2, toggle_flag b0 0 0 = Done b1 ∧ reveal b1 0 0 = Done b2 ∧
           reachable b0 b2 ∧
           flags_placed b2 = 1 ∧ count_state FLAGGED (cell_states b2) = 0%nat ∧
           ¬ flags_consistent b2.
Proof.
  intros b0.
  assert (∃ b1, toggle_flag b0 0 0 = Done b1) as [b1 H1] by (eexists; vm_compute; reflexivity).
  assert (∃ b2, reveal b1 0 0 = Done b2) as [b2 H2].
  { vm_compute in H1. inversion H1; subst b1. eexists. vm_compute. reflexivity. }
  exists b1, b2. split_and!; [done|done| | | |].
  - eapply (reachable_step _ b1 (Reveal 0 0)); [|done].
    eapply (reachable_step _ b0 (ToggleFlag 0 0)); [constructor|done].
  - vm_compute in H1. inversion H1; subst b1. vm_compute in H2. by inversion H2; subst b2.
  - vm_compute in H1. inversion H1; subst b1. vm_compute in H2. by inversion H2; subst b2.
  - vm_compute in H1. inversion H1; subst b1. vm_compute in H2. inversion H2; subst b2.
    unfold flags_consistent. vm_compute. discriminate.
Qed.

Lemma run_flags_consistent o b b' :
  guarded o b → flags_consistent b → run o b = Done b' → flags_consistent b'.
Proof.
  destruct o; simpl; intros Hg Hb H.
  - by eapply handle_click_flags_consistent.
  - by eapply reveal_rec_flags_consistent.
  - by eapply toggle_flag_flags_consistent.
  - by eapply check_win_flags_consistent.
  - by eapply reveal_all_mines_flags_consistent.
  - inversion H; subst. apply reset_flags_consistent.
Qed.

(** C2, amended: in every board state reached from a freshly constructed
    board by any sequence of handle_click, toggle_flag, _check_win,
    _reveal_all_mines, reset, and of reveal calls whose target is not
    FLAGGED (the condition under which handle_click calls reveal),
    flags_placed equals the number of FLAGGED cells. *)
Theorem flags_placed_counts_flags env nrows ncols nmines b :
  reachable_guarded (init env nrows ncols nmines) b →
  flags_placed b = Z.of_nat (count_state FLAGGED (cell_states b)).
Proof.
  induction 1 as [|b o b' _ IH Hg Hrun].
  - apply init_flags_consistent.
  - by eapply run_flags_consistent.
Qed.

Lemma lost_board_reachable_guarded :
  reachable_guarded (init default_settings 1 6 2) lost_board.
Proof.
  destruct lost_board_played as [H1 H2].
  eapply (reachable_guarded_step _ opened_board (Click _ _ _ _)); [|done|exact H2].
  eapply (reachable_guarded_step _ _ (Click _ _ _ _)); [constructor|done|exact H1].
Qed.

Lemma flags_placed_counts_flags_witness :
  reachable_guarded (init default_settings 1 6 2) lost_board ∧
  flags_placed lost_board = Z.of_nat (count_state FLAGGED (cell_states lost_board)).
Proof.
  split; [apply lost_board_reachable_guarded|].
  apply (flags_placed_counts_flags default_settings 1 6 2).
  apply lost_board_reachable_guarded.
Defined.

(** ** Loops over the whole grid *)

(** The double loop [for r in range(rows): for c in range(cols)] visits the
    cells in row-major order; the inner range is recomputed from the current
    state, which never changes it. *)
Lemma for_each_nested_dep {S} (K : S → Prop) (l1 l2 : list Z) (inner : S → list Z)
    (body : Z → Z → S → outcome S) s :
  K s →
  (∀ t, K t → inner t = l2) →
  (∀ r c t t', K t → body r c t = Done t' → K t') →
  for_each l1 (λ r t, for_each (inner t) (λ c t, body r c t) t) s
  = for_each (pairs l1 l2) (λ p t, body p.1 p.2 t) s.
Proof.
  intros Hs Hinner Hbody. rewrite <- for_each_nested.
  revert s Hs. induction l1 as [|r l1 IH]; intros s Hs; [done|].
  cbn [for_each]. rewrite (Hinner s Hs).
  destruct (for_each l2 (λ c t, body r c t) s) as [t| |] eqn:E; obind; [|done|done].
  apply IH. revert E. apply (for_each_returns K); [done|]. intros c u u' _. apply Hbody.
Qed.

Section grid_loop.
Context {S A : Type} (get : S → list (list A)) (nrows ncols : Z).
Context (F : Z * Z → A → A) (J : list (Z * Z) → S → Prop).
Context (body : Z * Z → S → outcome S).

(** A loop that rewrites each cell once, [F] giving the new value from the
    old one: the result holds [F] of the initial value in every cell. *)
Lemma grid_loop s :
  has_dims (get s) nrows ncols → J [] s →
  (∀ pre r c t,
     0 ≤ r < nrows → 0 ≤ c < ncols → (r, c) ∉ pre →
     has_dims (get t) nrows ncols → J pre t →
     get2 (get t) r c = get2 (get s) r c →
     ∃ t' x, body (r, c) t = Done t' ∧ get2 (get t) r c = Done x ∧
             has_dims (get t') nrows ncols ∧ J (pre ++ [(r, c)]) t' ∧
             get2 (get t') r c = Done (F (r, c) x) ∧
             ∀ r' c', 0 ≤ r' → 0 ≤ c' → ¬ (r' = r ∧ c' = c) →
               get2 (get t') r' c' = get2 (get t) r' c') →
  ∃ s', for_each (pairs (range nrows) (range ncols)) body s = Done s' ∧
        has_dims (get s') nrows ncols ∧
        J (pairs (range nrows) (range ncols)) s' ∧
        ∀ r c x, 0 ≤ r < nrows → 0 ≤ c < ncols →
          get2 (get s) r c = Done x → get2 (get s') r c = Done (F (r, c) x).
Proof.
  intros Hd HJ Hstep.
  set (I := λ (pre : list (Z * Z)) (t : S),
         has_dims (get t) nrows ncols ∧ J pre t ∧
         ∀ r c, 0 ≤ r < nrows → 0 ≤ c < ncols →
           ((r, c) ∈ pre → ∀ x, get2 (get s) r c = Done x →
                                 get2 (get t) r c = Done (F (r, c) x)) ∧
           ((r, c) ∉ pre → get2 (get t) r c = get2 (get s) r c)).
  destruct (for_each_prefix I (pairs (range nrows) (range ncols)) body s)
    as (s' & Hrun & Hd' & HJ' & Hcells).
  - split_and!; [done|done|]. intros r c _ _. split; [by intros ?%elem_of_nil|done].
  - intros pre [r c] post t Hl (Hdt & HJt & Hcells).
    assert ((r, c) ∈ pairs (range nrows) (range ncols)) as Hin.
    { rewrite Hl. apply elem_of_app. right. by left. }
    apply elem_of_pairs in Hin as [Hr%elem_of_range Hc%elem_of_range].
    assert ((r, c) ∉ pre) as Hfresh.
    { pose proof (NoDup_pairs _ _ (NoDup_seqZ 0 nrows) (NoDup_seqZ 0 ncols)) as Hnd.
      fold (range nrows) (range ncols) in Hnd. rewrite Hl in Hnd.
      apply NoDup_app in Hnd as (_ & Hnd & _). intros Hpre. apply (Hnd _ Hpre). by left. }
    destruct (Hstep pre r c t Hr Hc Hfresh Hdt HJt (proj2 (Hcells r c Hr Hc) Hfresh))
      as (t' & x & Hb & Hx & Hdt' & HJt' & Hnew & Hold).
    exists t'. split; [done|]. split_and!; [done|done|].
    intros r' c' Hr' Hc'. destruct (decide (r' = r ∧ c' = c)) as [[-> ->]|Hne].
    + split; [|intros Hn; destruct Hn; apply elem_of_app; right; by left].
      intros _ y Hy. destruct (Hcells r c Hr Hc) as [_ Hsame].
      rewrite Hsame in Hx by done. rewrite Hy in Hx. inversion Hx; subst. done.
    + rewrite Hold by (done || lia). destruct (Hcells r' c' Hr' Hc') as [Hdone Htodo].
      split.
      * intros [Hin|Hin%list_elem_of_singleton]%elem_of_app; [by apply Hdone|].
        inversion Hin; subst. by destruct Hne.
      * intros Hn. apply Htodo. intros Hin. apply Hn, elem_of_app. by left.
  - exists s'. split_and!; [done|done|done|].
    intros r c x Hr Hc Hx. destruct (Hcells r c Hr Hc) as [Hdone _].
    apply Hdone; [|done]. apply elem_of_pairs. by rewrite !elem_of_range.
Qed.
End grid_loop.

(** ** Neighbours *)

(** The double loop over the offsets, with its [continue] on (0,0), visits
    the eight neighbour positions. *)
Lemma offsets_loop {S} (r c : Z) (body : Z → Z → S → outcome S) s :
  for_each (range2 (-1) 2) (λ i s,
    for_each (range2 (-1) 2) (λ j s,
      if (i =? 0) && (j =? 0) then Done s
      else
        let nr := r + i in
        let nc := c + j in
        body nr nc s) s) s
  = for_each (around r c) (λ p s, body p.1 p.2 s) s.
Proof.
  rewrite range2_m1_2. unfold around, offsets.
  cbn [for_each fmap list_fmap fst snd Z.eqb andb].
  repeat (destruct (body _ _ _); obind; [|done|done]). done.
Qed.

Lemma elem_of_around r c r' c' :
  (r', c') ∈ around r c ↔
  (r - 1 ≤ r' ≤ r + 1) ∧ (c - 1 ≤ c' ≤ c + 1) ∧ ¬ (r' = r ∧ c' = c).
Proof.
  unfold around, offsets. rewrite list_elem_of_fmap. split.
  - intros ([i j] & [= -> ->] & Hin). cbn [fst snd].
    repeat (apply elem_of_cons in Hin as [[= -> ->]|Hin]; [split_and!; lia|]).
    by apply elem_of_nil in Hin.
  - intros (Hr & Hc & Hne). exists (r' - r, c' - c). cbn [fst snd].
    split; [f_equal; lia|].
    assert (r' - r = -1 ∨ r' - r = 0 ∨ r' - r = 1) as Hi by lia.
    assert (c' - c = -1 ∨ c' - c = 0 ∨ c' - c = 1) as Hj by lia.
    destruct Hi as [Hi|[Hi|Hi]], Hj as [Hj|[Hj|Hj]]; rewrite Hi, Hj;
      try (by repeat (first [by left | right])).
    destruct Hne. lia.
Qed.

Lemma length_around r c : length (around r c) = 8%nat.
Proof. reflexivity. Qed.

Lemma adjacent_mines_range b r c : 0 ≤ adjacent_mines b r c ≤ 8.
Proof.
  unfold adjacent_mines.
  pose proof (length_filter (λ p, in_bounds b p.1 p.2 = true ∧ mine_at (grid b) p.1 p.2 = true)
                (around r c)) as H.
  rewrite length_around in H. lia.
Qed.

(** The count depends on the shape and on where the mines are only. *)
Lemma adjacent_mines_ext b b' r c :
  rows b' = rows b → cols b' = cols b →
  (∀ r' c', in_bounds b r' c' = true → mine_at (grid b') r' c' = mine_at (grid b) r' c') →
  adjacent_mines b' r c = adjacent_mines b r c.
Proof.
  intros Hr Hc Hm. unfold adjacent_mines. do 2 f_equal.
  apply list_filter_iff. intros [r' c']. cbn [fst snd].
  assert (in_bounds b' r' c' = in_bounds b r' c') as -> by (unfold in_bounds; by rewrite Hr, Hc).
  split; intros [Hin Hmine]; (split; [done|]); [by rewrite <- Hm|by rewrite Hm].
Qed.

(** ** count_adjacent *)

Lemma count_loop b (l : list (Z * Z)) (n : Z) :
  has_dims (grid b) (rows b) (cols b) →
  for_each l (λ p count,
    if in_bounds b p.1 p.2 then
      v ← get2 (grid b) p.1 p.2;
      if v =? MINE_VALUE then Done (count + 1) else Done count
    else Done count) n
  = Done (n + Z.of_nat (length (filter
       (λ p, in_bounds b p.1 p.2 = true ∧ mine_at (grid b) p.1 p.2 = true) l))).
Proof.
  intros Hd. revert n. induction l as [|[r c] l IH]; intros n; cbn [for_each fst snd].
  { simpl. f_equal. lia. }
  destruct (in_bounds b r c) eqn:Hin.
  - pose proof Hin as [Hr Hc]%in_bounds_spec.
    destruct (get2_in_dims _ _ _ r c Hd Hr Hc) as [v Hv]. rewrite Hv. obind.
    destruct (v =? MINE_VALUE) eqn:Hm; obind; rewrite IH.
    + rewrite filter_cons_True; [f_equal; simpl length; lia|].
      cbn [fst snd]. unfold mine_at. by rewrite Hv.
    + rewrite filter_cons_False; [done|].
      cbn [fst snd]. unfold mine_at. rewrite Hv, Hm. by intros [_ ?].
  - obind. rewrite IH. rewrite filter_cons_False; [done|].
    cbn [fst snd]. rewrite Hin. by intros [? _].
Qed.

Lemma count_adjacent_spec b r c :
  has_dims (grid b) (rows b) (cols b) →
  count_adjacent b r c = Done (adjacent_mines b r c).
Proof.
  intros Hd. unfold count_adjacent.
  rewrite (offsets_loop r c (λ nr nc count,
    if in_bounds b nr nc then
      v ← get2 (grid b) nr nc;
      if v =? MINE_VALUE then Done (count + 1) else Done count
    else Done count)).
  by rewrite (count_loop b _ 0 Hd).
Qed.

(** ** _calculate_adjacent_mines *)

Lemma mine_at_get2 g r c v : get2 g r c = Done v → mine_at g r c = (v =? MINE_VALUE).
Proof. intros H. unfold mine_at. by rewrite H. Qed.

Lemma calculate_adjacent_mines_flat b :
  _calculate_adjacent_mines b
  = for_each (pairs (range (rows b)) (range (cols b))) (λ p b,
      v ← get2 (grid b) p.1 p.2;
      if negb (v =? MINE_VALUE) then
        count ← count_adjacent b p.1 p.2;
        g ← set2 (grid b) p.1 p.2 count;
        Done (with_grid g b)
      else Done b) b.
Proof.
  unfold _calculate_adjacent_mines.
  apply (for_each_nested_dep (λ t, cols t = cols b) _ _ (λ t, range (cols t))
           (λ r c b, v ← get2 (grid b) r c;
                     if negb (v =? MINE_VALUE) then
                       count ← count_adjacent b r c;
                       g ← set2 (grid b) r c count;
                       Done (with_grid g b)
                     else Done b)); [done|by intros t ->|].
  intros r c t t' Ht H. inv_bind H. destruct (negb _); [|by inversion H; subst].
  inv_bind H. inv_bind H. by inversion H; subst.
Qed.

Lemma calculate_adjacent_mines_spec b :
  wf b →
  ∃ b', _calculate_adjacent_mines b = Done b' ∧
        b' = with_grid (grid b') b ∧ wf b' ∧
        ∀ r c v, in_bounds b r c = true → get2 (grid b) r c = Done v →
          get2 (grid b') r c
          = Done (if v =? MINE_VALUE then v else adjacent_mines b r c).
Proof.
  intros [Hg Hcs]. rewrite calculate_adjacent_mines_flat.
  set (J := λ (_ : list (Z * Z)) (t : Board),
         t = with_grid (grid t) b ∧
         ∀ r c, in_bounds b r c = true → mine_at (grid t) r c = mine_at (grid b) r c).
  set (F := λ (p : Z * Z) (v : Z), if v =? MINE_VALUE then v else adjacent_mines b p.1 p.2).
  destruct (grid_loop grid (rows b) (cols b) F J
              (λ p b, v ← get2 (grid b) p.1 p.2;
                      if negb (v =? MINE_VALUE) then
                        count ← count_adjacent b p.1 p.2;
                        g ← set2 (grid b) p.1 p.2 count;
                        Done (with_grid g b)
                      else Done b) b) as (b' & Hrun & Hd' & [Heq Hmines] & Hcells).
  - done.
  - split; [by destruct b|done].
  - intros pre r c t Hr Hc _ Hdt [Heq Hmines] _. cbn [fst snd].
    assert (rows t = rows b ∧ cols t = cols b) as [Hrt Hct] by (by rewrite Heq).
    destruct (get2_in_dims _ _ _ r c Hdt Hr Hc) as [x Hx]. rewrite Hx. obind.
    destruct (x =? MINE_VALUE) eqn:Hm; cbn [negb].
    + exists t, x. split_and!; try done. unfold F. by rewrite Hm.
    + rewrite count_adjacent_spec by (by rewrite Hrt, Hct). obind.
      destruct (set2_in_dims _ _ _ r c (adjacent_mines t r c) Hdt Hr Hc) as (g' & Hset & Hdg').
      rewrite Hset. obind.
      assert (adjacent_mines t r c = adjacent_mines b r c) as Hadj
        by (by apply adjacent_mines_ext).
      assert (∀ r' c', 0 ≤ r' → 0 ≤ c' →
                get2 g' r' c' = if decide (r' = r ∧ c' = c)
                                then Done (adjacent_mines t r c) else get2 (grid t) r' c') as Hg'.
      { intros r' c' ??. apply (get2_set2_nonneg (grid t) r c); (done || lia). }
      exists (with_grid g' t), x. cbn [grid with_grid]. split_and!; try done.
      * split; [rewrite Heq at 1; by destruct b|]. cbn [grid with_grid].
        intros r' c' Hin. rewrite <- Hmines by done.
        pose proof Hin as [Hr' Hc']%in_bounds_spec.
        unfold mine_at. rewrite Hg' by lia.
        destruct (decide (r' = r ∧ c' = c)) as [[-> ->]|]; [|done].
        rewrite Hx, Hm. pose proof (adjacent_mines_range t r c).
        unfold MINE_VALUE. apply Z.eqb_neq. lia.
      * rewrite Hg' by lia. rewrite decide_True by done. unfold F. rewrite Hm.
        cbn [fst snd]. by rewrite Hadj.
      * intros r' c' ?? Hne. rewrite Hg' by done. by rewrite decide_False.
  - exists b'. split; [done|].
    assert (rows b' = rows b ∧ cols b' = cols b ∧ cell_states b' = cell_states b)
      as (Hr' & Hc' & Hcs') by (by rewrite Heq).
    split_and!; [done| |].
    + split; by rewrite Hr', Hc', ?Hcs'.
    + intros r c v [Hr Hc]%in_bounds_spec Hv. by apply (Hcells r c v).
Qed.

(** C7: after _calculate_adjacent_mines has run on a well-formed board, the
    mines are where they were and every in-range cell that is not a mine
    holds the number of mines among its up-to-8 in-bounds neighbours, a
    number between 0 and 8; positions outside the grid are not among these
    neighbours.  The call returns, and writes nothing but the grid. *)
Theorem calculate_adjacent_mines_correct b :
  wf b →
  ∃ b', _calculate_adjacent_mines b = Done b' ∧
        b' = with_grid (grid b') b ∧ wf b' ∧
        (∀ r c, in_bounds b' r c = true →
           mine_at (grid b') r c = mine_at (grid b) r c) ∧
        (∀ r c, in_bounds b' r c = true → mine_at (grid b') r c = false →
           get2 (grid b') r c = Done (adjacent_mines b' r c) ∧
           0 ≤ adjacent_mines b' r c ≤ 8 ∧
           adjacent_mines b' r c
           = Z.of_nat (length (filter (λ p, mine_at (grid b') p.1 p.2 = true)
                                 (filter (λ p, 0 ≤ p.1 < rows b' ∧ 0 ≤ p.2 < cols b')
                                    (around r c))))).
Proof.
  intros Hwf. destruct (calculate_adjacent_mines_spec b Hwf) as (b' & Hrun & Heq & Hwf' & Hcells).
  exists b'. split_and!; [done|done|done| |].
  - assert (rows b' = rows b ∧ cols b' = cols b) as [Hr' Hc'] by (by rewrite Heq).
    assert (∀ r c, in_bounds b' r c = in_bounds b r c) as Hin
        by (intros; unfold in_bounds; by rewrite Hr', Hc').
    intros r c Hrc. rewrite Hin in Hrc.
    pose proof Hrc as [Hr Hc]%in_bounds_spec.
    destruct (get2_in_dims _ _ _ r c (proj1 Hwf) Hr Hc) as [v Hv].
    rewrite (mine_at_get2 _ _ _ _ Hv), (mine_at_get2 _ _ _ _ (Hcells r c v Hrc Hv)).
    destruct (v =? MINE_VALUE) eqn:Hm; [done|].
    pose proof (adjacent_mines_range b r c). unfold MINE_VALUE. apply Z.eqb_neq. lia.
  - assert (rows b' = rows b ∧ cols b' = cols b) as [Hr' Hc'] by (by rewrite Heq).
    assert (∀ r c, in_bounds b' r c = in_bounds b r c) as Hin
        by (intros; unfold in_bounds; by rewrite Hr', Hc').
    assert (∀ r c, in_bounds b r c = true →
              mine_at (grid b') r c = mine_at (grid b) r c) as Hmines.
    { intros r c Hrc. pose proof Hrc as [Hr Hc]%in_bounds_spec.
      destruct (get2_in_dims _ _ _ r c (proj1 Hwf) Hr Hc) as [v Hv].
      rewrite (mine_at_get2 _ _ _ _ Hv), (mine_at_get2 _ _ _ _ (Hcells r c v Hrc Hv)).
      destruct (v =? MINE_VALUE) eqn:Hm; [done|].
      pose proof (adjacent_mines_range b r c). unfold MINE_VALUE. apply Z.eqb_neq. lia. }
    intros r c Hrc Hnm. rewrite Hin in Hrc.
    pose proof Hrc as [Hr Hc]%in_bounds_spec.
    destruct (get2_in_dims _ _ _ r c (proj1 Hwf) Hr Hc) as [v Hv].
    rewrite (adjacent_mines_ext b b' r c Hr' Hc' Hmines).
    rewrite Hmines in Hnm by done. rewrite (mine_at_get2 _ _ _ _ Hv) in Hnm.
    split; [|split].
    + rewrite (Hcells r c v Hrc Hv). by rewrite Hnm.
    + apply adjacent_mines_range.
    + rewrite <- (adjacent_mines_ext b b' r c Hr' Hc' Hmines).
      unfold adjacent_mines. rewrite list_filter_filter.
      apply (f_equal Z.of_nat), (f_equal length).
      apply list_filter_iff. intros [r' c']. cbn [fst snd].
      rewrite in_bounds_spec. tauto.
Qed.

Lemma calculate_adjacent_mines_correct_witness :
  let b := with_grid [[0; 0; 0; -1; 0; -1]] (init default_settings 1 6 2) in
  wf b ∧
  ∃ b', _calculate_adjacent_mines b = Done b' ∧
        grid b' = [[0; 0; 1; -1; 2; -1]] ∧
        get2 (grid b') 0 4 = Done (adjacent_mines b' 0 4).
Proof.
  intros b. assert (wf b) as Hwf by (by apply (bool_decide_unpack _)).
  split; [done|].
  destruct (calculate_adjacent_mines_correct b Hwf) as (b' & Hrun & _ & _ & _ & Hcells).
  exists b'. split; [done|].
  assert (b' = with_grid [[0; 0; 1; -1; 2; -1]] b) as Hb'.
  { vm_compute in Hrun. by inversion Hrun. }
  split; [by rewrite Hb'|].
  apply Hcells; by rewrite Hb'.
Defined.

(** ** _reveal_all_mines, cell by cell *)

Lemma reveal_all_mines_flat b :
  _reveal_all_mines b
  = for_each (pairs (range (rows b)) (range (cols b))) (λ p b,
      v ← get2 (grid b) p.1 p.2;
      if v =? MINE_VALUE then
        st ← get2 (cell_states b) p.1 p.2;
        if negb (bool_decide (st = FLAGGED)) then
          cs ← set2 (cell_states b) p.1 p.2 REVEALED;
          Done (with_cell_states cs b)
        else Done b
      else
        st ← get2 (cell_states b) p.1 p.2;
        Done b) b.
Proof.
  unfold _reveal_all_mines.
  apply (for_each_nested_dep (λ t, cols t = cols b) _ _ (λ t, range (cols t))
           (λ r c b, v ← get2 (grid b) r c;
                     if v =? MINE_VALUE then
                       st ← get2 (cell_states b) r c;
                       if negb (bool_decide (st = FLAGGED)) then
                         cs ← set2 (cell_states b) r c REVEALED;
                         Done (with_cell_states cs b)
                       else Done b
                     else
                       st ← get2 (cell_states b) r c;
                       Done b)); [done|by intros t ->|].
  intros r c t t' Ht H. inv_bind H. destruct (a =? MINE_VALUE).
  - inv_bind H. destruct (negb _); [|by inversion H; subst].
    inv_bind H. by inversion H; subst.
  - inv_bind H. by inversion H; subst.
Qed.

Lemma reveal_all_mines_spec b :
  wf b →
  ∃ b', _reveal_all_mines b = Done b' ∧
        b' = with_cell_states (cell_states b') b ∧ wf b' ∧
        ∀ r c st, in_bounds b r c = true → get2 (cell_states b) r c = Done st →
          get2 (cell_states b') r c
          = Done (if mine_at (grid b) r c && negb (bool_decide (st = FLAGGED))
                  then REVEALED else st).
Proof.
  intros [Hg Hcs]. rewrite reveal_all_mines_flat.
  set (J := λ (_ : list (Z * Z)) (t : Board), t = with_cell_states (cell_states t) b).
  set (F := λ (p : Z * Z) (st : CellState),
         if mine_at (grid b) p.1 p.2 && negb (bool_decide (st = FLAGGED))
         then REVEALED else st).
  destruct (grid_loop cell_states (rows b) (cols b) F J
              (λ p b, v ← get2 (grid b) p.1 p.2;
                      if v =? MINE_VALUE then
                        st ← get2 (cell_states b) p.1 p.2;
                        if negb (bool_decide (st = FLAGGED)) then
                          cs ← set2 (cell_states b) p.1 p.2 REVEALED;
                          Done (with_cell_states cs b)
                        else Done b
                      else
                        st ← get2 (cell_states b) p.1 p.2;
                        Done b) b) as (b' & Hrun & Hd' & Heq & Hcells).
  - done.
  - by destruct b.
  - intros pre r c t Hr Hc _ Hdt Heq _. cbn [fst snd].
    assert (grid t = grid b) as Hgt by (by rewrite Heq).
    destruct (get2_in_dims _ _ _ r c Hg Hr Hc) as [v Hv].
    destruct (get2_in_dims _ _ _ r c Hdt Hr Hc) as [st Hst].
    rewrite Hgt, Hv. obind. unfold F. cbn [fst snd]. rewrite (mine_at_get2 _ _ _ _ Hv).
    destruct (v =? MINE_VALUE); rewrite Hst; obind; cbn [andb].
    + destruct (bool_decide (st = FLAGGED)) eqn:Hfl; cbn [negb].
      * exists t, st. split_and!; try done. by rewrite Hfl.
      * destruct (set2_in_dims _ _ _ r c REVEALED Hdt Hr Hc) as (cs' & Hset & Hdcs').
        rewrite Hset. obind. exists (with_cell_states cs' t), st.
        cbn [cell_states with_cell_states]. split_and!; try done.
        -- unfold J. cbn [cell_states with_cell_states]. rewrite Heq at 1. by destruct b.
        -- rewrite Hfl. by eapply get2_set2_same.
        -- intros r' c' ?? Hne.
           rewrite (get2_set2_nonneg (cell_states t) r c REVEALED cs' r' c');
             [|lia|lia|done|done|done].
           by rewrite decide_False.
    + exists t, st. by split_and!.
  - exists b'. split; [done|].
    assert (rows b' = rows b ∧ cols b' = cols b ∧ grid b' = grid b)
      as (Hr' & Hc' & Hg') by (by rewrite Heq).
    split_and!; [done| |].
    + split; by rewrite Hr', Hc', ?Hg'.
    + intros r c st [Hr Hc]%in_bounds_spec Hst. by apply (Hcells r c st).
Qed.

(** ** reveal on a mine *)

(** C8: on a well-formed board whose game is not over, reveal on an in-range
    mine cell that is not already REVEALED returns a board where that cell
    is REVEALED and game_over is true; every other mine cell that was not
    FLAGGED is REVEALED; every other cell that was FLAGGED, and every other
    non-mine cell, has the state it had.  Nothing but cell_states and
    game_over is written. *)
Theorem reveal_mine b r c :
  wf b → in_bounds b r c = true → game_over b = false →
  mine_at (grid b) r c = true →
  get2 (cell_states b) r c ≠ Done REVEALED →
  ∃ b', reveal b r c = Done b' ∧
        game_over b' = true ∧ reveal_frame b b' ∧ wf b' ∧
        get2 (cell_states b') r c = Done REVEALED ∧
        ∀ r' c' st, in_bounds b r' c' = true → ¬ (r' = r ∧ c' = c) →
          get2 (cell_states b) r' c' = Done st →
          (mine_at (grid b) r' c' = true → st ≠ FLAGGED →
             get2 (cell_states b') r' c' = Done REVEALED) ∧
          (st = FLAGGED → get2 (cell_states b') r' c' = Done FLAGGED) ∧
          (mine_at (grid b) r' c' = false → get2 (cell_states b') r' c' = Done st).
Proof.
  intros Hwf Hin Hover Hmine Hnr. pose proof Hwf as [Hg Hcs].
  pose proof Hin as [Hr Hc]%in_bounds_spec.
  destruct (get2_in_dims _ _ _ r c Hcs Hr Hc) as [old Hold].
  destruct (get2_in_dims _ _ _ r c Hg Hr Hc) as [v Hv].
  destruct (set2_in_dims _ _ _ r c REVEALED Hcs Hr Hc) as (cs1 & Hset & Hd1).
  rewrite (mine_at_get2 _ _ _ _ Hv) in Hmine.
  set (b1 := with_game_over true (with_cell_states cs1 b)).
  assert (wf b1) as Hwf1 by (by split).
  destruct (reveal_all_mines_spec b1 Hwf1) as (b' & Hrun & Heq & Hwf' & Hcells).
  assert (reveal b r c = Done b') as Hrev.
  { unfold reveal. rewrite reveal_rec_S, Hover, Hold. obind.
    rewrite bool_decide_eq_false_2 by (intros ->; by rewrite Hold in Hnr).
    rewrite Hset. obind. cbn [grid with_cell_states]. rewrite Hv. obind.
    by rewrite Hmine. }
  exists b'. split; [done|]. split_and!.
  - by rewrite Heq.
  - rewrite Heq. by repeat split.
  - done.
  - rewrite (Hcells r c REVEALED Hin (get2_set2_same _ _ _ _ _ Hset)).
    cbn [grid b1 with_game_over with_cell_states]. by destruct (mine_at _ _ _).
  - intros r' c' st Hin' Hne Hst. pose proof Hin' as [Hr' Hc']%in_bounds_spec.
    assert (get2 cs1 r' c' = Done st) as Hst1.
    { rewrite (get2_set2_nonneg (cell_states b) r c REVEALED cs1 r' c'); [|lia|lia|lia|lia|done].
      by rewrite decide_False. }
    pose proof (Hcells r' c' st Hin' Hst1) as Hnew.
    cbn [grid b1 with_game_over with_cell_states] in Hnew. split_and!.
    + intros Hm Hnf. rewrite Hnew, Hm. by rewrite bool_decide_eq_false_2.
    + intros ->. rewrite Hnew. rewrite bool_decide_eq_true_2 by done.
      by rewrite andb_false_r.
    + intros Hm. by rewrite Hnew, Hm.
Qed.

Lemma reveal_mine_witness :
  wf opened_board ∧ in_bounds opened_board 0 3 = true ∧
  ∃ b', reveal opened_board 0 3 = Done b' ∧ game_over b' = true ∧
        get2 (cell_states b') 0 3 = Done REVEALED.
Proof.
  assert (wf opened_board) as Hwf by (by apply (bool_decide_unpack _)).
  split_and!; [done|done|].
  destruct (reveal_mine opened_board 0 3) as (b' & Hrun & Hover & _ & _ & Hst & _);
    [done|done|done|done|by vm_compute|].
  exists b'. by split_and!.
Defined.

(** ** Counting positions *)

Lemma length_pairs l1 l2 : length (pairs l1 l2) = (length l1 * length l2)%nat.
Proof.
  induction l1 as [|r l1 IH]; [done|].
  change (pairs (r :: l1) l2) with ((pair r <$> l2) ++ pairs l1 l2).
  rewrite length_app, length_fmap, IH. simpl. lia.
Qed.

Lemma length_positions b :
  0 ≤ rows b → 0 ≤ cols b → Z.of_nat (length (positions b)) = rows b * cols b.
Proof.
  intros. unfold positions, range. rewrite length_pairs, !length_seqZ. lia.
Qed.

Lemma elem_of_positions b r c : (r, c) ∈ positions b ↔ in_bounds b r c = true.
Proof.
  unfold positions. by rewrite elem_of_pairs, !elem_of_range, in_bounds_spec.
Qed.

Lemma length_filter_split {A} (P : A → bool) (l : list A) :
  (length (filter (λ x, P x = true) l) + length (filter (λ x, P x = false) l))%nat
  = length l.
Proof.
  induction l as [|x l IH]; [done|]. rewrite !filter_cons.
  destruct (P x); simpl; lia.
Qed.

Lemma length_filter_all {A} (P : A → Prop) `{!∀ x, Decision (P x)} (l : list A) :
  length (filter P l) = length l ↔ ∀ x, x ∈ l → P x.
Proof.
  induction l as [|x l IH].
  - split; [|done]. intros _ y Hy. by apply elem_of_nil in Hy.
  - rewrite filter_cons. pose proof (length_filter P l) as Hle.
    destruct (decide (P x)) as [Hx|Hx]; simpl.
    + split.
      * intros Hlen y [->|Hy]%elem_of_cons; [done|]. apply IH; [lia|done].
      * intros Hall. f_equal. apply IH. intros y Hy. apply Hall. by right.
    + split; [lia|]. intros Hall. destruct Hx. apply Hall. by left.
Qed.

(** ** The counting loop of _check_win *)

Lemma state_at_get2 b st r c s :
  get2 (cell_states b) r c = Done s → state_at b st r c = bool_decide (s = st).
Proof. intros H. unfold state_at. by rewrite H. Qed.

Lemma revealed_count_loop b (l : list (Z * Z)) (n : Z) :
  wf b → (∀ p, p ∈ l → in_bounds b p.1 p.2 = true) →
  for_each l (λ p revealed_count,
    st ← get2 (cell_states b) p.1 p.2;
    if bool_decide (st = REVEALED) then
      v ← get2 (grid b) p.1 p.2;
      if negb (v =? MINE_VALUE) then Done (revealed_count + 1)
      else Done revealed_count
    else Done revealed_count) n
  = Done (n + Z.of_nat (length (filter
       (λ p, state_at b REVEALED p.1 p.2 && negb (mine_at (grid b) p.1 p.2) = true) l))).
Proof.
  intros [Hg Hcs]. revert n. induction l as [|[r c] l IH]; intros n Hl; cbn [for_each fst snd].
  { simpl. f_equal. lia. }
  assert (in_bounds b r c = true) as [Hr Hc]%in_bounds_spec by (apply (Hl (r, c)); by left).
  destruct (get2_in_dims _ _ _ r c Hcs Hr Hc) as [st Hst].
  destruct (get2_in_dims _ _ _ r c Hg Hr Hc) as [v Hv].
  assert (∀ p, p ∈ l → in_bounds b p.1 p.2 = true) as Hl' by (intros; apply Hl; by right).
  rewrite Hst. obind. rewrite filter_cons. cbn [fst snd].
  rewrite (state_at_get2 _ _ _ _ _ Hst), (mine_at_get2 _ _ _ _ Hv).
  destruct (bool_decide (st = REVEALED)); cbn [andb].
  - rewrite Hv. obind. destruct (v =? MINE_VALUE); cbn [negb]; obind.
    + rewrite decide_False by done. by apply IH.
    + rewrite decide_True by done. rewrite IH by done. f_equal. simpl length. lia.
  - rewrite decide_False by done. by apply IH.
Qed.

Lemma revealed_count_spec b :
  wf b →
  revealed_count b
  = Done (count_positions b
            (λ p, state_at b REVEALED p.1 p.2 && negb (mine_at (grid b) p.1 p.2))).
Proof.
  intros Hwf. unfold revealed_count.
  rewrite (for_each_nested (range (rows b)) (range (cols b))
             (λ r c revealed_count,
                st ← get2 (cell_states b) r c;
                if bool_decide (st = REVEALED) then
                  v ← get2 (grid b) r c;
                  if negb (v =? MINE_VALUE) then Done (revealed_count + 1)
                  else Done revealed_count
                else Done revealed_count)).
  rewrite (revealed_count_loop b _ 0 Hwf); [done|].
  intros [r c] Hin. by apply elem_of_positions.
Qed.

(** All non-mine cells are revealed exactly when the count of revealed
    non-mine cells is the number of cells minus the number of mine cells. *)
Lemma all_revealed_iff_count b :
  wf b →
  count_positions b (λ p, state_at b REVEALED p.1 p.2 && negb (mine_at (grid b) p.1 p.2))
  = rows b * cols b - count_positions b (λ p, mine_at (grid b) p.1 p.2)
  ↔ ∀ r c, in_bounds b r c = true → mine_at (grid b) r c = false →
           get2 (cell_states b) r c = Done REVEALED.
Proof.
  intros Hwf. pose proof Hwf as [(HR & HC & _) Hcs].
  pose proof (length_positions b HR HC) as Hlen.
  pose proof (length_filter_split (λ p, mine_at (grid b) p.1 p.2) (positions b)) as Hsplit.
  unfold count_positions.
  set (safe := filter (λ p, mine_at (grid b) p.1 p.2 = false) (positions b)) in *.
  assert (filter (λ p, state_at b REVEALED p.1 p.2 && negb (mine_at (grid b) p.1 p.2) = true)
            (positions b)
          = filter (λ p, state_at b REVEALED p.1 p.2 = true) safe) as ->.
  { unfold safe. rewrite list_filter_filter. apply list_filter_iff. intros [r c]. cbn [fst snd].
    by rewrite andb_true_iff, negb_true_iff. }
  transitivity (length (filter (λ p, state_at b REVEALED p.1 p.2 = true) safe) = length safe);
    [lia|].
  rewrite length_filter_all. split.
  - intros Hall r c Hin Hm. pose proof Hin as [Hr Hc]%in_bounds_spec.
    destruct (get2_in_dims _ _ _ r c Hcs Hr Hc) as [st Hst].
    specialize (Hall (r, c)). cbn [fst snd] in Hall.
    rewrite (state_at_get2 _ _ _ _ _ Hst) in Hall.
    rewrite Hst. f_equal. apply bool_decide_eq_true in Hall; [done|].
    unfold safe. apply list_elem_of_filter. split; [done|]. by apply elem_of_positions.
  - intros Hall [r c] [Hm Hin%elem_of_positions]%list_elem_of_filter. cbn [fst snd] in *.
    rewrite (state_at_get2 _ _ _ _ _ (Hall r c Hin Hm)). by apply bool_decide_eq_true.
Qed.

(** ** The auto-flagging loop of _check_win *)

Lemma with_states_flags_ext t b cs fp :
  t = with_flags_placed (flags_placed t) (with_cell_states (cell_states t) b) →
  with_flags_placed fp (with_cell_states cs t)
  = with_flags_placed fp (with_cell_states cs b).
Proof. intros H. by rewrite H. Qed.

Lemma flag_remaining_mines_flat b :
  flag_remaining_mines b
  = for_each (positions b) (λ p b,
      v ← get2 (grid b) p.1 p.2;
      if v =? MINE_VALUE then
        st ← get2 (cell_states b) p.1 p.2;
        if bool_decide (st = HIDDEN) then
          cs ← set2 (cell_states b) p.1 p.2 FLAGGED;
          Done (with_flags_placed (flags_placed b + 1) (with_cell_states cs b))
        else Done b
      else Done b) b.
Proof.
  unfold flag_remaining_mines, positions.
  apply (for_each_nested_dep (λ t, cols t = cols b) _ _ (λ t, range (cols t))
           (λ r c b, v ← get2 (grid b) r c;
                     if v =? MINE_VALUE then
                       st ← get2 (cell_states b) r c;
                       if bool_decide (st = HIDDEN) then
                         cs ← set2 (cell_states b) r c FLAGGED;
                         Done (with_flags_placed (flags_placed b + 1) (with_cell_states cs b))
                       else Done b
                     else Done b)); [done|by intros t ->|].
  intros r c t t' Ht H. inv_bind H. destruct (a =? MINE_VALUE); [|by inversion H; subst].
  inv_bind H. destruct (bool_decide _); [|by inversion H; subst].
  inv_bind H. by inversion H; subst.
Qed.

Lemma flag_remaining_mines_spec b :
  wf b →
  ∃ b', flag_remaining_mines b = Done b' ∧
        b' = with_flags_placed (flags_placed b') (with_cell_states (cell_states b') b) ∧
        wf b' ∧
        flags_placed b'
        = flags_placed b
          + count_positions b (λ p, mine_at (grid b) p.1 p.2 && state_at b HIDDEN p.1 p.2) ∧
        ∀ r c st, in_bounds b r c = true → get2 (cell_states b) r c = Done st →
          get2 (cell_states b') r c
          = Done (if mine_at (grid b) r c && bool_decide (st = HIDDEN) then FLAGGED else st).
Proof.
  intros [Hg Hcs]. rewrite flag_remaining_mines_flat.
  set (J := λ (pre : list (Z * Z)) (t : Board),
         t = with_flags_placed (flags_placed t) (with_cell_states (cell_states t) b) ∧
         flags_placed t
         = flags_placed b
           + Z.of_nat (length (filter
               (λ p, mine_at (grid b) p.1 p.2 && state_at b HIDDEN p.1 p.2 = true) pre))).
  set (F := λ (p : Z * Z) (st : CellState),
         if mine_at (grid b) p.1 p.2 && bool_decide (st = HIDDEN) then FLAGGED else st).
  destruct (grid_loop cell_states (rows b) (cols b) F J
              (λ p b, v ← get2 (grid b) p.1 p.2;
                      if v =? MINE_VALUE then
                        st ← get2 (cell_states b) p.1 p.2;
                        if bool_decide (st = HIDDEN) then
                          cs ← set2 (cell_states b) p.1 p.2 FLAGGED;
                          Done (with_flags_placed (flags_placed b + 1) (with_cell_states cs b))
                        else Done b
                      else Done b) b) as (b' & Hrun & Hd' & [Heq Hfl] & Hcells).
  - done.
  - split; [by destruct b|simpl; lia].
  - intros pre r c t Hr Hc _ Hdt [Heq Hfl] Hsame. cbn [fst snd].
    assert (grid t = grid b) as Hgt by (by rewrite Heq).
    destruct (get2_in_dims _ _ _ r c Hg Hr Hc) as [v Hv].
    destruct (get2_in_dims _ _ _ r c Hdt Hr Hc) as [st Hst].
    assert (state_at b HIDDEN r c = bool_decide (st = HIDDEN)) as Hsa.
    { apply state_at_get2. by rewrite <- Hsame. }
    rewrite Hgt, Hv. obind.
    assert (∀ t' : Board, flags_placed t' = flags_placed t
              + (if mine_at (grid b) r c && bool_decide (st = HIDDEN) then 1 else 0) →
            t' = with_flags_placed (flags_placed t') (with_cell_states (cell_states t') b) →
            J (pre ++ [(r, c)]) t') as HJ.
    { intros t' Hfp Ht'. split; [done|]. rewrite Hfp, Hfl, filter_app, length_app.
      rewrite filter_cons, filter_nil. cbn [fst snd]. rewrite Hsa.
      destruct (mine_at (grid b) r c && bool_decide (st = HIDDEN)).
      - rewrite decide_True by done. simpl length. lia.
      - rewrite decide_False by done. simpl length. lia. }
    unfold F. cbn [fst snd]. rewrite (mine_at_get2 _ _ _ _ Hv) in *.
    destruct (v =? MINE_VALUE); cbn [andb] in *.
    + rewrite Hst. obind. destruct (bool_decide (st = HIDDEN)) eqn:Hh.
      * destruct (set2_in_dims _ _ _ r c FLAGGED Hdt Hr Hc) as (cs' & Hset & Hdcs').
        rewrite Hset. obind.
        exists (with_flags_placed (flags_placed t + 1) (with_cell_states cs' t)), st.
        cbn [cell_states with_cell_states with_flags_placed]. split_and!; try done.
        -- apply HJ; [done|]. cbn [cell_states flags_placed with_cell_states with_flags_placed].
           by apply with_states_flags_ext.
        -- rewrite Hh. by eapply get2_set2_same.
        -- intros r' c' ?? Hne.
           rewrite (get2_set2_nonneg (cell_states t) r c FLAGGED cs' r' c');
             [|lia|lia|done|done|done].
           by rewrite decide_False.
      * exists t, st. split_and!; try done; [apply HJ; [lia|done]|by rewrite Hh].
    + exists t, st. split_and!; try done. apply HJ; [lia|done].
  - exists b'. split; [done|].
    assert (rows b' = rows b ∧ cols b' = cols b ∧ grid b' = grid b)
      as (Hr' & Hc' & Hg') by (by rewrite Heq).
    split_and!; [done| |done|].
    + split; by rewrite Hr', Hc', ?Hg'.
    + intros r c st [Hr Hc]%in_bounds_spec Hst. by apply (Hcells r c st).
Qed.

(** ** _check_win *)




(** ** The safe zone *)

Lemma safe_zone_loop (b : Board) (r c : Z) (l : list (Z * Z)) (sz : gset (Z * Z)) :
  ∃ sz' : gset (Z * Z), for_each l (λ d (safe_zone : gset (Z * Z)),
           let nr := r + d.1 in
           let nc := c + d.2 in
           if in_bounds b nr nc then Done ({[ (nr, nc) ]} ∪ safe_zone)
           else Done safe_zone) sz = Done sz' ∧
         ∀ p, p ∈ sz' ↔ p ∈ sz ∨ (∃ d, d ∈ l ∧ p = (r + d.1, c + d.2) ∧ in_bounds b p.1 p.2 = true).
Proof.
  revert sz. induction l as [|d l IH]; intros sz; cbn [for_each].
  - exists sz. split; [done|]. intros p. split; [by left|].
    intros [?|(d & Hd & _)]; [done|]. by apply elem_of_nil in Hd.
  - cbv zeta. destruct (in_bounds b (r + d.1) (c + d.2)) eqn:Hin; obind.
    + destruct (IH ({[ (r + d.1, c + d.2) ]} ∪ sz)) as (sz' & -> & Hsz').
      exists sz'. split; [done|]. intros p. rewrite Hsz', elem_of_union, elem_of_singleton.
      split.
      * intros [[->|?]|(d' & Hd' & Hp & Hb)]; [right|by left|right].
        -- exists d. split_and!; [by left|done|done].
        -- exists d'. split_and!; [by right|done|done].
      * intros [?|(d' & [->|Hd']%elem_of_cons & Hp & Hb)]; [by left; right|by left; left|].
        right. by exists d'.
    + destruct (IH sz) as (sz' & -> & Hsz'). exists sz'. split; [done|].
      intros p. rewrite Hsz'. split.
      * intros [?|(d' & Hd' & Hp & Hb)]; [by left|right]. exists d'. split_and!; [by right|done|done].
      * intros [?|(d' & [->|Hd']%elem_of_cons & Hp & Hb)]; [by left| |].
        -- subst p. cbn [fst snd] in Hb. congruence.
        -- right. by exists d'.
Qed.

(** The safe zone is the 3x3 neighbourhood of the click, clipped to the
    grid. *)
Lemma safe_zone_spec b r c :
  ∃ sz, safe_zone_of b r c = Done sz ∧
        ∀ r' c', (r', c') ∈ sz ↔
          (r - 1 ≤ r' ≤ r + 1) ∧ (c - 1 ≤ c' ≤ c + 1) ∧ in_bounds b r' c' = true.
Proof.
  unfold safe_zone_of.
  rewrite (for_each_nested (range2 (-1) 2) (range2 (-1) 2)
             (λ r_offset c_offset safe_zone,
                let nr := r + r_offset in
                let nc := c + c_offset in
                if in_bounds b nr nc then Done ({[ (nr, nc) ]} ∪ safe_zone)
                else Done safe_zone)).
  destruct (safe_zone_loop b r c (pairs (range2 (-1) 2) (range2 (-1) 2)) ∅) as (sz & Hrun & Hsz).
  exists sz. split; [exact Hrun|]. intros r' c'. rewrite Hsz. split.
  - intros [Hemp|([i j] & Hd & [= -> ->] & Hb)]; [by apply not_elem_of_empty in Hemp|].
    apply elem_of_pairs in Hd as [Hi Hj]. unfold range2 in Hi, Hj.
    apply elem_of_seqZ in Hi, Hj. cbn [fst snd] in *. split_and!; (done || lia).
  - intros (Hr & Hc & Hb). right. exists (r' - r, c' - c). cbn [fst snd]. split_and!.
    + apply elem_of_pairs. unfold range2. rewrite !elem_of_seqZ. lia.
    + f_equal; lia.
    + done.
Qed.

(** ** Sets of positions *)

Lemma size_positions b :
  0 ≤ rows b → 0 ≤ cols b →
  Z.of_nat (size (list_to_set (positions b) : gset (Z * Z))) = rows b * cols b.
Proof.
  intros HR HC. rewrite size_list_to_set.
  - by apply length_positions.
  - apply NoDup_pairs; apply NoDup_seqZ.
Qed.

Lemma size_subset_positions (b : Board) (X : gset (Z * Z)) :
  0 ≤ rows b → 0 ≤ cols b →
  (∀ p, p ∈ X → in_bounds b p.1 p.2 = true) →
  Z.of_nat (size X) ≤ rows b * cols b.
Proof.
  intros HR HC HX. rewrite <- (size_positions b HR HC).
  apply inj_le, subseteq_size. intros [r c] Hp. apply elem_of_list_to_set.
  apply elem_of_positions. by apply (HX (r, c)).
Qed.

(** When fewer cells are taken than the grid has, one is free. *)
Lemma free_position (b : Board) (X : gset (Z * Z)) :
  0 ≤ rows b → 0 ≤ cols b →
  (∀ p, p ∈ X → in_bounds b p.1 p.2 = true) →
  Z.of_nat (size X) < rows b * cols b →
  ∃ r c, in_bounds b r c = true ∧ (r, c) ∉ X.
Proof.
  intros HR HC HX Hlt.
  set (all := list_to_set (positions b) : gset (Z * Z)).
  assert (X ⊆ all) as Hsub.
  { intros [r c] Hp. apply elem_of_list_to_set, elem_of_positions. by apply (HX (r, c)). }
  assert (0 < size (all ∖ X))%nat as Hne.
  { pose proof (size_positions b HR HC) as Hall. fold all in Hall.
    pose proof (size_difference all X Hsub). lia. }
  apply size_pos_elem_of in Hne as [[r c] Hp].
  apply elem_of_difference in Hp as [Hp Hn].
  exists r, c. split; [|done]. apply elem_of_positions.
  unfold all in Hp. by apply elem_of_list_to_set in Hp.
Qed.

(** ** The sampling loop *)

Lemma randint_spec a b raw v : randint a b raw = Done v → a ≤ v ≤ b.
Proof.
  unfold randint. destruct (b <? a) eqn:E; [done|]. intros [= <-].
  apply Z.ltb_ge in E. pose proof (Z.mod_pos_bound raw (b - a + 1)). lia.
Qed.

Lemma randint_onto a b v : a ≤ v ≤ b → randint a b (v - a) = Done v.
Proof.
  intros H. unfold randint. rewrite (proj2 (Z.ltb_ge b a)) by lia.
  rewrite Z.mod_small by lia. f_equal. lia.
Qed.

Lemma randint_not_raised a b raw : a ≤ b → ∃ v, randint a b raw = Done v.
Proof. intros H. unfold randint. rewrite (proj2 (Z.ltb_ge b a)) by lia. eauto. Qed.

Lemma placed_ok_start b sz :
  has_dims (grid b) (rows b) (cols b) → placed_ok (with_mines_location ∅ b) sz (with_mines_location ∅ b) 0.
Proof.
  intros Hd. split_and!.
  - apply placement_frame_refl.
  - done.
  - done.
  - done.
  - intros p Hp. by apply not_elem_of_empty in Hp.
  - intros r c _. rewrite decide_False; [done|]. apply not_elem_of_empty.
Qed.

Lemma place_step b0 sz t placed row col :
  placed_ok b0 sz t placed → in_bounds b0 row col = true →
  (row, col) ∉ mines_location t → (row, col) ∉ sz →
  ∃ g, set2 (grid t) row col MINE_VALUE = Done g ∧
       placed_ok b0 sz
         (with_grid g (with_mines_location ({[ (row, col) ]} ∪ mines_location t) t))
         (placed + 1).
Proof.
  intros (Hfr & Hd & Hsize & Hm & Hml & Hgrid) Hin Hfresh Hsafe.
  pose proof Hin as [Hr Hc]%in_bounds_spec.
  destruct (set2_in_dims _ _ _ row col MINE_VALUE Hd Hr Hc) as (g & Hset & Hdg).
  exists g. split; [done|]. split_and!.
  - eapply placement_frame_trans; [exact Hfr|]. by repeat split.
  - done.
  - cbn [mines_location with_grid with_mines_location].
    rewrite size_union by (by apply disjoint_singleton_l). rewrite size_singleton. lia.
  - done.
  - cbn [mines_location with_grid with_mines_location].
    intros p [->%elem_of_singleton|Hp]%elem_of_union; [done|by apply Hml].
  - cbn [mines_location grid with_grid with_mines_location].
    intros r c Hrc. pose proof Hrc as [Hr' Hc']%in_bounds_spec.
    rewrite (get2_set2_nonneg (grid t) row col MINE_VALUE g r c); [|lia|lia|lia|lia|done].
    destruct (decide (r = row ∧ c = col)) as [[-> ->]|Hne].
    + rewrite decide_True; [done|]. apply elem_of_union. left. by apply elem_of_singleton.
    + rewrite Hgrid by done.
      destruct (decide ((r, c) ∈ mines_location t)) as [Hp|Hp].
      * rewrite decide_True; [done|]. apply elem_of_union. by right.
      * rewrite decide_False; [done|].
        intros [[= -> ->]%elem_of_singleton|?]%elem_of_union; [by destruct Hne|done].
Qed.

(** Whatever the draws, a loop that finishes has placed the mines. *)
Lemma place_loop_inv draws sz mines_to_place b0 t placed b' :
  placed_ok b0 sz t placed →
  place_loop draws sz mines_to_place t placed = Done b' →
  placed_ok b0 sz b' (Z.max placed mines_to_place).
Proof.
  revert t placed.
  induction draws as [|a|raw_row raw_col draws IH] using list_pair_ind;
    intros t placed Hok H; rewrite place_loop_eq in H;
    destruct (placed <? mines_to_place) eqn:Hlt;
    try (by apply Z.ltb_ge in Hlt; inversion H; subst; rewrite Z.max_l by lia); try done.
  apply Z.ltb_lt in Hlt.
  pose proof Hok as ((Hrows & Hcols & _) & _).
  inv_bind H. rename a into row, E into Hrow. inv_bind H. rename a into col, E into Hcol.
  apply randint_spec in Hrow, Hcol.
  destruct (bool_decide ((row, col) ∉ mines_location t)) eqn:Hfresh; cbn [andb] in H;
    [|replace (Z.max placed mines_to_place) with mines_to_place by lia;
      apply IH in H; [|done]; by rewrite Z.max_r in H by lia].
  destruct (bool_decide ((row, col) ∉ sz)) eqn:Hsafe;
    [|replace (Z.max placed mines_to_place) with mines_to_place by lia;
      apply IH in H; [|done]; by rewrite Z.max_r in H by lia].
  apply bool_decide_eq_true in Hfresh, Hsafe.
  destruct (place_step b0 sz t placed row col Hok) as (g & Hset & Hok'); [|done|done|].
  { apply in_bounds_spec. lia. }
  rewrite Hset in H. obind. apply IH in H; [|done].
  by replace (Z.max placed mines_to_place) with (Z.max (placed + 1) mines_to_place) by lia.
Qed.

(** The loop raises nothing when the free cells suffice. *)
Lemma place_loop_not_raised draws sz mines_to_place b0 t placed e :
  0 ≤ rows b0 → 0 ≤ cols b0 →
  mines_to_place ≤ rows b0 * cols b0 →
  placed_ok b0 sz t placed →
  place_loop draws sz mines_to_place t placed ≠ Raised e.
Proof.
  intros HR HC HM. revert t placed.
  induction draws as [|a|raw_row raw_col draws IH] using list_pair_ind;
    intros t placed Hok; rewrite place_loop_eq;
    destruct (placed <? mines_to_place) eqn:Hlt; try done.
  apply Z.ltb_lt in Hlt.
  pose proof Hok as ((Hrows & Hcols & _) & _ & Hsize & _).
  assert (1 ≤ rows b0 ∧ 1 ≤ cols b0) as [HR1 HC1] by nia.
  destruct (randint_not_raised 0 (rows t - 1) raw_row) as [row Hrow]; [lia|].
  destruct (randint_not_raised 0 (cols t - 1) raw_col) as [col Hcol]; [lia|].
  rewrite Hrow. obind. rewrite Hcol. obind.
  apply randint_spec in Hrow, Hcol.
  destruct (bool_decide ((row, col) ∉ mines_location t)) eqn:Hfresh; cbn [andb]; [|by apply IH].
  destruct (bool_decide ((row, col) ∉ sz)) eqn:Hsafe; [|by apply IH].
  apply bool_decide_eq_true in Hfresh, Hsafe.
  destruct (place_step b0 sz t placed row col Hok) as (g & Hset & Hok'); [|done|done|].
  { apply in_bounds_spec. lia. }
  rewrite Hset. obind. by apply IH.
Qed.

(** Some sequence of draws makes the loop finish. *)
Lemma place_loop_can_finish sz mines_to_place b0 t placed :
  0 ≤ rows b0 → 0 ≤ cols b0 →
  (∀ p, p ∈ sz → in_bounds b0 p.1 p.2 = true) →
  mines_to_place ≤ rows b0 * cols b0 - Z.of_nat (size sz) →
  placed_ok b0 sz t placed →
  ∃ draws b', place_loop draws sz mines_to_place t placed = Done b'.
Proof.
  intros HR HC Hsz HM.
  remember (Z.to_nat (mines_to_place - placed)) as k eqn:Hk.
  revert t placed Hk. induction k as [|k IH]; intros t placed Hk Hok.
  - exists [], t. rewrite place_loop_eq. by rewrite (proj2 (Z.ltb_ge _ _)) by lia.
  - pose proof Hok as ((Hrows & Hcols & _) & _ & Hsize & _ & Hml & _).
    destruct (free_position b0 (mines_location t ∪ sz) HR HC) as (r & c & Hin & Hfree).
    { intros p [Hp|Hp]%elem_of_union; [by apply Hml|by apply Hsz]. }
    { pose proof (size_union_alt (mines_location t) sz) as Hu.
      assert (sz ∖ mines_location t ⊆ sz) as Hsub
        by (by intros x [? _]%elem_of_difference).
      pose proof (subseteq_size _ _ Hsub). lia. }
    apply not_elem_of_union in Hfree as [Hfresh Hsafe].
    pose proof Hin as [Hr Hc]%in_bounds_spec.
    destruct (place_step b0 sz t placed r c Hok Hin Hfresh Hsafe) as (g & Hset & Hok').
    destruct (IH _ (placed + 1) ltac:(lia) Hok') as (draws & b' & Hrun).
    exists (r :: c :: draws), b'. rewrite place_loop_eq.
    rewrite (proj2 (Z.ltb_lt _ _)) by lia.
    pose proof (randint_onto 0 (rows t - 1) r ltac:(lia)) as Hrow.
    pose proof (randint_onto 0 (cols t - 1) c ltac:(lia)) as Hcol.
    rewrite Z.sub_0_r in Hrow, Hcol. rewrite Hrow. obind. rewrite Hcol. obind.
    rewrite !bool_decide_eq_true_2 by done. cbn [andb]. rewrite Hset. obind. exact Hrun.
Qed.

(** Draws after the last one the loop reads are not looked at. *)
Lemma place_loop_app draws more sz mines_to_place t placed :
  place_loop draws sz mines_to_place t placed ≠ Starved →
  place_loop (draws ++ more) sz mines_to_place t placed
  = place_loop draws sz mines_to_place t placed.
Proof.
  revert t placed.
  induction draws as [|a|raw_row raw_col draws IH] using list_pair_ind; intros t placed H.
  - rewrite (place_loop_eq []) in H |- *. rewrite (place_loop_eq ([] ++ more)).
    by destruct (placed <? mines_to_place).
  - rewrite (place_loop_eq [a]) in H |- *. rewrite (place_loop_eq ([a] ++ more)).
    by destruct (placed <? mines_to_place).
  - rewrite (place_loop_eq (raw_row :: raw_col :: draws)) in H |- *.
    rewrite (place_loop_eq ((raw_row :: raw_col :: draws) ++ more)). cbn [app].
    destruct (placed <? mines_to_place); [|done].
    destruct (randint 0 (rows t - 1) raw_row) as [row| |]; obind; [|done|done].
    destruct (randint 0 (cols t - 1) raw_col) as [col| |]; obind; [|done|done].
    destruct (bool_decide _ && bool_decide _); [|by apply IH].
    destruct (set2 (grid t) row col MINE_VALUE) as [g| |]; obind; [|done|done]. by apply IH.
Qed.

(** A sample that is turned down, for a mine already there or for the safe
    zone, leaves the loop where it was: the next pair of draws is read. *)
Lemma place_loop_rejected raw_row raw_col draws sz mines_to_place t placed row col :
  randint 0 (rows t - 1) raw_row = Done row → randint 0 (cols t - 1) raw_col = Done col →
  (row, col) ∈ mines_location t ∨ (row, col) ∈ sz →
  place_loop (raw_row :: raw_col :: draws) sz mines_to_place t placed
  = place_loop draws sz mines_to_place t placed.
Proof.
  intros Hrow Hcol Hrej. rewrite place_loop_eq.
  destruct (placed <? mines_to_place) eqn:Hlt.
  - rewrite Hrow. obind. rewrite Hcol. obind.
    assert (bool_decide ((row, col) ∉ mines_location t) && bool_decide ((row, col) ∉ sz) = false)
      as ->; [|done].
    apply andb_false_iff.
    destruct Hrej; [left|right]; apply bool_decide_eq_false_2; by intros [].
  - by rewrite place_loop_eq, Hlt.
Qed.

(** The same sample twice in a row counts once. *)
Lemma place_loop_twice raw_row raw_col draws sz mines_to_place t placed :
  place_loop (raw_row :: raw_col :: raw_row :: raw_col :: draws) sz mines_to_place t placed
  = place_loop (raw_row :: raw_col :: draws) sz mines_to_place t placed.
Proof.
  rewrite place_loop_eq, (place_loop_eq (raw_row :: raw_col :: draws) sz mines_to_place t).
  destruct (placed <? mines_to_place) eqn:Hlt; [|done].
  destruct (randint 0 (rows t - 1) raw_row) as [row| |] eqn:Hrow; obind; [|done|done].
  destruct (randint 0 (cols t - 1) raw_col) as [col| |] eqn:Hcol; obind; [|done|done].
  destruct (bool_decide ((row, col) ∉ mines_location t) && bool_decide ((row, col) ∉ sz)) eqn:Hacc.
  - destruct (set2 (grid t) row col MINE_VALUE) as [g| |]; obind; [|done|done].
    apply place_loop_rejected with (row := row) (col := col); [exact Hrow|exact Hcol|].
    left. cbn [mines_location with_grid with_mines_location]. apply elem_of_union. left.
    by apply elem_of_singleton.
  - done.
Qed.

(** Whatever has been drawn so far, the loop can still finish. *)
Lemma place_loop_resume draws sz mines_to_place b0 t placed :
  0 ≤ rows b0 → 0 ≤ cols b0 →
  (∀ p, p ∈ sz → in_bounds b0 p.1 p.2 = true) →
  mines_to_place ≤ rows b0 * cols b0 - Z.of_nat (size sz) →
  placed_ok b0 sz t placed →
  ∃ more b', place_loop (draws ++ more) sz mines_to_place t placed = Done b'.
Proof.
  intros HR HC Hsz HM. revert t placed.
  assert (∀ t placed, placed_ok b0 sz t placed → placed < mines_to_place →
            1 ≤ rows t ∧ 1 ≤ cols t ∧ rows t = rows b0 ∧ cols t = cols b0) as Hdims.
  { intros t placed ((Hrows & Hcols & _) & _ & Hsize & _) Hlt. rewrite Hrows, Hcols.
    split_and!; [nia|nia|done|done]. }
  assert (∀ t placed raw_row raw_col, placed_ok b0 sz t placed → placed < mines_to_place →
            ∃ t' placed', placed_ok b0 sz t' placed' ∧
              ∀ rest, place_loop (raw_row :: raw_col :: rest) sz mines_to_place t placed
                      = place_loop rest sz mines_to_place t' placed') as Hstep.
  { intros t placed raw_row raw_col Hok Hlt.
    destruct (Hdims t placed Hok Hlt) as (HR1 & HC1 & Hrows & Hcols).
    destruct (randint_not_raised 0 (rows t - 1) raw_row) as [row Hrow]; [lia|].
    destruct (randint_not_raised 0 (cols t - 1) raw_col) as [col Hcol]; [lia|].
    pose proof (randint_spec _ _ _ _ Hrow). pose proof (randint_spec _ _ _ _ Hcol).
    destruct (decide ((row, col) ∈ mines_location t ∨ (row, col) ∈ sz)) as [Hrej|Hacc].
    - exists t, placed. split; [done|]. intros rest. by eapply place_loop_rejected.
    - assert (((row, col) ∉ mines_location t) ∧ ((row, col) ∉ sz)) as [Hfresh Hsafe]
        by (split; intros ?; apply Hacc; auto).
      destruct (place_step b0 sz t placed row col Hok) as (g & Hset & Hok'); [|done|done|].
      { apply in_bounds_spec. lia. }
      eexists _, _. split; [exact Hok'|]. intros rest. rewrite place_loop_eq.
      rewrite (proj2 (Z.ltb_lt _ _) Hlt), Hrow. obind. rewrite Hcol. obind.
      rewrite !bool_decide_eq_true_2 by done. cbn [andb]. by rewrite Hset. }
  induction draws as [|a|raw_row raw_col draws IH] using list_pair_ind; intros t placed Hok.
  - by apply (place_loop_can_finish sz mines_to_place b0).
  - destruct (decide (placed < mines_to_place)) as [Hlt|Hge].
    + destruct (Hstep t placed a 0 Hok Hlt) as (t' & placed' & Hok' & Heq).
      destruct (place_loop_can_finish sz mines_to_place b0 t' placed' HR HC Hsz HM Hok')
        as (more & b' & Hrun).
      exists (0 :: more), b'. cbn [app]. by rewrite Heq.
    + exists [], t. rewrite place_loop_eq. by rewrite (proj2 (Z.ltb_ge _ _)) by lia.
  - destruct (decide (placed < mines_to_place)) as [Hlt|Hge].
    + destruct (Hstep t placed raw_row raw_col Hok Hlt) as (t' & placed' & Hok' & Heq).
      destruct (IH t' placed' Hok') as (more & b' & Hrun).
      exists more, b'. cbn [app]. by rewrite Heq.
    + exists [], t. rewrite place_loop_eq. by rewrite (proj2 (Z.ltb_ge _ _)) by lia.
Qed.

(** ** _place_mines *)

(** C6: on a well-formed board asked for a non-negative number of mines,
    for every first-reveal coordinate (r,c) and every sequence of draws:
    the safe zone is the 3x3 neighbourhood of (r,c) clipped to the grid;
    _place_mines never raises; whenever it returns, mines_location holds
    exactly min(requested, rows*cols - |safe_zone|) positions, all in range
    and none in the safe zone, the grid holds the mine marker exactly there
    (elsewhere it is as before), [mines] has become that number, and nothing
    else but the grid and mines_location is written; the warning is printed
    exactly when that number is less than requested.  The sampling loop
    re-samples: a sample that falls in the safe zone is dropped and the next
    one is read, a sample drawn twice in a row counts once, draws after the
    last one read are ignored, and whatever has been drawn so far, collisions
    and safe-zone hits included, some continuation of the draws makes the
    call return. *)
Theorem place_mines_correct draws b r c :
  wf b → 0 ≤ mines b →
  ∃ safe_zone,
    safe_zone_of b r c = Done safe_zone ∧
    (∀ r' c', (r', c') ∈ safe_zone ↔
       (r - 1 ≤ r' ≤ r + 1) ∧ (c - 1 ≤ c' ≤ c + 1) ∧ in_bounds b r' c' = true) ∧
    let mines_to_place := Z.min (mines b) (rows b * cols b - Z.of_nat (size safe_zone)) in
    0 ≤ mines_to_place ∧
    (∀ e, _place_mines draws b r c ≠ Raised e) ∧
    (∀ b', _place_mines draws b r c = Done b' →
       Z.of_nat (size (mines_location b')) = mines_to_place ∧
       mines b' = mines_to_place ∧
       (∀ r' c', (r', c') ∈ mines_location b' →
          in_bounds b r' c' = true ∧ ((r', c') ∉ safe_zone) ∧
          ¬ ((r - 1 ≤ r' ≤ r + 1) ∧ (c - 1 ≤ c' ≤ c + 1))) ∧
       (∀ r' c', in_bounds b r' c' = true →
          get2 (grid b') r' c'
          = if decide ((r', c') ∈ mines_location b') then Done MINE_VALUE
            else get2 (grid b) r' c') ∧
       placement_frame b b' ∧ wf b') ∧
    _place_mines_warns b r c = Done (bool_decide (mines_to_place < mines b)) ∧
    (∀ drawn, ∃ more b', _place_mines (drawn ++ more) b r c = Done b') ∧
    (∀ b' more, _place_mines draws b r c = Done b' →
       _place_mines (draws ++ more) b r c = Done b') ∧
    (∀ raw_row raw_col row col,
       randint 0 (rows b - 1) raw_row = Done row →
       randint 0 (cols b - 1) raw_col = Done col → (row, col) ∈ safe_zone →
       _place_mines (raw_row :: raw_col :: draws) b r c = _place_mines draws b r c) ∧
    (∀ raw_row raw_col,
       _place_mines (raw_row :: raw_col :: raw_row :: raw_col :: draws) b r c
       = _place_mines (raw_row :: raw_col :: draws) b r c).
Proof.
  intros [Hg Hcs] Hmines. pose proof Hg as (HR & HC & _).
  destruct (safe_zone_spec b r c) as (sz & Hsz & Hmem).
  set (b0 := with_mines_location ∅ b).
  assert (safe_zone_of b0 r c = Done sz) as Hsz0 by exact Hsz.
  exists sz. split; [done|]. split; [done|]. intros M.
  assert (∀ p, p ∈ sz → in_bounds b0 p.1 p.2 = true) as Hszin.
  { intros [r' c'] Hp. by apply Hmem in Hp as (_ & _ & ?). }
  pose proof (size_subset_positions b0 sz HR HC Hszin) as Hszle.
  cbn [rows cols b0 with_mines_location] in Hszle.
  assert (0 ≤ M) as HM0 by (unfold M; lia).
  pose proof (placed_ok_start b sz Hg) as Hstart. fold b0 in Hstart.
  split; [done|]. split_and!.
  - intros e. unfold _place_mines. fold b0. rewrite Hsz0. obind. cbv zeta.
    cbn [rows cols mines b0 with_mines_location]. fold M.
    destruct (place_loop draws sz M b0 0) as [b1|e'|] eqn:Hloop; obind; [done| |done].
    exfalso. revert Hloop. apply (place_loop_not_raised draws sz M b0 b0 0 e'); try done.
    cbn [rows cols b0 with_mines_location]. unfold M. lia.
  - intros b' H. unfold _place_mines in H. fold b0 in H. rewrite Hsz0 in H. obind.
    cbv zeta in H. cbn [rows cols mines b0 with_mines_location] in H. fold M in H.
    inv_bind H. rename a into b1, E into Hloop. inversion H; subst b'. clear H.
    apply (place_loop_inv _ _ _ b0) in Hloop; [|done].
    rewrite Z.max_r in Hloop by done.
    destruct Hloop as (Hfr & Hd & Hsize & Hm & Hml & Hgrid).
    cbn [mines_location mines grid with_mines]. split_and!; [done|done| | | |].
    + intros r' c' Hp. destruct (Hml _ Hp) as [Hin Hns]. cbn [fst snd] in Hin.
      split_and!; [done|done|]. intros [Hr' Hc']. apply Hns, Hmem.
      split; [done|split; [done|exact Hin]].
    + intros r' c' Hin. by rewrite Hgrid.
    + destruct Hfr as (?&?&?&?&?&?&?&?). by repeat split.
    + destruct Hfr as (Hr1 & Hc1 & Hcs1 & _). split; cbn [rows cols grid cell_states with_mines].
      * by rewrite Hr1, Hc1.
      * by rewrite Hr1, Hc1, Hcs1.
  - unfold _place_mines_warns. rewrite Hsz. obind. cbv zeta. fold M. f_equal.
    destruct (M <? mines b) eqn:E.
    + apply Z.ltb_lt in E. by rewrite bool_decide_eq_true_2.
    + apply Z.ltb_ge in E. rewrite bool_decide_eq_false_2; [done|lia].
  - intros drawn.
    destruct (place_loop_resume drawn sz M b0 b0 0 HR HC Hszin) as (more & b1 & Hloop);
      [cbn [rows cols b0 with_mines_location]; unfold M; lia|done|].
    exists more, (with_mines M b1). unfold _place_mines. fold b0. rewrite Hsz0. obind.
    cbv zeta. cbn [rows cols mines b0 with_mines_location]. fold M. by rewrite Hloop.
  - intros b' more H. unfold _place_mines in *. fold b0 in H |- *. rewrite Hsz0 in H |- *.
    obind. cbv zeta in H |- *. cbn [rows cols mines b0 with_mines_location] in H |- *.
    fold M in H |- *. inv_bind H. rename a into b1, E into Hloop.
    rewrite place_loop_app by (by rewrite Hloop). by rewrite Hloop.
  - intros raw_row raw_col row col Hrow Hcol Hin. unfold _place_mines. fold b0.
    rewrite Hsz0. obind. cbv zeta. cbn [rows cols mines b0 with_mines_location]. fold M.
    by rewrite (place_loop_rejected raw_row raw_col draws sz M b0 0 row col Hrow Hcol (or_intror Hin)).
  - intros raw_row raw_col. unfold _place_mines. fold b0.
    rewrite Hsz0. obind. cbv zeta. cbn [rows cols mines b0 with_mines_location]. fold M.
    by rewrite place_loop_twice.
Qed.

Lemma place_mines_correct_witness :
  let b := init default_settings 1 6 2 in
  wf b ∧ 0 ≤ mines b ∧
  ∃ b', _place_mines [0; 0; 0; 3; 0; 3; 0; 5] b 0 0 = Done b' ∧
        mines b' = 2 ∧ Z.of_nat (size (mines_location b')) = 2 ∧
        get2 (grid b') 0 3 = Done MINE_VALUE ∧ get2 (grid b') 0 5 = Done MINE_VALUE ∧
        (∀ r' c', (r', c') ∈ mines_location b' → ¬ ((-1 ≤ r' ≤ 1) ∧ (-1 ≤ c' ≤ 1))).
Proof.
  intros b. assert (wf b) as Hwf by (by apply (bool_decide_unpack _)).
  assert (0 ≤ mines b) as Hm by (by vm_compute).
  split_and!; [done|done|].
  destruct (place_mines_correct [0; 0; 0; 3; 0; 3; 0; 5] b 0 0 Hwf Hm) as (sz & _ & _ & Hrest).
  cbv zeta in Hrest. destruct Hrest as (_ & _ & Hdone & _).
  eexists. split; [vm_compute; reflexivity|].
  edestruct Hdone as (Hsize & Hmines & Hml & _); [vm_compute; reflexivity|].
  assert (Z.min (mines b) (rows b * cols b - Z.of_nat (size sz)) = 2) as HM
    by (rewrite <- Hmines; vm_compute; reflexivity).
  split_and!; [reflexivity|by rewrite Hsize|reflexivity|reflexivity|].
  intros r' c' Hp. destruct (Hml r' c' Hp) as (_ & _ & Hout). intros [? ?]. apply Hout. lia.
Defined.

(** ** Well-formedness is kept, and nothing raises inside the grid *)

Lemma for_each_safe {A S} (I : S → Prop) (l : list A) (body : A → S → outcome S) s :
  I s →
  (∀ x t, x ∈ l → I t →
     (∀ e, body x t ≠ Raised e) ∧ ∀ t', body x t = Done t' → I t') →
  (∀ e, for_each l body s ≠ Raised e) ∧ ∀ s', for_each l body s = Done s' → I s'.
Proof.
  revert s. induction l as [|x l IH]; intros s Hs Hstep; cbn [for_each].
  - split; [done|]. by intros s' [= <-].
  - destruct (Hstep x s) as [Hne Hd]; [by left|done|].
    destruct (body x s) as [t|e|] eqn:E; obind; [|by destruct (Hne e)|done].
    apply IH; [by apply Hd|]. intros; apply Hstep; [by right|done].
Qed.

Lemma opens_get2 cs cs' r c :
  opens cs cs' → 0 ≤ r → 0 ≤ c →
  get2 cs' r c = get2 cs r c
  ∨ (get2 cs r c = Done HIDDEN ∧ get2 cs' r c = Done REVEALED).
Proof.
  intros (Hp & _) Hr Hc. rewrite !get2_cellN by done.
  destruct (Hp (Z.to_nat r) (Z.to_nat c)) as [->|[-> ->]]; [by left|by right].
Qed.

Lemma toggle_flag_wf b r c b' : wf b → toggle_flag b r c = Done b' → wf b'.
Proof.
  intros [Hg Hcs] H. unfold toggle_flag in H. inv_bind H.
  destruct (bool_decide (a = HIDDEN)).
  - inv_bind H. inversion H; subst b'. split; [done|]. by eapply set2_dims.
  - inv_bind H. destruct (bool_decide (_ = FLAGGED)); [|by inversion H; subst].
    inv_bind H. inversion H; subst b'. split; [done|]. by eapply set2_dims.
Qed.

Lemma reveal_rec_wf fuel b r c b' : wf b → reveal_rec fuel b r c = Done b' → wf b'.
Proof.
  intros [Hg Hcs] H. apply reveal_rec_opens in H as [Hfr Hcase].
  destruct Hfr as (Hr & Hc & _ & Hgrid & _).
  destruct Hcase as [[_ ->]|(old & cs1 & _ & _ & _ & Hcs1 & (_ & _ & _ & Hd))]; [done|].
  split; rewrite Hr, Hc, ?Hgrid; [done|]. apply Hd. by eapply set2_dims.
Qed.

Lemma reveal_all_mines_wf b b' : wf b → _reveal_all_mines b = Done b' → wf b'.
Proof.
  intros Hwf H. destruct (reveal_all_mines_spec b Hwf) as (b'' & H' & _ & Hwf' & _).
  rewrite H in H'. by inversion H'; subst.
Qed.

Lemma check_win_wf b b' : wf b → _check_win b = Done b' → wf b'.
Proof.
  intros Hwf H. unfold _check_win in H. inv_bind H.
  destruct (a =? _); [|by inversion H; subst].
  destruct (flag_remaining_mines_spec (with_game_over true (with_game_won true b)))
    as (b'' & H' & _ & Hwf' & _); [by destruct Hwf; split|].
  rewrite H in H'. by inversion H'; subst.
Qed.

Lemma place_mines_wf draws b r c b' : wf b → _place_mines draws b r c = Done b' → wf b'.
Proof.
  intros [Hg Hcs] H. unfold _place_mines in H. inv_bind H. cbv zeta in H.
  inv_bind H. inversion H; subst b'.
  apply (place_loop_inv _ _ _ (with_mines_location ∅ b)) in E0; [|by apply placed_ok_start].
  destruct E0 as ((Hr & Hc & Hcs' & _) & Hd & _).
  cbn [rows cols cell_states with_mines_location] in *.
  split; cbn [rows cols grid cell_states with_mines]; by rewrite Hr, Hc, ?Hcs'.
Qed.

Lemma calculate_adjacent_mines_wf b b' :
  wf b → _calculate_adjacent_mines b = Done b' → wf b'.
Proof.
  intros Hwf H. destruct (calculate_adjacent_mines_spec b Hwf) as (b'' & H' & _ & Hwf' & _).
  rewrite H in H'. by inversion H'; subst.
Qed.

Lemma handle_click_wf env draws b mouse_pos button b' :
  wf b → handle_click env draws b mouse_pos button = Done b' → wf b'.
Proof.
  apply (handle_click_preserves wf).
  - intros ?????? _ _ ?. by eapply place_mines_wf.
  - intros ????. by eapply calculate_adjacent_mines_wf.
  - done.
  - intros ????? _ _ _ ?. by eapply reveal_rec_wf.
  - intros ????? _ _ ?. by eapply toggle_flag_wf.
  - intros ??? _ ?. by eapply check_win_wf.
Qed.

(** Inside the grid of a well-formed board, [reveal] raises nothing. *)
Lemma reveal_rec_not_raised fuel b r c e :
  wf b → in_bounds b r c = true → reveal_rec fuel b r c ≠ Raised e.
Proof.
  revert b r c e. induction fuel as [|fuel IH]; intros b r c e Hwf Hin; [done|].
  rewrite reveal_rec_S. destruct (game_over b); [done|].
  pose proof Hwf as [Hg Hcs]. pose proof Hin as [Hr Hc]%in_bounds_spec.
  destruct (get2_in_dims _ _ _ r c Hcs Hr Hc) as [old Hold].
  destruct (get2_in_dims _ _ _ r c Hg Hr Hc) as [v Hv].
  destruct (set2_in_dims _ _ _ r c REVEALED Hcs Hr Hc) as (cs1 & Hset & Hd1).
  rewrite Hold. obind. destruct (bool_decide (old = REVEALED)); [done|].
  rewrite Hset. obind. cbn [grid with_cell_states]. rewrite Hv. obind.
  destruct (v =? MINE_VALUE).
  { destruct (reveal_all_mines_spec (with_game_over true (with_cell_states cs1 b)))
      as (b' & -> & _); [by split|done]. }
  destruct (v =? 0); [|done].
  revert e.
  eapply proj1, (for_each_safe (λ t, wf t ∧ rows t = rows b ∧ cols t = cols b));
    [split; [by split|done]|].
  intros i t _ Ht. apply (for_each_safe (λ t, wf t ∧ rows t = rows b ∧ cols t = cols b)); [done|].
  intros j u _ (Hwfu & Hru & Hcu). cbv zeta.
  destruct ((i =? 0) && (j =? 0)); [split; [done|by intros ? [= <-]]|].
  destruct (in_bounds u (r + i) (c + j)) eqn:Hin'; [|split; [done|by intros ? [= <-]]].
  pose proof Hwfu as [_ Hcsu]. pose proof Hin' as [Hr' Hc']%in_bounds_spec.
  destruct (get2_in_dims _ _ _ (r + i) (c + j) Hcsu Hr' Hc') as [st ->]. obind.
  destruct (bool_decide (st = HIDDEN)); [|split; [done|by intros ? [= <-]]].
  split; [intros e'; by apply IH|].
  intros u' Hu'. pose proof (reveal_rec_wf _ _ _ _ _ Hwfu Hu') as Hwfu'.
  apply reveal_rec_opens in Hu' as [(? & ? & _) _]. split_and!; [done|congruence|congruence].
Qed.

(** So a call of [reveal] inside the grid of a well-formed board returns. *)
Lemma reveal_total b r c :
  wf b → in_bounds b r c = true → ∃ b', reveal b r c = Done b' ∧ wf b'.
Proof.
  intros Hwf Hin. destruct (reveal b r c) as [b'|e|] eqn:H.
  - exists b'. split; [done|]. by eapply reveal_rec_wf.
  - by apply reveal_rec_not_raised in H.
  - unfold reveal in H. apply reveal_rec_fed in H; [done|lia|lia].
Qed.

(** With room for max(1, k) frames, k the number of unrevealed cells, a call
    on a cell of the board returns. *)
Lemma reveal_rec_total fuel b r c :
  wf b → in_bounds b r c = true →
  (1 ≤ fuel)%nat → (unrevealed (cell_states b) ≤ fuel)%nat →
  ∃ b', reveal_rec fuel b r c = Done b' ∧ wf b'.
Proof.
  intros Hwf Hin H1 Hk. destruct (reveal_rec fuel b r c) as [b'|e|] eqn:H.
  - exists b'. split; [done|]. by eapply reveal_rec_wf.
  - by apply reveal_rec_not_raised in H.
  - by apply reveal_rec_fed in H.
Qed.


(** ** Flagged cells *)





(** ** The cascade *)

Lemma for_each_prefix_returns {A S} (I : list A → S → Prop) (l : list A)
    (body : A → S → outcome S) s s' :
  I [] s →
  (∀ pre x post t t', l = pre ++ x :: post → I pre t → body x t = Done t' →
     I (pre ++ [x]) t') →
  for_each l body s = Done s' → I l s'.
Proof.
  intros Hs Hstep.
  assert (∀ post pre t, l = pre ++ post → I pre t →
            for_each post body t = Done s' → I l s') as Hgen.
  { induction post as [|x post IH]; intros pre t Hl Ht H; cbn [for_each] in H.
    - rewrite app_nil_r in Hl. inversion H; by subst.
    - inv_bind H. apply (IH (pre ++ [x]) a); [by rewrite <- app_assoc| |done].
      by eapply Hstep. }
  by apply (Hgen l []).
Qed.

Lemma cascades_hidden b p q : cascades b p q → hidden_at b q ∧ in_bounds b q.1 q.2 = true.
Proof. by destruct 1. Qed.

Lemma cascades_trans b p q x : cascades b p q → cascades b q x → cascades b p x.
Proof.
  intros Hpq Hqx. induction Hqx as [x Hz Hadj Hin Hh|y x Hqy IH Hz Hadj Hin Hh].
  - by eapply cascades_next.
  - by eapply cascades_next.
Qed.

(** A cascade in a later state is a cascade in an earlier one. *)
Lemma cascades_mono u t p q :
  grid u = grid t → rows u = rows t → cols u = cols t →
  (∀ x, in_bounds t x.1 x.2 = true → hidden_at u x → hidden_at t x) →
  cascades u p q → cascades t p q.
Proof.
  intros Hg Hr Hc Hh.
  assert (∀ x, in_bounds u x.1 x.2 = in_bounds t x.1 x.2) as Hin
      by (intros; unfold in_bounds; by rewrite Hr, Hc).
  assert (∀ x, zero_at u x → zero_at t x) as Hz by (intros x; unfold zero_at; by rewrite Hg).
  induction 1 as [q ? ? Hq ?|q q' ? IH ? ? Hq ?].
  - rewrite Hin in Hq. apply cascades_first; auto.
  - rewrite Hin in Hq. eapply cascades_next; eauto.
Qed.

Lemma zero_not_mine b q : zero_at b q → mine_at (grid b) q.1 q.2 = false.
Proof. unfold zero_at, mine_at. by intros ->. Qed.

(** A zero-count cell has no mine next to it. *)
Lemma zero_no_mine_neighbour b q q' :
  counts_consistent b → in_bounds b q.1 q.2 = true → zero_at b q →
  q' ∈ around q.1 q.2 → in_bounds b q'.1 q'.2 = true →
  mine_at (grid b) q'.1 q'.2 = false.
Proof.
  intros Hcons Hin Hz Hadj Hin'.
  pose proof (Hcons _ _ Hin (zero_not_mine _ _ Hz)) as Hcount.
  unfold zero_at in Hz. rewrite Hz in Hcount. inversion Hcount as [H0].
  unfold adjacent_mines in H0.
  destruct (mine_at (grid b) q'.1 q'.2) eqn:Hm; [|done].
  assert (q' ∈ filter (λ p, in_bounds b p.1 p.2 = true ∧ mine_at (grid b) p.1 p.2 = true)
                (around q.1 q.2)) as Hmem by (by apply list_elem_of_filter).
  destruct (filter _ _); [by apply elem_of_nil in Hmem|]. simpl in H0. lia.
Qed.

Lemma pair_neq (p q : Z * Z) : q ≠ p → ¬ (q.1 = p.1 ∧ q.2 = p.2).
Proof. destruct p, q. cbn. intros Hne [-> ->]. by destruct Hne. Qed.

(** The flood fill, call by call. *)
Lemma reveal_rec_cascade fuel t p t' :
  wf t → counts_consistent t → game_over t = false →
  in_bounds t p.1 p.2 = true → mine_at (grid t) p.1 p.2 = false →
  get2 (cell_states t) p.1 p.2 ≠ Done REVEALED →
  reveal_rec fuel t p.1 p.2 = Done t' → cascade_post t p t'.
Proof.
  revert t p t'. induction fuel as [|fuel IH];
    intros t p t' Hwf Hcons Hover Hin Hnm Hnr H; [done|].
  pose proof Hwf as [Hg Hcs]. pose proof Hin as [Hr Hc]%in_bounds_spec.
  destruct (get2_in_dims _ _ _ _ _ Hcs Hr Hc) as [old Hold].
  destruct (get2_in_dims _ _ _ _ _ Hg Hr Hc) as [v Hv].
  destruct (set2_in_dims _ _ _ p.1 p.2 REVEALED Hcs Hr Hc) as (cs1 & Hset & Hd1).
  rewrite reveal_rec_S, Hover, Hold in H. obind.
  rewrite bool_decide_eq_false_2 in H by (intros ->; by rewrite Hold in Hnr).
  rewrite Hset in H. obind. cbv zeta in H. cbn [grid with_cell_states] in H.
  rewrite Hv in H. obind.
  rewrite (mine_at_get2 _ _ _ _ Hv) in Hnm. rewrite Hnm in H.
  set (t1 := with_cell_states cs1 t) in *.
  assert (wf t1) as Hwf1 by (by split).
  assert (get2 cs1 p.1 p.2 = Done REVEALED) as Hp1 by (by eapply get2_set2_same).
  assert (∀ q, in_bounds t q.1 q.2 = true → q ≠ p →
               get2 cs1 q.1 q.2 = get2 (cell_states t) q.1 q.2) as Hq1.
  { intros q [Hqr Hqc]%in_bounds_spec Hne.
    rewrite (get2_set2_nonneg (cell_states t) p.1 p.2 REVEALED cs1 q.1 q.2);
      [|lia|lia|lia|lia|done].
    rewrite decide_False; [done|by apply pair_neq]. }
  destruct (v =? 0) eqn:Hv0; cycle 1.
  { inversion H; subst t'. split_and!; try done.
    - intros q Hq Hne. left. by apply Hq1.
    - intros q q' Hq Hqnr Hqr Hz _ _. cbn [cell_states t1 with_cell_states] in Hqr.
      destruct (decide (q = p)) as [->|Hne].
      + unfold zero_at in Hz. rewrite Hv in Hz. inversion Hz; subst v. done.
      + rewrite Hq1 in Hqr by done. done. }
  apply Z.eqb_eq in Hv0. subst v.
  assert (zero_at t p) as Hzp by exact Hv.
  rewrite (offsets_loop p.1 p.2 (λ nr nc b,
             if in_bounds b nr nc then
               st ← get2 (cell_states b) nr nc;
               if bool_decide (st = HIDDEN) then reveal_rec fuel b nr nc else Done b
             else Done b)) in H.
  set (Inv := λ (pre : list (Z * Z)) (u : Board),
        game_over u = false ∧ reveal_frame t1 u ∧ wf u ∧
        (∀ q, in_bounds t q.1 q.2 = true →
           get2 (cell_states u) q.1 q.2 = get2 cs1 q.1 q.2
           ∨ (get2 cs1 q.1 q.2 = Done HIDDEN ∧
              get2 (cell_states u) q.1 q.2 = Done REVEALED ∧ cascades t p q)) ∧
        (∀ q q', in_bounds t q.1 q.2 = true →
           get2 cs1 q.1 q.2 ≠ Done REVEALED →
           get2 (cell_states u) q.1 q.2 = Done REVEALED →
           zero_at t q → q' ∈ around q.1 q.2 → in_bounds t q'.1 q'.2 = true →
           ¬ hidden_at u q') ∧
        (∀ q, q ∈ pre → in_bounds t q.1 q.2 = true → ¬ hidden_at u q)).
  assert (Inv (around p.1 p.2) t') as (Hover' & Hfr' & Hwf' & HA & HB & HC).
  { revert H. apply (for_each_prefix_returns Inv).
    { split_and!; try done.
      - intros q _. by left.
      - intros q Hq. by apply elem_of_nil in Hq. }
    intros pre q post u u' Hl (Hou & Hfu & Hwfu & HAu & HBu & HCu) Hstep.
    assert (q ∈ around p.1 p.2) as Hadj by (rewrite Hl; apply elem_of_app; right; by left).
    pose proof Hfu as (Hru & Hcu & _ & Hgu & _).
    cbn [rows cols grid t1 with_cell_states] in Hru, Hcu, Hgu.
    assert (∀ x, in_bounds u x.1 x.2 = in_bounds t x.1 x.2) as Hinu
        by (intros; unfold in_bounds; by rewrite Hru, Hcu).
    (* a cell HIDDEN now was HIDDEN at the start *)
    assert (∀ x, in_bounds t x.1 x.2 = true → hidden_at u x → hidden_at t x) as Hhid.
    { intros x Hx Hh. unfold hidden_at in *.
      destruct (HAu x Hx) as [Hs|(_ & Hrv & _)]; [|congruence].
      rewrite Hs in Hh. destruct (decide (x = p)) as [->|Hne]; [congruence|].
      by rewrite <- Hq1. }
    (* no change: the invariant passes to the longer prefix *)
    assert (¬ (in_bounds t q.1 q.2 = true ∧ hidden_at u q) → u' = u → Inv (pre ++ [q]) u')
      as Hsame.
    { intros Hno ->. split_and!; try done.
      intros x [Hx|Hx%list_elem_of_singleton]%elem_of_app Hxin; [by apply HCu|].
      subst x. intros Hh. apply Hno. by split. }
    rewrite Hinu in Hstep.
    destruct (in_bounds t q.1 q.2) eqn:Hqin; [|apply Hsame; [by intros [? _]|by inversion Hstep]].
    pose proof Hqin as [Hqr Hqc]%in_bounds_spec.
    destruct (get2_in_dims _ _ _ q.1 q.2 (proj2 Hwfu)) as [st Hst]; [lia|lia|].
    rewrite Hst in Hstep. obind.
    case_bool_decide as Hh; [|apply Hsame; [|by inversion Hstep]];
      [|intros [_ Hh']; unfold hidden_at in Hh'; congruence].
    subst st.
    assert (hidden_at t q) as Hqt by (by apply Hhid).
    assert (cascades t p q) as Hpq by (by apply cascades_first).
    assert (mine_at (grid u) q.1 q.2 = false) as Hqm.
    { rewrite Hgu. by apply (zero_no_mine_neighbour t p q). }
    assert (counts_consistent u) as Hconsu.
    { intros r c. unfold in_bounds. rewrite Hru, Hcu, Hgu. intros Hrc Hm.
      rewrite (Hcons r c Hrc Hm). f_equal. symmetry.
      apply adjacent_mines_ext; [done|done|]. intros. by rewrite Hgu. }
    apply IH in Hstep as (Hou' & Hfu' & Hwfu' & Hq' & HA' & HB');
      [|done|done|done|by rewrite Hinu|done|by rewrite Hst].
    (* every cell is as in [u] or REVEALED *)
    assert (∀ x, in_bounds t x.1 x.2 = true →
              get2 (cell_states u') x.1 x.2 = get2 (cell_states u) x.1 x.2
              ∨ get2 (cell_states u') x.1 x.2 = Done REVEALED) as Hmono.
    { intros x Hx. destruct (decide (x = q)) as [->|Hne]; [by right|].
      destruct (HA' x) as [?|(_ & ? & _)]; [by rewrite Hinu|done|by left|by right]. }
    split_and!.
    - done.
    - by eapply reveal_frame_trans.
    - done.
    - intros x Hx. destruct (decide (x = q)) as [->|Hne].
      + right. split_and!; [|done|done].
        destruct (HAu q Hqin) as [<-|(? & ? & _)]; [done|congruence].
      + destruct (HA' x) as [->|(Hxh & Hxr & Hqx)]; [by rewrite Hinu|done|by apply HAu|].
        right. unfold hidden_at in Hxh.
        destruct (HAu x Hx) as [Hs|(_ & ? & _)]; [|congruence].
        split_and!; [by rewrite <- Hs|done|].
        eapply cascades_trans; [exact Hpq|].
        eapply (cascades_mono u t); eauto.
    - intros x x' Hx Hx1 Hxr Hz Hadj' Hx'.
      destruct (decide (get2 (cell_states u) x.1 x.2 = Done REVEALED)) as [Hxu|Hxu].
      + pose proof (HBu x x' Hx Hx1 Hxu Hz Hadj' Hx') as Hnh. unfold hidden_at in *.
        destruct (Hmono x' Hx') as [-> | ->]; [done|done].
      + apply (HB' x x'); try done; try (by rewrite Hinu).
        unfold zero_at. by rewrite Hgu.
    - intros x [Hxp|Hxp%list_elem_of_singleton]%elem_of_app Hx.
      + pose proof (HCu x Hxp Hx) as Hnh. unfold hidden_at in *.
        destruct (Hmono x Hx) as [-> | ->]; [done|done].
      + subst x. unfold hidden_at. by rewrite Hq'. }
  assert (reveal_frame t t') as Hfr.
  { eapply reveal_frame_trans; [|exact Hfr']. by repeat split. }
  split_and!; try done.
  - destruct (HA p Hin) as [->|(? & _)]; [done|congruence].
  - intros q Hq Hne. destruct (HA q Hq) as [->|(Hh & Hrv & Hc')].
    + left. by apply Hq1.
    + right. unfold hidden_at. rewrite <- Hq1 by done. by split_and!.
  - intros q q' Hq Hqn Hqr Hz Hadj Hq'. destruct (decide (q = p)) as [->|Hne].
    + by apply HC.
    + apply (HB q q'); try done. by rewrite Hq1.
Qed.

Lemma counts_consistent_positions b :
  counts_consistent b ↔
  Forall (λ p, mine_at (grid b) p.1 p.2 = false →
               get2 (grid b) p.1 p.2 = Done (adjacent_mines b p.1 p.2)) (positions b).
Proof.
  rewrite Forall_forall. split.
  - intros H [r c] Hp%elem_of_positions. by apply H.
  - intros H r c Hp%elem_of_positions. by apply (H (r, c)).
Qed.

Global Instance counts_consistent_dec b : Decision (counts_consistent b).
Proof.
  refine (cast_if (decide (Forall (λ p, mine_at (grid b) p.1 p.2 = false →
            get2 (grid b) p.1 p.2 = Done (adjacent_mines b p.1 p.2)) (positions b))));
    by rewrite counts_consistent_positions.
Defined.

(** C4 as stated fails: the cascade does not pass through a FLAGGED cell.
    On a mined 1x7 board whose cells 0 to 4 have count 0, with a flag on
    cell 1, reveal(0,0) opens cell 0 only: cell 2, which belongs to the
    zero-count region of cell 0, stays HIDDEN. *)
Lemma flag_blocks_cascade :
  wf flagged_row ∧ counts_consistent flagged_row ∧
  get2 (grid flagged_row) 0 0 = Done 0 ∧ get2 (grid flagged_row) 0 1 = Done 0 ∧
  get2 (grid flagged_row) 0 2 = Done 0 ∧
  region flagged_row (0, 0) (0, 2) ∧
  get2 (cell_states flagged_row) 0 2 = Done HIDDEN ∧
  ∃ b', reveal flagged_row 0 0 = Done b' ∧ get2 (cell_states b') 0 2 = Done HIDDEN.
Proof.
  split_and!; try reflexivity.
  - by apply (bool_decide_unpack _).
  - by apply (bool_decide_unpack _).
  - apply (region_next _ _ (0, 1)); try reflexivity.
    + apply region_first; try reflexivity. apply elem_of_around. cbn. lia.
    + apply elem_of_around. cbn. lia.
  - eexists. split; vm_compute; reflexivity.
Qed.

(** C4, amended: on a well-formed board that holds the neighbour counts,
    with the game not over, take reveal on an in-range zero-count cell that
    is not REVEALED.  No statement of the call raises an exception, and the
    call returns when the call stack has room for max(1, k) frames, k the
    number of unrevealed cells; with fewer frames the cascade can run out of
    them (Starved, which is CPython's RecursionError).  Whatever the
    number of frames, a call that returns has put into state REVEALED that
    cell and exactly the cells its cascade reaches, i.e. the ends of chains
    of neighbour steps from it through HIDDEN zero-count cells
    (positive-count cells end a chain: they are revealed and not expanded);
    every other cell, in particular every FLAGGED and every already REVEALED
    cell, keeps its state, and the part of the zero-count region behind such
    cells stays hidden.  When every cell is HIDDEN this is the whole
    zero-count region of the cell with its border. *)
Theorem cascade_correct b r c :
  wf b → counts_consistent b → game_over b = false →
  in_bounds b r c = true → get2 (grid b) r c = Done 0 →
  get2 (cell_states b) r c ≠ Done REVEALED →
  (∀ fuel e, reveal_rec fuel b r c ≠ Raised e) ∧
  (∀ fuel, (1 ≤ fuel)%nat → (unrevealed (cell_states b) ≤ fuel)%nat →
     ∃ b', reveal_rec fuel b r c = Done b') ∧
  ∀ fuel b', reveal_rec fuel b r c = Done b' →
        reveal_frame b b' ∧ game_over b' = false ∧ wf b' ∧
        get2 (cell_states b') r c = Done REVEALED ∧
        (∀ r' c', cascades b (r, c) (r', c') →
           get2 (cell_states b') r' c' = Done REVEALED) ∧
        (∀ r' c', in_bounds b r' c' = true → ¬ (r' = r ∧ c' = c) →
           ¬ cascades b (r, c) (r', c') →
           get2 (cell_states b') r' c' = get2 (cell_states b) r' c') ∧
        (∀ r' c' st, in_bounds b r' c' = true → ¬ (r' = r ∧ c' = c) →
           get2 (cell_states b) r' c' = Done st → st ≠ HIDDEN →
           get2 (cell_states b') r' c' = Done st) ∧
        ((∀ r' c', in_bounds b r' c' = true → get2 (cell_states b) r' c' = Done HIDDEN) →
         ∀ r' c', region b (r, c) (r', c') →
           get2 (cell_states b') r' c' = Done REVEALED).
Proof.
  intros Hwf Hcons Hover Hin Hz Hnr. split_and!.
  { intros fuel e. by apply reveal_rec_not_raised. }
  { intros fuel H1 Hk. destruct (reveal_rec_total fuel b r c Hwf Hin H1 Hk) as (b' & H & _).
    by exists b'. }
  intros fuel b' Hrun.
  assert (mine_at (grid b) r c = false) as Hnm by (by apply (zero_not_mine b (r, c))).
  destruct (reveal_rec_cascade _ b (r, c) b' Hwf Hcons Hover Hin Hnm Hnr Hrun)
    as (Hover' & Hfr & Hwf' & Hp & HA & HB).
  cbn [fst snd] in Hp.
  assert (∀ q, cascades b (r, c) q → get2 (cell_states b') q.1 q.2 = Done REVEALED) as Hreach.
  { induction 1 as [q Hzp Hadj Hq Hh|q q' Hpq IH Hzq Hadj Hq' Hh].
    - assert (q ≠ (r, c)) as Hne.
      { intros ->. apply elem_of_around in Hadj as (_ & _ & Hne). by destruct Hne. }
      pose proof (HB (r, c) q Hin Hnr Hp Hzp Hadj Hq) as Hnh.
      destruct (HA q Hq Hne) as [Hs|(_ & ? & _)]; [|done].
      destruct Hnh. unfold hidden_at in *. by rewrite Hs.
    - destruct (cascades_hidden _ _ _ Hpq) as [Hqh Hqin].
      assert (get2 (cell_states b) q.1 q.2 ≠ Done REVEALED) as Hqn
          by (unfold hidden_at in Hqh; by rewrite Hqh).
      pose proof (HB q q' Hqin Hqn IH Hzq Hadj Hq') as Hnh.
      destruct (decide (q' = (r, c))) as [->|Hne]; [done|].
      destruct (HA q' Hq' Hne) as [Hs|(_ & ? & _)]; [|done].
      destruct Hnh. unfold hidden_at in *. by rewrite Hs. }
  assert (∀ r' c', in_bounds b r' c' = true → ¬ (r' = r ∧ c' = c) →
            ¬ cascades b (r, c) (r', c') →
            get2 (cell_states b') r' c' = get2 (cell_states b) r' c') as Hrest.
  { intros r' c' Hin' Hne Hnc.
    destruct (HA (r', c') Hin') as [?|(_ & _ & ?)]; [|done|done].
    intros [= -> ->]. by destruct Hne. }
  split_and!; try done.
  - intros r' c' Hc. by apply (Hreach (r', c')).
  - intros r' c' st Hin' Hne Hst Hnh. rewrite <- Hst. apply Hrest; [done|done|].
    intros [Hh _]%cascades_hidden. unfold hidden_at in Hh. cbn [fst snd] in Hh. congruence.
  - intros Hall r' c' Hreg. apply (Hreach (r', c')).
    induction Hreg as [q ? ? Hq|q q' ? IH ? ? Hq].
    + apply cascades_first; try done. by apply Hall.
    + eapply cascades_next; try done. by apply Hall.
Qed.

Lemma cascade_correct_witness :
  wf flagged_row ∧ counts_consistent flagged_row ∧
  ∃ b', reveal_rec 7 flagged_row 0 2 = Done b' ∧
        get2 (cell_states b') 0 3 = Done REVEALED ∧
        get2 (cell_states b') 0 1 = Done FLAGGED.
Proof.
  assert (wf flagged_row) as Hwf by (by apply (bool_decide_unpack _)).
  assert (counts_consistent flagged_row) as Hcons by (by apply (bool_decide_unpack _)).
  split_and!; [done|done|].
  destruct (cascade_correct flagged_row 0 2 Hwf Hcons) as (_ & Hret & Hpost);
    [done|done|done|by vm_compute|].
  destruct (Hret 7%nat) as [b' Hrun]; [lia|vm_compute; lia|].
  destruct (Hpost 7%nat b' Hrun) as (_ & _ & _ & _ & Hreach & _ & Hkeep & _).
  exists b'. split_and!; [done| |].
  - apply Hreach. apply cascades_first; try reflexivity. apply elem_of_around. cbn. lia.
  - apply Hkeep; [reflexivity|lia|reflexivity|discriminate].
Defined.

(** * Further properties of the engine *)

(** ** Shape *)

Lemma run_wf o b b' : sane o → wf b → run o b = Done b' → wf b'.
Proof.
  destruct o; cbn [run sane]; intros Hs Hwf H.
  - by eapply handle_click_wf.
  - by eapply reveal_rec_wf.
  - by eapply toggle_flag_wf.
  - by eapply check_win_wf.
  - by eapply reveal_all_mines_wf.
  - destruct Hs. inversion H; subst. by apply reset_wf.
Qed.

(** X1: Every board reached from a board constructed with non-negative
    dimensions, by any sequence of clicks, direct reveal, toggle_flag,
    _check_win and _reveal_all_mines calls and resets to non-negative
    dimensions, has a grid and a cell-state table of rows x cols entries. *)
Theorem reachable_wf env nrows ncols nmines b :
  0 ≤ nrows → 0 ≤ ncols →
  reachable_if (λ o _, sane o) (init env nrows ncols nmines) b → wf b.
Proof.
  intros HR HC. induction 1 as [|b o b' _ IH Hs Hrun].
  - by apply init_wf.
  - by eapply run_wf.
Qed.

Lemma lost_board_reachable_if :
  reachable_if (λ o _, sane o) (init default_settings 1 6 2) lost_board.
Proof.
  destruct lost_board_played as [H1 H2].
  eapply (reachable_if_step _ _ opened_board (Click _ _ _ _)); [|done|exact H2].
  eapply (reachable_if_step _ _ _ (Click _ _ _ _)); [constructor|done|exact H1].
Qed.

Lemma reachable_wf_witness :
  reachable_if (λ o _, sane o) (init default_settings 1 6 2) lost_board ∧ wf lost_board.
Proof.
  split; [apply lost_board_reachable_if|].
  apply (reachable_wf default_settings 1 6 2); [lia|lia|apply lost_board_reachable_if].
Defined.

(** ** A won game is over *)

Definition won_is_over (b : Board) : Prop := game_won b = true → game_over b = true.

Lemma reveal_rec_won_is_over fuel b r c b' :
  won_is_over b → reveal_rec fuel b r c = Done b' → won_is_over b'.
Proof.
  intros Hb H. apply reveal_rec_opens in H as [Hfr Hcase].
  destruct Hfr as (_ & _ & _ & _ & _ & _ & _ & Hw & _).
  destruct Hcase as [[_ ->]|(old & cs1 & Hover & _)]; [done|].
  intros Hw'. rewrite Hw in Hw'. rewrite (Hb Hw') in Hover. done.
Qed.

Lemma check_win_won_is_over b b' : won_is_over b → _check_win b = Done b' → won_is_over b'.
Proof.
  intros Hb H. unfold _check_win in H. inv_bind H.
  destruct (a =? _); [|by inversion H; subst].
  assert (game_over b' = true); [|by intros _]. revert H. unfold flag_remaining_mines.
  apply (for_each_returns (λ t, game_over t = true)); [done|].
  intros r t0 t0' _ Ht0. apply (for_each_returns (λ t, game_over t = true)); [done|].
  intros c t t' _ Ht H. inv_bind H. destruct (a0 =? MINE_VALUE); [|by inversion H; subst].
  inv_bind H. destruct (bool_decide _); [|by inversion H; subst].
  inv_bind H. by inversion H; subst.
Qed.

Lemma placement_frame_won_is_over b b' : placement_frame b b' → won_is_over b → won_is_over b'.
Proof. unfold won_is_over. intros (_ & _ & _ & _ & _ & -> & -> & _). done. Qed.

Lemma run_won_is_over o b b' : won_is_over b → run o b = Done b' → won_is_over b'.
Proof.
  destruct o; cbn [run]; intros Hb H.
  - revert H. apply (handle_click_preserves won_is_over); try done.
    + intros ?????? _ _ ?%place_mines_frame. by eapply placement_frame_won_is_over.
    + intros ??? [? _]%calculate_adjacent_mines_frame. by eapply placement_frame_won_is_over.
    + intros ????? _ _ _ ?. by eapply reveal_rec_won_is_over.
    + intros ? r c ? Ht _ _ Htog. unfold toggle_flag in Htog. inv_bind Htog.
      destruct (bool_decide _).
      * inv_bind Htog. by inversion Htog; subst.
      * inv_bind Htog. destruct (bool_decide _); [|by inversion Htog; subst].
        inv_bind Htog. by inversion Htog; subst.
    + intros ??? _ ?. by eapply check_win_won_is_over.
  - by eapply reveal_rec_won_is_over.
  - unfold toggle_flag in H. inv_bind H. destruct (bool_decide _).
    + inv_bind H. by inversion H; subst.
    + inv_bind H. destruct (bool_decide _); [|by inversion H; subst].
      inv_bind H. by inversion H; subst.
  - by eapply check_win_won_is_over.
  - apply reveal_all_mines_opens in H as [-> _]. done.
  - by inversion H; subst.
Qed.

(** X2: In every board reached from a fresh board by any sequence of the
    engine's operations, game_won implies game_over. *)
Theorem reachable_won_is_over env nrows ncols nmines b :
  reachable (init env nrows ncols nmines) b → game_won b = true → game_over b = true.
Proof.
  induction 1 as [|b o b' _ IH Hrun]; [done|]. by eapply run_won_is_over.
Qed.

Lemma cleared_board_won :
  let env := default_settings in
  let click col := (GAME_AREA_X env + 37 * col + 5, GAME_AREA_Y env + 5) in
  ∃ b, handle_click env [0; 4] (init env 1 5 1) (click 0) 1 = Done b ∧ game_won b = true.
Proof. eexists. split; vm_compute; reflexivity. Qed.

Lemma reachable_won_is_over_witness :
  ∃ b, reachable (init default_settings 1 5 1) b ∧ game_won b = true ∧ game_over b = true.
Proof.
  destruct cleared_board_won as (b & Hrun & Hwon). exists b.
  assert (reachable (init default_settings 1 5 1) b) as Hreach.
  { eapply (reachable_step _ _ (Click _ _ _ _)); [constructor|exact Hrun]. }
  split_and!; [done|done|].
  by apply (@reachable_won_is_over default_settings 1 5 1 b).
Defined.

(** ** REVEALED is final *)

Lemma get2_cellN_Some {A} (m : list (list A)) r c y :
  0 ≤ r → 0 ≤ c → get2 m r c = Done y ↔ cellN m (Z.to_nat r) (Z.to_nat c) = Some y.
Proof.
  intros Hr Hc. rewrite get2_cellN by done.
  destruct (cellN m (Z.to_nat r) (Z.to_nat c)); simpl; split; congruence.
Qed.

(** A write leaves every cell that held another value than the overwritten
    one as it was, whatever indices (negative ones too) name the target. *)
Lemma set2_other {A} (m m' : list (list A)) r0 c0 old x r c y :
  get2 m r0 c0 = Done old → set2 m r0 c0 x = Done m' →
  0 ≤ r → 0 ≤ c → get2 m r c = Done y → y ≠ old → get2 m' r c = Done y.
Proof.
  intros Hold Hset Hr Hc Hy Hne.
  destruct (set2_cellN _ _ _ _ _ _ Hold Hset) as (n & k & Hcell & Hp & _).
  apply get2_cellN_Some in Hy; [|done|done]. apply get2_cellN_Some; [done|done|].
  rewrite Hp. destruct (decide (Z.to_nat r = n ∧ Z.to_nat c = k)) as [[<- <-]|]; [|done].
  congruence.
Qed.

(** A write of [x] leaves a cell that held [x] as it was. *)
Lemma set2_keeps {A} (m m' : list (list A)) r0 c0 x r c :
  set2 m r0 c0 x = Done m' →
  0 ≤ r → 0 ≤ c → get2 m r c = Done x → get2 m' r c = Done x.
Proof.
  intros Hset Hr Hc Hy. destruct (set2_get2_Done _ _ _ _ _ Hset) as [old Hold].
  destruct (set2_cellN _ _ _ _ _ _ Hold Hset) as (n & k & Hcell & Hp & _).
  apply get2_cellN_Some in Hy; [|done|done]. apply get2_cellN_Some; [done|done|].
  rewrite Hp. by destruct (decide _).
Qed.

Section revealed.
Variables (r c : Z).

Lemma open_at_states b b' :
    wf b' → rows b' = rows b → cols b' = cols b → cell_states b' = cell_states b →
    open_at r c b → open_at r c b'.
  Proof.
    intros Hwf Hr Hc Hcs (_ & Hin & Hst). split_and!; [done| |by rewrite Hcs].
    unfold in_bounds in *. by rewrite Hr, Hc.
  Qed.

Lemma toggle_flag_open_at b r0 c0 b' :
    open_at r c b → toggle_flag b r0 c0 = Done b' → open_at r c b'.
  Proof.
    intros Hb H. pose proof (toggle_flag_wf _ _ _ _ (proj1 Hb) H) as Hwf.
    destruct Hb as (_ & Hin & Hst). pose proof Hin as [Hr Hc]%in_bounds_spec.
    unfold toggle_flag in H. inv_bind H. rename a into st, E into Hget.
    destruct (bool_decide (st = HIDDEN)) eqn:Hh.
    - apply bool_decide_eq_true in Hh as ->. inv_bind H. inversion H; subst b'.
      split_and!; [done|done|]. cbn [cell_states with_flags_placed with_cell_states].
      by apply (set2_other _ _ _ _ _ _ _ _ _ Hget E); [lia|lia|done|].
    - rewrite Hget in H. obind. destruct (bool_decide (st = FLAGGED)) eqn:Hf.
      + apply bool_decide_eq_true in Hf as ->. inv_bind H. inversion H; subst b'.
        split_and!; [done|done|]. cbn [cell_states with_flags_placed with_cell_states].
        by apply (set2_other _ _ _ _ _ _ _ _ _ Hget E); [lia|lia|done|].
      + by inversion H; subst.
  Qed.

Lemma reveal_rec_open_at fuel b r0 c0 b' :
    open_at r c b → reveal_rec fuel b r0 c0 = Done b' → open_at r c b'.
  Proof.
    intros Hb H. pose proof (reveal_rec_wf _ _ _ _ _ (proj1 Hb) H) as Hwf.
    destruct Hb as (_ & Hin & Hst). pose proof Hin as [Hr Hc]%in_bounds_spec.
    apply reveal_rec_opens in H as [Hfr Hcase].
    destruct Hfr as (Hrows & Hcols & _).
    destruct Hcase as [[_ ->]|(old & cs1 & _ & Hold & _ & Hset & Hop)]; [done|].
    split_and!; [done|unfold in_bounds in *; by rewrite Hrows, Hcols|].
    pose proof (set2_keeps _ _ _ _ _ _ _ Hset (proj1 Hr) (proj1 Hc) Hst) as H1.
    destruct (opens_get2 _ _ r c Hop) as [->|[_ ->]]; [lia|lia|done|done].
  Qed.

Lemma reveal_all_mines_open_at b b' :
    open_at r c b → _reveal_all_mines b = Done b' → open_at r c b'.
  Proof.
    intros Hb H. pose proof (reveal_all_mines_wf _ _ (proj1 Hb) H) as Hwf.
    destruct Hb as (_ & Hin & Hst). pose proof Hin as [Hr Hc]%in_bounds_spec.
    apply reveal_all_mines_opens in H as [Heq Hop].
    split_and!; [done|by rewrite Heq|].
    destruct (opens_get2 _ _ r c Hop) as [->|[_ ->]]; [lia|lia|done|done].
  Qed.

Lemma check_win_open_at b b' : open_at r c b → _check_win b = Done b' → open_at r c b'.
  Proof.
    intros Hb H. pose proof (check_win_wf _ _ (proj1 Hb) H) as Hwf.
    destruct Hb as (Hwfb & Hin & Hst).
    unfold _check_win in H. inv_bind H. destruct (a =? _); [|by inversion H; subst].
    destruct (flag_remaining_mines_spec (with_game_over true (with_game_won true b)))
      as (b'' & H' & Heq & _ & _ & Hcells); [by destruct Hwfb; split|].
    rewrite H in H'. inversion H'; subst b''.
    split_and!; [done|by rewrite Heq|].
    rewrite (Hcells r c REVEALED); [|done|done].
    by rewrite andb_false_r.
  Qed.

Lemma handle_click_open_at env draws b mouse_pos button b' :
    open_at r c b → handle_click env draws b mouse_pos button = Done b' → open_at r c b'.
  Proof.
    apply (handle_click_preserves (open_at r c)).
    - intros ? t ?? t' Ht _ _ H. pose proof (place_mines_wf _ _ _ _ _ (proj1 Ht) H).
      apply place_mines_frame in H as (? & ? & ? & _). by apply (open_at_states t).
    - intros t t' Ht H. pose proof (calculate_adjacent_mines_wf _ _ (proj1 Ht) H).
      apply calculate_adjacent_mines_frame in H as [(? & ? & ? & _) _].
      by apply (open_at_states t).
    - intros t Ht. by apply (open_at_states t); [destruct Ht as [[??] _]; split|..].
    - intros ????? _ _ _ ?. by eapply reveal_rec_open_at.
    - intros ????? _ _ ?. by eapply toggle_flag_open_at.
    - intros ??? _ ?. by eapply check_win_open_at.
  Qed.
End revealed.

(** X3: REVEALED is final for a cell: on a well-formed board, no click and no
    direct call of reveal, toggle_flag, _check_win or _reveal_all_mines, at
    any coordinates, takes an in-range REVEALED cell out of that state; only
    a reset does. *)
Theorem revealed_is_final o b b' r c :
  (∀ env, o ≠ Reset env) →
  wf b → in_bounds b r c = true → get2 (cell_states b) r c = Done REVEALED →
  run o b = Done b' →
  get2 (cell_states b') r c = Done REVEALED.
Proof.
  intros Ho Hwf Hin Hst H.
  assert (open_at r c b) as Hb by done.
  cut (open_at r c b'); [by intros (_ & _ & ?)|].
  destruct o; cbn [run] in H.
  - by eapply handle_click_open_at.
  - by eapply reveal_rec_open_at.
  - by eapply toggle_flag_open_at.
  - by eapply check_win_open_at.
  - by eapply reveal_all_mines_open_at.
  - by destruct (Ho env).
Qed.

Lemma wf_opened_board : wf opened_board.
Proof. by apply (bool_decide_unpack _). Qed.

Lemma revealed_is_final_witness :
  get2 (cell_states opened_board) 0 1 = Done REVEALED ∧
  ∃ b', run (ToggleFlag 0 1) opened_board = Done b'
        ∧ get2 (cell_states b') 0 1 = Done REVEALED.
Proof.
  split; [reflexivity|]. exists opened_board. split; [reflexivity|].
  apply (revealed_is_final (ToggleFlag 0 1) opened_board opened_board 0 1);
    [done|apply wf_opened_board|reflexivity|reflexivity|reflexivity].
Defined.

(** ** From pixels to cells *)

Lemma floordiv_cell x0 k cs d :
  0 < cs → 0 ≤ d < cs → floordiv (x0 + k * cs + d - x0) cs = Done k.
Proof.
  intros Hcs Hd. unfold floordiv.
  destruct (cs =? 0) eqn:E; [apply Z.eqb_eq in E; lia|]. f_equal.
  replace (x0 + k * cs + d - x0) with (d + k * cs) by lia.
  rewrite Z.div_add by lia. rewrite Z.div_small by lia. lia.
Qed.

Lemma collidepoint_cell env b r c pos :
  collidepoint (cell_rect env b r c) pos = true →
  ∃ dx dy, 0 ≤ dx < cell_size b ∧ 0 ≤ dy < cell_size b ∧
           pos = (GAME_AREA_X env + c * cell_size b + dx, GAME_AREA_Y env + r * cell_size b + dy).
Proof.
  destruct pos as [x y]. unfold collidepoint, cell_rect. cbn [fst snd].
  rewrite !andb_true_iff. intros [[[H1 H2] H3] H4].
  exists (x - (GAME_AREA_X env + c * cell_size b)), (y - (GAME_AREA_Y env + r * cell_size b)).
  split_and!; [lia..|]. f_equal; lia.
Qed.

(** X4: The cell that [draw] highlights under the mouse is the cell a right
    click there flags: when is_hovered holds for the in-range cell (r,c) of
    an unfinished board, handle_click with button 3 at that position is
    toggle_flag(r, c) followed by _check_win. *)
Theorem hovered_cell_is_clicked env draws b mouse_pos r c :
  0 < cell_size b → in_bounds b r c = true → game_won b = false →
  is_hovered env b mouse_pos r c = Done true →
  handle_click env draws b mouse_pos 3
  = (b1 ← toggle_flag b r c; _check_win b1).
Proof.
  intros Hcs Hin Hwon Hhov. unfold is_hovered in Hhov.
  destruct (collidepoint _ _) eqn:Hcol; [|done].
  inv_bind Hhov. rename a into st, E into Hst.
  case_bool_decide as Hh; [subst st|done].
  assert (game_over b = false) as Hover by (destruct (game_over b); [done|done]).
  apply collidepoint_cell in Hcol as (dx & dy & Hdx & Hdy & ->).
  unfold handle_click. rewrite Hover, Hwon. cbn [orb fst snd]. cbv zeta.
  rewrite !floordiv_cell by done. obind. rewrite Hin. cbn [negb].
  change (3 =? 1) with false. change (3 =? 3) with true. cbv iota.
  rewrite Hst. obind. rewrite bool_decide_eq_false_2 by done. cbn [negb].
  destruct (toggle_flag_hidden b r c Hst) as (cs & _ & ->). obind.
  cbn [game_over with_flags_placed with_cell_states]. by rewrite Hover.
Qed.

Lemma hovered_cell_is_clicked_witness :
  is_hovered default_settings flagged_row (183, 59) 0 2 = Done true ∧
  handle_click default_settings [] flagged_row (183, 59) 3
  = (b1 ← toggle_flag flagged_row 0 2; _check_win b1).
Proof.
  split; [reflexivity|].
  apply (hovered_cell_is_clicked default_settings [] flagged_row _ 0 2);
    [reflexivity|reflexivity|reflexivity|reflexivity].
Defined.

(** X5: A click outside the rectangle the board is drawn in, to the left or
    above as well as to the right or below, does nothing at all, whatever
    the button: pixel offsets are floor-divided, so a position left of or
    above the board gets a negative cell index, which the bounds check
    rejects before any list is indexed. *)
Theorem click_outside_is_ignored env draws b mouse_pos button :
  0 < cell_size b →
  ¬ (GAME_AREA_X env ≤ mouse_pos.1 < GAME_AREA_X env + cols b * cell_size b ∧
     GAME_AREA_Y env ≤ mouse_pos.2 < GAME_AREA_Y env + rows b * cell_size b) →
  handle_click env draws b mouse_pos button = Done b.
Proof.
  intros Hcs Hout. unfold handle_click. destruct (game_over b || game_won b); [done|].
  cbv zeta. unfold floordiv.
  destruct (cell_size b =? 0) eqn:E; [apply Z.eqb_eq in E; lia|]. obind.
  destruct (in_bounds b _ _) eqn:Hin; [|done]. exfalso. apply Hout.
  apply in_bounds_spec in Hin as [[Hr1 Hr2] [Hc1 Hc2]].
  pose proof (Z.mul_div_le (mouse_pos.1 - GAME_AREA_X env) (cell_size b) Hcs).
  pose proof (Z.mul_div_le (mouse_pos.2 - GAME_AREA_Y env) (cell_size b) Hcs).
  pose proof (Z.mul_succ_div_gt (mouse_pos.1 - GAME_AREA_X env) (cell_size b) Hcs).
  pose proof (Z.mul_succ_div_gt (mouse_pos.2 - GAME_AREA_Y env) (cell_size b) Hcs).
  nia.
Qed.

Lemma click_outside_is_ignored_witness :
  handle_click default_settings [] flagged_row (103, 60) 1 = Done flagged_row.
Proof.
  apply (click_outside_is_ignored default_settings [] flagged_row (103, 60) 1);
    [reflexivity|intros [[H _] _]; apply H; reflexivity].
Defined.

(** X6: All the pixels of the rectangle [draw] gives a cell act alike: two
    clicks inside the same cell rectangle have the same outcome, for every
    button and every board. *)
Theorem clicks_in_one_cell_agree env draws b r c pos pos' button :
  0 < cell_size b →
  collidepoint (cell_rect env b r c) pos = true →
  collidepoint (cell_rect env b r c) pos' = true →
  handle_click env draws b pos button = handle_click env draws b pos' button.
Proof.
  intros Hcs (dx & dy & Hdx & Hdy & ->)%collidepoint_cell
             (dx' & dy' & Hdx' & Hdy' & ->)%collidepoint_cell.
  unfold handle_click. cbn [fst snd]. cbv zeta. by rewrite !floordiv_cell by done.
Qed.

Lemma clicks_in_one_cell_agree_witness :
  handle_click default_settings [] flagged_row (178, 54) 1
  = handle_click default_settings [] flagged_row (214, 90) 1.
Proof.
  apply (clicks_in_one_cell_agree default_settings [] flagged_row 0 2);
    [reflexivity|reflexivity|reflexivity].
Defined.

(** ** settings.py *)

Lemma module_settings_default : module_settings 800 650 16 16 40 = Done default_settings.
Proof. reflexivity. Qed.

(** X7: The computation of the derived constants raises ZeroDivisionError
    exactly when GRID_ROWS or GRID_COLS is 0.  For a grid with positive
    dimensions it returns settings in which the board fits the fixed 600x600
    area; the cells have a positive size exactly when neither dimension
    exceeds 600, and then fewer than GRID_COLS pixels of the width or fewer
    than GRID_ROWS pixels of the height of that area stay unused. *)
Theorem module_settings_fits WIDTH HEIGHT grid_rows grid_cols num_mines :
  (module_settings WIDTH HEIGHT grid_rows grid_cols num_mines = Raised ZeroDivisionError
   ↔ grid_rows = 0 ∨ grid_cols = 0) ∧
  (0 < grid_rows → 0 < grid_cols →
   ∃ env, module_settings WIDTH HEIGHT grid_rows grid_cols num_mines = Done env ∧
          GRID_ROWS env = grid_rows ∧ GRID_COLS env = grid_cols ∧
          NUM_MINES env = num_mines ∧
          0 ≤ CELL_SIZE env ∧
          GAME_AREA_WIDTH env ≤ 600 ∧ GAME_AREA_HEIGHT env ≤ 600 ∧
          (0 < CELL_SIZE env ↔ grid_rows ≤ 600 ∧ grid_cols ≤ 600) ∧
          (600 - grid_cols < GAME_AREA_WIDTH env ∨ 600 - grid_rows < GAME_AREA_HEIGHT env)).
Proof.
  split.
  - unfold module_settings, floordiv. cbv zeta.
    destruct (grid_cols =? 0) eqn:Ec; [apply Z.eqb_eq in Ec; by split; [right|]|].
    destruct (grid_rows =? 0) eqn:Er; [apply Z.eqb_eq in Er; by split; [left|]|].
    apply Z.eqb_neq in Ec, Er. obind. split; [done|lia].
  - intros Hr Hc. unfold module_settings, floordiv. cbv zeta.
    destruct (grid_cols =? 0) eqn:Ec; [apply Z.eqb_eq in Ec; lia|].
    destruct (grid_rows =? 0) eqn:Er; [apply Z.eqb_eq in Er; lia|].
    obind. eexists. split; [done|].
    unfold GAME_AREA_WIDTH, GAME_AREA_HEIGHT. cbn [GRID_ROWS GRID_COLS NUM_MINES CELL_SIZE].
    pose proof (Z.mul_div_le 600 grid_cols Hc).
    pose proof (Z.mul_div_le 600 grid_rows Hr).
    pose proof (Z.mul_succ_div_gt 600 grid_cols Hc).
    pose proof (Z.mul_succ_div_gt 600 grid_rows Hr).
    pose proof (Z.div_pos 600 grid_cols ltac:(lia) Hc).
    pose proof (Z.div_pos 600 grid_rows ltac:(lia) Hr).
    split_and!; [done|done|done|lia|nia|nia| |].
    + split.
      * intros Hpos. split; [destruct (decide (grid_rows ≤ 600)); [done|] |
                             destruct (decide (grid_cols ≤ 600)); [done|]].
        -- rewrite (Z.div_small 600 grid_rows) in Hpos by lia. lia.
        -- rewrite (Z.div_small 600 grid_cols) in Hpos by lia. lia.
      * intros [Hr6 Hc6].
        pose proof (Z.div_str_pos 600 grid_cols ltac:(lia)).
        pose proof (Z.div_str_pos 600 grid_rows ltac:(lia)). lia.
    + destruct (Z.min_spec (600 `div` grid_cols) (600 `div` grid_rows)) as [[_ ->]|[_ ->]];
        [left|right]; nia.
Qed.

(** X8: After a resize, update_game_area_position centres the board
    horizontally in the new window: the margin right of the board is the
    left margin or one pixel more (also when the window is narrower than the
    board and both are negative); vertically the same holds for the margins
    around the board moved down by the 25 pixel offset.  The grid constants
    and the cell size are untouched, and running it twice changes nothing
    more. *)
Theorem update_game_area_position_centres WIDTH HEIGHT env :
  let env' := update_game_area_position WIDTH HEIGHT env in
  let left_margin := GAME_AREA_X env' in
  let right_margin := WIDTH - (GAME_AREA_X env' + GAME_AREA_WIDTH env') in
  let top_margin := GAME_AREA_Y env' - 25 in
  let bottom_margin := HEIGHT - (GAME_AREA_Y env' - 25 + GAME_AREA_HEIGHT env') in
  left_margin ≤ right_margin ≤ left_margin + 1 ∧
  top_margin ≤ bottom_margin ≤ top_margin + 1 ∧
  GRID_ROWS env' = GRID_ROWS env ∧ GRID_COLS env' = GRID_COLS env ∧
  NUM_MINES env' = NUM_MINES env ∧ CELL_SIZE env' = CELL_SIZE env ∧
  update_game_area_position WIDTH HEIGHT env' = env'.
Proof.
  cbv zeta. unfold update_game_area_position, GAME_AREA_WIDTH, GAME_AREA_HEIGHT.
  cbn [GRID_ROWS GRID_COLS NUM_MINES CELL_SIZE GAME_AREA_X GAME_AREA_Y].
  pose proof (Z.div_mod (WIDTH - CELL_SIZE env * GRID_COLS env) 2 ltac:(lia)).
  pose proof (Z.mod_pos_bound (WIDTH - CELL_SIZE env * GRID_COLS env) 2 ltac:(lia)).
  pose proof (Z.div_mod (HEIGHT - CELL_SIZE env * GRID_ROWS env) 2 ltac:(lia)).
  pose proof (Z.mod_pos_bound (HEIGHT - CELL_SIZE env * GRID_ROWS env) 2 ltac:(lia)).
  split_and!; try done; lia.
Qed.

(** X9: A grid with more than 600 rows or columns gets cell size 0 from
    settings.py, and then every click on the new board raises
    ZeroDivisionError. *)
Theorem oversized_grid_click_raises WIDTH HEIGHT grid_rows grid_cols num_mines env
    draws mouse_pos button :
  0 < grid_rows → 0 < grid_cols → 600 < grid_rows ∨ 600 < grid_cols →
  module_settings WIDTH HEIGHT grid_rows grid_cols num_mines = Done env →
  handle_click env draws (init env (GRID_ROWS env) (GRID_COLS env) (NUM_MINES env))
    mouse_pos button
  = Raised ZeroDivisionError.
Proof.
  intros Hr Hc Hbig H. unfold module_settings, floordiv in H. cbv zeta in H.
  destruct (grid_cols =? 0) eqn:Ec; [done|]. destruct (grid_rows =? 0) eqn:Er; [done|].
  obind. inversion H; subst env. clear H.
  unfold handle_click. cbn [init game_over game_won orb cell_size CELL_SIZE]. cbv zeta.
  pose proof (Z.div_pos 600 grid_cols ltac:(lia) Hc).
  pose proof (Z.div_pos 600 grid_rows ltac:(lia) Hr).
  assert (Z.min (600 `div` grid_cols) (600 `div` grid_rows) = 0) as ->.
  { destruct Hbig; [rewrite (Z.div_small 600 grid_rows) by lia|
                    rewrite (Z.div_small 600 grid_cols) by lia]; lia. }
  reflexivity.
Qed.

Lemma oversized_grid_click_raises_witness :
  ∃ env, module_settings 800 650 16 601 40 = Done env ∧
         handle_click env [] (init env (GRID_ROWS env) (GRID_COLS env) (NUM_MINES env)) (0, 0) 1
         = Raised ZeroDivisionError.
Proof.
  eexists. split; [reflexivity|].
  apply (oversized_grid_click_raises 800 650 16 601 40); [lia|lia|lia|reflexivity].
Defined.

Lemma module_settings_fits_witness :
  ∃ env, module_settings 800 650 16 16 40 = Done env ∧ 0 < CELL_SIZE env.
Proof.
  destruct (module_settings_fits 800 650 16 16 40) as [_ H].
  destruct (H ltac:(lia) ltac:(lia)) as (env & He & _ & _ & _ & _ & _ & _ & Hpos & _).
  exists env. split; [exact He|]. apply Hpos. lia.
Defined.

(** ** What a click can raise *)

Lemma place_mines_not_raised draws b r c e :
  wf b → _place_mines draws b r c ≠ Raised e.
Proof.
  intros [Hg Hcs]. pose proof Hg as (HR & HC & _).
  destruct (safe_zone_spec b r c) as (sz & Hsz & Hmem).
  set (b0 := with_mines_location ∅ b).
  assert (safe_zone_of b0 r c = Done sz) as Hsz0 by exact Hsz.
  pose proof (placed_ok_start b sz Hg) as Hstart. fold b0 in Hstart.
  unfold _place_mines. fold b0. rewrite Hsz0. obind. cbv zeta.
  cbn [rows cols mines b0 with_mines_location].
  set (M := Z.min (mines b) (rows b * cols b - Z.of_nat (size sz))).
  destruct (place_loop draws sz M b0 0) as [b1|e'|] eqn:Hloop; obind; [done| |done].
  exfalso. revert Hloop. apply (place_loop_not_raised draws sz M b0 b0 0 e'); try done.
  cbn [rows cols b0 with_mines_location]. unfold M. lia.
Qed.

Lemma toggle_flag_total b r c :
  wf b → in_bounds b r c = true → ∃ b', toggle_flag b r c = Done b'.
Proof.
  intros [_ Hcs] [Hr Hc]%in_bounds_spec.
  destruct (get2_in_dims _ _ _ r c Hcs Hr Hc) as [[] Hst].
  - destruct (toggle_flag_hidden b r c Hst) as (? & _ & ->). eauto.
  - rewrite (toggle_flag_revealed b r c Hst). eauto.
  - destruct (toggle_flag_flagged b r c Hst) as (? & _ & ->). eauto.
Qed.

Lemma check_win_total b : wf b → ∃ b', _check_win b = Done b'.
Proof.
  intros Hwf. unfold _check_win. rewrite (revealed_count_spec b Hwf). obind.
  destruct (_ =? _); [|eauto].
  destruct (flag_remaining_mines_spec (with_game_over true (with_game_won true b)))
    as (b' & H & _); [by destruct Hwf; split|]. eauto.
Qed.

(** The tail of handle_click after the first-click block, on a board that
    is well-formed, for an in-range cell, returns. *)
Lemma click_tail_total b row col button :
  wf b → in_bounds b row col = true →
  ∃ b', (b ← (if button =? 1 then
                st ← get2 (cell_states b) row col;
                if negb (bool_decide (st = FLAGGED)) then reveal b row col else Done b
              else if button =? 3 then
                st ← get2 (cell_states b) row col;
                if negb (bool_decide (st = REVEALED)) then toggle_flag b row col
                else Done b
              else Done b);
         if negb (game_over b) then _check_win b else Done b) = Done b'.
Proof.
  intros Hwf Hin. pose proof Hwf as [_ Hcs]. pose proof Hin as [Hr Hc]%in_bounds_spec.
  destruct (get2_in_dims _ _ _ row col Hcs Hr Hc) as [st Hst].
  assert (∀ b1, wf b1 → ∃ b', (if negb (game_over b1) then _check_win b1 else Done b1) = Done b')
    as Hend.
  { intros b1 Hwf1. destruct (negb _); [by apply check_win_total|eauto]. }
  destruct (button =? 1); [|destruct (button =? 3)]; rewrite ?Hst; obind.
  - destruct (negb _); [|by apply Hend].
    destruct (reveal_total b row col Hwf Hin) as (b1 & -> & Hwf1). by apply Hend.
  - destruct (negb _); [|by apply Hend].
    destruct (toggle_flag_total b row col Hwf Hin) as [b1 Htog]. rewrite Htog.
    apply Hend. by eapply toggle_flag_wf.
  - by apply Hend.
Qed.

Lemma handle_click_cases env draws b mouse_pos button :
  wf b → cell_size b ≠ 0 →
  (∃ b', handle_click env draws b mouse_pos button = Done b') ∨
  (handle_click env draws b mouse_pos button = Starved ∧
   first_click b = true ∧ button = 1 ∧
   _place_mines draws b ((mouse_pos.2 - GAME_AREA_Y env) `div` cell_size b)
                        ((mouse_pos.1 - GAME_AREA_X env) `div` cell_size b) = Starved).
Proof.
  intros Hwf Hcs. unfold handle_click. destruct (game_over b || game_won b); [eauto|].
  cbv zeta. unfold floordiv. rewrite (proj2 (Z.eqb_neq _ _) Hcs). obind.
  set (col := (mouse_pos.1 - GAME_AREA_X env) `div` cell_size b).
  set (row := (mouse_pos.2 - GAME_AREA_Y env) `div` cell_size b).
  destruct (in_bounds b row col) eqn:Hin; [|eauto]. cbn [negb].
  destruct (button =? 1) eqn:Hb1.
  - destruct (first_click b) eqn:Hfc.
    + destruct (_place_mines draws b row col) as [b1|e|] eqn:Hpl.
      * left. obind. pose proof (place_mines_wf _ _ _ _ _ Hwf Hpl) as Hwf1.
        destruct (calculate_adjacent_mines_spec b1 Hwf1) as (b2 & -> & Heq & Hwf2 & _).
        obind.
        assert (in_bounds (with_first_click false b2) row col = true) as Hin2.
        { apply place_mines_frame in Hpl as (Hr1 & Hc1 & _).
          unfold in_bounds in *. cbn [rows cols with_first_click].
          rewrite Heq. cbn [rows cols with_grid]. by rewrite Hr1, Hc1. }
        assert (wf (with_first_click false b2)) as Hwf3 by (by destruct Hwf2; split).
        exact (click_tail_total _ row col 1 Hwf3 Hin2).
      * by apply place_mines_not_raised in Hpl.
      * right. apply Z.eqb_eq in Hb1. by obind.
    + left. obind. exact (click_tail_total b row col 1 Hwf Hin).
  - left. pose proof (click_tail_total b row col button Hwf Hin) as Htail.
    rewrite Hb1 in Htail. exact Htail.
Qed.

Lemma place_mines_resume b r c drawn :
  wf b → ∃ more b', _place_mines (drawn ++ more) b r c = Done b'.
Proof.
  intros [Hg Hcs]. pose proof Hg as (HR & HC & _).
  destruct (safe_zone_spec b r c) as (sz & Hsz & Hmem).
  set (b0 := with_mines_location ∅ b).
  assert (safe_zone_of b0 r c = Done sz) as Hsz0 by exact Hsz.
  assert (∀ p, p ∈ sz → in_bounds b0 p.1 p.2 = true) as Hszin.
  { intros [r' c'] Hp. by apply Hmem in Hp as (_ & _ & ?). }
  pose proof (placed_ok_start b sz Hg) as Hstart. fold b0 in Hstart.
  set (M := Z.min (mines b) (rows b * cols b - Z.of_nat (size sz))).
  destruct (place_loop_resume drawn sz M b0 b0 0 HR HC Hszin) as (more & b1 & Hloop);
    [cbn [rows cols b0 with_mines_location]; unfold M; lia|done|].
  exists more, (with_mines M b1). unfold _place_mines. fold b0. rewrite Hsz0. obind.
  cbv zeta. cbn [rows cols mines b0 with_mines_location]. fold M. by rewrite Hloop.
Qed.

(** ** The recursion limit *)

(** With fewer frames than the cascade needs the call ends in
    RecursionError; otherwise it does what it does on a deep stack. *)
Lemma reveal_within_cases frames b r c :
  reveal_within frames b r c = reveal b r c ∨
  (reveal_within frames b r c = Raised RecursionError ∧
   (frames ≤ unrevealed (cell_states b))%nat).
Proof.
  unfold reveal_within, reveal.
  set (k := unrevealed (cell_states b)).
  assert (reveal_rec (S k) b r c ≠ Starved) as Hfed by (apply reveal_rec_fed; lia).
  destruct (reveal_rec frames b r c) as [b'|e|] eqn:H.
  - left. destruct (decide (frames ≤ S k)%nat) as [Hle|Hgt].
    + rewrite (reveal_rec_more frames (S k)) by (done || by rewrite H). by rewrite H.
    + rewrite <- H. apply reveal_rec_more; [lia|done].
  - left. destruct (decide (frames ≤ S k)%nat) as [Hle|Hgt].
    + rewrite (reveal_rec_more frames (S k)) by (done || by rewrite H). by rewrite H.
    + rewrite <- H. apply reveal_rec_more; [lia|done].
  - right. split; [done|].
    destruct (decide (frames ≤ k)%nat) as [?|Hgt]; [done|].
    exfalso. revert H. apply reveal_rec_fed; lia.
Qed.

Lemma first_click_block_states draws b row col b2 :
  (if first_click b then
     b ← _place_mines draws b row col;
     b ← _calculate_adjacent_mines b;
     Done (with_first_click false b)
   else Done b) = Done b2 →
  cell_states b2 = cell_states b.
Proof.
  intros H. destruct (first_click b); [|by inversion H; subst].
  inv_bind H. inv_bind H. inversion H; subst b2.
  apply place_mines_frame in E as (_ & _ & Hcs1 & _).
  apply calculate_adjacent_mines_frame in E0 as [(_ & _ & Hcs2 & _) _].
  cbn [cell_states with_first_click]. congruence.
Qed.

Lemma handle_click_within_cases frames env draws b mouse_pos button :
  handle_click_within frames env draws b mouse_pos button
  = handle_click env draws b mouse_pos button ∨
  (handle_click_within frames env draws b mouse_pos button = Raised RecursionError ∧
   button = 1 ∧ (frames ≤ unrevealed (cell_states b))%nat).
Proof.
  unfold handle_click_within, handle_click.
  destruct (game_over b || game_won b); [by left|]. cbv zeta.
  destruct (floordiv (mouse_pos.1 - GAME_AREA_X env) (cell_size b)) as [col| |]; obind;
    [|by left..].
  destruct (floordiv (mouse_pos.2 - GAME_AREA_Y env) (cell_size b)) as [row| |]; obind;
    [|by left..].
  destruct (negb (in_bounds b row col)); [by left|].
  destruct (button =? 1) eqn:Hb1; [apply Z.eqb_eq in Hb1|by left].
  destruct (if first_click b then _ else _) as [b2| |] eqn:Hblock; obind; [|by left..].
  pose proof (first_click_block_states _ _ _ _ _ Hblock) as Hcs.
  destruct (get2 (cell_states b2) row col) as [st| |]; obind; [|by left..].
  destruct (negb (bool_decide (st = FLAGGED))); [|by left].
  destruct (reveal_within_cases frames b2 row col) as [->|[-> Hle]]; [by left|].
  right. obind. rewrite Hcs in Hle. done.
Qed.

(** X10: handle_click raises nothing but RecursionError.  On a well-formed
    board with a non-zero cell size, for every position, button and sequence
    of random draws, and whatever the number of frames left for the cascade:
    the only exception a click can raise is RecursionError, and only a left
    click with no more frames than unrevealed cells; a click with another
    button returns; with more frames than unrevealed cells a click after the
    first one returns, and for the first left click, whatever has been drawn
    so far, some continuation of the draws makes it return. *)
Theorem handle_click_raises_only_recursion_error frames env draws b mouse_pos button :
  wf b → cell_size b ≠ 0 →
  (∀ e, handle_click_within frames env draws b mouse_pos button = Raised e →
     e = RecursionError ∧ button = 1 ∧ (frames ≤ unrevealed (cell_states b))%nat) ∧
  (button ≠ 1 → ∃ b', handle_click_within frames env draws b mouse_pos button = Done b') ∧
  ((unrevealed (cell_states b) < frames)%nat → first_click b = false →
   ∃ b', handle_click_within frames env draws b mouse_pos button = Done b') ∧
  ((unrevealed (cell_states b) < frames)%nat →
   ∀ drawn, ∃ more b',
     handle_click_within frames env (drawn ++ more) b mouse_pos button = Done b').
Proof.
  intros Hwf Hcs. split_and!.
  - intros e H.
    destruct (handle_click_within_cases frames env draws b mouse_pos button)
      as [Heq|(Hr & ? & ?)]; [|rewrite Hr in H; by inversion H; subst].
    rewrite Heq in H.
    destruct (handle_click_cases env draws b mouse_pos button Hwf Hcs)
      as [[b' Hd]|[Hs _]]; congruence.
  - intros Hb.
    destruct (handle_click_within_cases frames env draws b mouse_pos button)
      as [->|(_ & ? & _)]; [|done].
    destruct (handle_click_cases env draws b mouse_pos button Hwf Hcs)
      as [?|(_ & _ & ? & _)]; done.
  - intros Hk Hfc.
    destruct (handle_click_within_cases frames env draws b mouse_pos button)
      as [->|(_ & _ & ?)]; [|lia].
    destruct (handle_click_cases env draws b mouse_pos button Hwf Hcs)
      as [?|(_ & ? & _)]; [done|congruence].
  - intros Hk drawn.
    destruct (place_mines_resume b
                ((mouse_pos.2 - GAME_AREA_Y env) `div` cell_size b)
                ((mouse_pos.1 - GAME_AREA_X env) `div` cell_size b) drawn Hwf)
      as (more & b1 & Hpl).
    exists more.
    destruct (handle_click_within_cases frames env (drawn ++ more) b mouse_pos button)
      as [->|(_ & _ & ?)]; [|lia].
    destruct (handle_click_cases env (drawn ++ more) b mouse_pos button Hwf Hcs)
      as [?|(_ & _ & _ & Hst)]; [done|]. congruence.
Qed.

Lemma wf_flagged_row : wf flagged_row.
Proof. by apply (bool_decide_unpack _). Qed.

Lemma handle_click_raises_only_recursion_error_witness :
  (∃ b', handle_click_within 8 default_settings [] flagged_row (183, 59) 1 = Done b') ∧
  handle_click_within 2 default_settings [] flagged_row (183, 59) 1 = Raised RecursionError.
Proof.
  split; [|reflexivity].
  destruct (handle_click_raises_only_recursion_error 8 default_settings [] flagged_row
              (183, 59) 1 wf_flagged_row ltac:(done)) as (_ & _ & H & _).
  apply H; [vm_compute; lia|reflexivity].
Defined.

(** ** The layout of the mines *)

Lemma filter_none {A} (P : A → Prop) `{!∀ x, Decision (P x)} (l : list A) :
  (∀ x, x ∈ l → ¬ P x) → filter P l = [].
Proof.
  induction l as [|x l IH]; intros Hall; [done|].
  rewrite filter_cons_False by (apply Hall; left). apply IH. intros y Hy. apply Hall. by right.
Qed.

Lemma get2_fresh_matrix {A} nrows ncols (x : A) r c :
  0 ≤ r < nrows → 0 ≤ c < ncols → get2 (fresh_matrix nrows ncols x) r c = Done x.
Proof.
  intros Hr Hc. rewrite get2_cellN by lia. unfold cellN, fresh_matrix.
  rewrite lookup_replicate_2 by lia. simpl. by rewrite lookup_replicate_2 by lia.
Qed.

Lemma place_mines_post draws b r c b' :
  wf b → _place_mines draws b r c = Done b' →
  Z.of_nat (size (mines_location b')) = Z.max 0 (mines b') ∧
  (∀ r' c', (r', c') ∈ mines_location b' →
     in_bounds b r' c' = true ∧ ¬ ((r - 1 ≤ r' ≤ r + 1) ∧ (c - 1 ≤ c' ≤ c + 1))) ∧
  (∀ r' c', in_bounds b r' c' = true →
     get2 (grid b') r' c'
     = if decide ((r', c') ∈ mines_location b') then Done MINE_VALUE
       else get2 (grid b) r' c').
Proof.
  intros [Hg Hcs] H. pose proof Hg as (HR & HC & _).
  destruct (safe_zone_spec b r c) as (sz & Hsz & Hmem).
  set (b0 := with_mines_location ∅ b).
  assert (safe_zone_of b0 r c = Done sz) as Hsz0 by exact Hsz.
  pose proof (placed_ok_start b sz Hg) as Hstart. fold b0 in Hstart.
  unfold _place_mines in H. fold b0 in H. rewrite Hsz0 in H. obind.
  cbv zeta in H. cbn [rows cols mines b0 with_mines_location] in H.
  set (M := Z.min (mines b) (rows b * cols b - Z.of_nat (size sz))) in *.
  inv_bind H. rename a into b1, E into Hloop. inversion H; subst b'. clear H.
  apply (place_loop_inv _ _ _ b0) in Hloop; [|done].
  destruct Hloop as (Hfr & Hd & Hsize & Hm & Hml & Hgrid).
  cbn [mines_location mines grid with_mines]. split_and!.
  - lia.
  - intros r' c' Hp. destruct (Hml _ Hp) as [Hin Hns]. cbn [fst snd] in Hin.
    split; [done|]. intros [Hr' Hc']. apply Hns, Hmem. split; [done|split; [done|exact Hin]].
  - intros r' c' Hin. by rewrite Hgrid.
Qed.

Lemma calculate_adjacent_mines_counts b b' :
  wf b → _calculate_adjacent_mines b = Done b' →
  b' = with_grid (grid b') b ∧ wf b' ∧
  (∀ r c, in_bounds b r c = true → mine_at (grid b') r c = mine_at (grid b) r c) ∧
  counts_consistent b' ∧
  (∀ r c, in_bounds b r c = true → mine_at (grid b) r c = false →
     get2 (grid b') r c = Done (adjacent_mines b r c)).
Proof.
  intros Hwf H.
  destruct (calculate_adjacent_mines_spec b Hwf) as (b'' & Hrun & Heq & Hwf' & Hcells).
  rewrite H in Hrun. inversion Hrun; subst b''. clear Hrun.
  assert (rows b' = rows b ∧ cols b' = cols b) as [Hr' Hc'] by (by rewrite Heq).
  assert (∀ r c, in_bounds b' r c = in_bounds b r c) as Hin
      by (intros; unfold in_bounds; by rewrite Hr', Hc').
  assert (∀ r c, in_bounds b r c = true →
            mine_at (grid b') r c = mine_at (grid b) r c) as Hmines.
  { intros r c Hrc. pose proof Hrc as [Hr Hc]%in_bounds_spec.
    destruct (get2_in_dims _ _ _ r c (proj1 Hwf) Hr Hc) as [v Hv].
    rewrite (mine_at_get2 _ _ _ _ Hv), (mine_at_get2 _ _ _ _ (Hcells r c v Hrc Hv)).
    destruct (v =? MINE_VALUE) eqn:Hm; [done|].
    pose proof (adjacent_mines_range b r c). unfold MINE_VALUE. apply Z.eqb_neq. lia. }
  assert (∀ r c, in_bounds b r c = true → mine_at (grid b) r c = false →
            get2 (grid b') r c = Done (adjacent_mines b r c)) as Hcount.
  { intros r c Hrc Hnm. pose proof Hrc as [Hr Hc]%in_bounds_spec.
    destruct (get2_in_dims _ _ _ r c (proj1 Hwf) Hr Hc) as [v Hv].
    rewrite (mine_at_get2 _ _ _ _ Hv) in Hnm. rewrite (Hcells r c v Hrc Hv). by rewrite Hnm. }
  split_and!; [done|done|done| |done].
  intros r c Hrc Hnm. rewrite Hin in Hrc. rewrite Hmines in Hnm by done.
  rewrite (adjacent_mines_ext b b' r c Hr' Hc' Hmines). by apply Hcount.
Qed.

(** What the first-click block of handle_click leaves: a mined board with
    no mine on the clicked cell or next to it. *)
Lemma first_click_block_mined draws b r c b1 b2 :
  wf b → blank b → in_bounds b r c = true →
  _place_mines draws b r c = Done b1 → _calculate_adjacent_mines b1 = Done b2 →
  wf b2 ∧ mined b2 ∧ rows b2 = rows b ∧ cols b2 = cols b ∧
  cell_states b2 = cell_states b ∧ game_over b2 = game_over b ∧ game_won b2 = game_won b ∧
  (∀ r' c', in_bounds b r' c' = true → (r - 1 ≤ r' ≤ r + 1) → (c - 1 ≤ c' ≤ c + 1) →
     mine_at (grid b2) r' c' = false) ∧
  get2 (grid b2) r c = Done 0.
Proof.
  intros Hwf Hblank Hin Hpl Hcalc.
  pose proof (place_mines_wf _ _ _ _ _ Hwf Hpl) as Hwf1.
  destruct (place_mines_post _ _ _ _ _ Hwf Hpl) as (Hsize & Hml & Hgrid).
  pose proof (place_mines_frame _ _ _ _ _ Hpl) as (Hr1 & Hc1 & Hcs1 & _ & _ & Hgo1 & Hgw1 & _).
  destruct (calculate_adjacent_mines_counts _ _ Hwf1 Hcalc)
    as (Heq & Hwf2 & Hmines & Hcons & Hcount).
  assert (∀ r c, in_bounds b1 r c = in_bounds b r c) as Hin1
      by (intros ??; unfold in_bounds; by rewrite Hr1, Hc1).
  assert (∀ r c, in_bounds b2 r c = in_bounds b r c) as Hin2
      by (intros ??; rewrite Heq; apply Hin1).
  assert (mines_location b2 = mines_location b1) as Hml2 by (by rewrite Heq).
  assert (∀ r' c', in_bounds b r' c' = true →
            mine_at (grid b1) r' c' = bool_decide ((r', c') ∈ mines_location b1)) as Hm1.
  { intros r' c' Hrc. unfold mine_at. rewrite (Hgrid r' c' Hrc).
    destruct (decide _) as [Hp|Hp].
    - by rewrite bool_decide_eq_true_2.
    - rewrite (Hblank r' c' Hrc). by rewrite bool_decide_eq_false_2. }
  assert (∀ r' c', in_bounds b r' c' = true → (r - 1 ≤ r' ≤ r + 1) → (c - 1 ≤ c' ≤ c + 1) →
            mine_at (grid b1) r' c' = false) as Hnear.
  { intros r' c' Hrc Hr' Hc'. rewrite (Hm1 r' c' Hrc). apply bool_decide_eq_false_2.
    intros Hp. by destruct (Hml _ _ Hp) as [_ []]. }
  split_and!.
  - done.
  - split_and!; [done| |].
    + intros r' c'. rewrite Hml2, Hin2. split.
      * intros Hp. destruct (Hml _ _ Hp) as [Hrc _]. split; [done|].
        rewrite Hmines by (by rewrite Hin1). rewrite (Hm1 _ _ Hrc).
        by apply bool_decide_eq_true_2.
      * intros [Hrc Hm]. rewrite Hmines in Hm by (by rewrite Hin1).
        rewrite (Hm1 _ _ Hrc) in Hm. by apply bool_decide_eq_true in Hm.
    + rewrite Hml2. by rewrite Heq.
  - by rewrite Heq.
  - by rewrite Heq.
  - by rewrite Heq.
  - by rewrite Heq.
  - by rewrite Heq.
  - intros r' c' Hrc Hr' Hc'. rewrite Hmines by (by rewrite Hin1). by apply Hnear.
  - pose proof Hin as [Hr Hc]%in_bounds_spec.
    rewrite (Hcount r c); [|by rewrite Hin1|apply Hnear; [done|lia|lia]].
    f_equal. unfold adjacent_mines. rewrite filter_none; [done|].
    intros [r' c'] (Hr' & Hc' & _)%elem_of_around [Hrc Hm]. cbn [fst snd] in *.
    rewrite Hin1 in Hrc. by rewrite (Hnear r' c' Hrc Hr' Hc') in Hm.
Qed.

Lemma layout_eq_refl b : layout_eq b b.
Proof. by repeat split. Qed.

Lemma layout_eq_trans b1 b2 b3 : layout_eq b1 b2 → layout_eq b2 b3 → layout_eq b1 b3.
Proof.
  intros (?&?&?&?&?&?) (?&?&?&?&?&?). unfold layout_eq. split_and!; congruence.
Qed.

Lemma laid_out_ext b b' : layout_eq b b' → wf b' → laid_out b → laid_out b'.
Proof.
  intros (Hr & Hc & Hm & Hg & Hml & Hfc) Hwf [_ H]. split; [done|]. rewrite Hfc.
  destruct (first_click b).
  - unfold blank, in_bounds in *. by rewrite Hr, Hc, Hg.
  - unfold mined, counts_consistent, adjacent_mines, in_bounds in *.
    by rewrite Hr, Hc, Hg, Hml, Hm.
Qed.

Lemma reveal_frame_layout b b' : reveal_frame b b' → layout_eq b b'.
Proof. intros (?&?&?&?&?&?&?&?&?). by repeat split. Qed.

Lemma toggle_flag_layout b r c b' : toggle_flag b r c = Done b' → layout_eq b b'.
Proof.
  intros H. unfold toggle_flag in H. inv_bind H. destruct (bool_decide _).
  - inv_bind H. inversion H; subst. by repeat split.
  - inv_bind H. destruct (bool_decide _); [|inversion H; subst; apply layout_eq_refl].
    inv_bind H. inversion H; subst. by repeat split.
Qed.

(** _check_win either changes nothing or declares the win. *)
Lemma check_win_cases b b' :
  wf b → _check_win b = Done b' →
  b' = b ∨ (game_won b' = true ∧ game_over b' = true ∧ layout_eq b b').
Proof.
  intros Hwf H. unfold _check_win in H. inv_bind H.
  destruct (a =? _); [|left; by inversion H; subst]. right.
  destruct (flag_remaining_mines_spec (with_game_over true (with_game_won true b)))
    as (b'' & H' & Heq & _); [by destruct Hwf; split|].
  rewrite H in H'. inversion H'; subst b''. rewrite Heq. by repeat split.
Qed.

Lemma check_win_layout b b' : wf b → _check_win b = Done b' → layout_eq b b'.
Proof.
  intros Hwf H. destruct (check_win_cases b b' Hwf H) as [->|(_ & _ & ?)];
    [apply layout_eq_refl|done].
Qed.

Lemma handle_click_preserves_block (I : Board → Prop) (button : Z) :
  (∀ draws b r c b1 b2, I b → in_bounds b r c = true → first_click b = true →
     button = 1 → game_over b = false → game_won b = false →
     _place_mines draws b r c = Done b1 → _calculate_adjacent_mines b1 = Done b2 →
     I (with_first_click false b2)) →
  (∀ b r c b', I b → in_bounds b r c = true → game_over b = false →
     get2 (cell_states b) r c ≠ Done FLAGGED → reveal b r c = Done b' → I b') →
  (∀ b r c b', I b → in_bounds b r c = true →
     get2 (cell_states b) r c ≠ Done REVEALED → toggle_flag b r c = Done b' → I b') →
  (∀ b b', I b → game_over b = false → _check_win b = Done b' → I b') →
  ∀ env draws b mouse_pos b',
    I b → handle_click env draws b mouse_pos button = Done b' → I b'.
Proof.
  intros Hblock Hreveal Htoggle Hwin env draws b mouse_pos b' Hb H.
  unfold handle_click in H.
  destruct (game_over b || game_won b) eqn:Hfin; [by inversion H; subst|].
  apply orb_false_iff in Hfin as [Hover Hwon].
  cbv beta zeta in H. inv_bind H. rename a into col. inv_bind H. rename a into row.
  destruct (in_bounds b row col) eqn:Hin; [|by inversion H; subst].
  cbn [negb] in H. inv_bind H. rename a into b1, E1 into Hstep.
  assert (I b1) as Hb1.
  { destruct (button =? 1) eqn:Hb1; [apply Z.eqb_eq in Hb1|].
    - inv_bind Hstep. rename a into b2, E1 into Hinit.
      assert (I b2 ∧ rows b2 = rows b ∧ cols b2 = cols b ∧ game_over b2 = game_over b)
        as (Hb2 & Hr & Hc & Hgo).
      { destruct (first_click b) eqn:Hfc; [|by inversion Hinit; subst].
        inv_bind Hinit. inv_bind Hinit. inversion Hinit; subst b2.
        pose proof (place_mines_frame _ _ _ _ _ E1) as (? & ? & _ & _ & _ & ? & _).
        pose proof (calculate_adjacent_mines_frame _ _ E2) as ((? & ? & _ & _ & _ & ? & _) & _).
        split; [exact (Hblock _ b row col _ _ Hb Hin Hfc Hb1 Hover Hwon E1 E2)|].
        cbn [rows cols game_over with_first_click].
        split_and!; congruence. }
      inv_bind Hstep. rename a into st, E1 into Hst.
      case_bool_decide as Hfl; cbn [negb] in Hstep; [by inversion Hstep; subst|].
      eapply (Hreveal b2 row col); [done| |congruence| |done].
      + unfold in_bounds in *. by rewrite Hr, Hc.
      + rewrite Hst. congruence.
    - destruct (button =? 3); [|by inversion Hstep; subst].
      inv_bind Hstep. rename a into st, E1 into Hst.
      case_bool_decide as Hrv; cbn [negb] in Hstep; [by inversion Hstep; subst|].
      eapply (Htoggle b row col); [done|done| |done]. rewrite Hst. congruence. }
  destruct (game_over b1) eqn:Hover1; cbn [negb] in H; [by inversion H; subst|].
  by eapply Hwin.
Qed.

Lemma handle_click_laid_out env draws b mouse_pos button b' :
  laid_out b → handle_click env draws b mouse_pos button = Done b' → laid_out b'.
Proof.
  apply (handle_click_preserves_block laid_out).
  - intros ? t r c t1 t2 [Hwf Ht] Hin Hfc _ _ _ Hpl Hcalc. rewrite Hfc in Ht.
    destruct (first_click_block_mined _ _ _ _ _ _ Hwf Ht Hin Hpl Hcalc)
      as (Hwf2 & Hmined & _).
    split; [by destruct Hwf2; split|]. exact Hmined.
  - intros t r c t' Ht _ _ _ H. pose proof (reveal_rec_wf _ _ _ _ _ (proj1 Ht) H).
    apply reveal_rec_opens in H as [Hfr _]. apply (laid_out_ext t); [|done|done].
    by apply reveal_frame_layout.
  - intros t r c t' Ht _ _ H. pose proof (toggle_flag_wf _ _ _ _ (proj1 Ht) H).
    apply (laid_out_ext t); [|done|done]. by eapply toggle_flag_layout.
  - intros t t' Ht _ H. pose proof (check_win_wf _ _ (proj1 Ht) H).
    apply (laid_out_ext t); [|done|done]. by apply check_win_layout; [apply Ht|].
Qed.

Lemma run_laid_out o b b' : sane o → laid_out b → run o b = Done b' → laid_out b'.
Proof.
  destruct o; cbn [run sane]; intros Hs Hb H.
  - by eapply handle_click_laid_out.
  - pose proof (reveal_rec_wf _ _ _ _ _ (proj1 Hb) H).
    apply reveal_rec_opens in H as [Hfr _]. apply (laid_out_ext b); [|done|done].
    by apply reveal_frame_layout.
  - pose proof (toggle_flag_wf _ _ _ _ (proj1 Hb) H).
    apply (laid_out_ext b); [|done|done]. by eapply toggle_flag_layout.
  - pose proof (check_win_wf _ _ (proj1 Hb) H).
    apply (laid_out_ext b); [|done|done]. by apply check_win_layout; [apply Hb|].
  - pose proof (reveal_all_mines_wf _ _ (proj1 Hb) H).
    apply reveal_all_mines_opens in H as [Heq _].
    apply (laid_out_ext b); [|done|done]. rewrite Heq. by repeat split.
  - destruct Hs as [HR HC]. inversion H; subst b'. split; [by apply reset_wf|].
    intros r c [Hr Hc]%in_bounds_spec. by apply get2_fresh_matrix.
Qed.

(** The number of mine cells of a mined board. *)
Lemma mined_count b :
  mined b → count_positions b (λ p, mine_at (grid b) p.1 p.2) = Z.max 0 (mines b).
Proof.
  intros (_ & Hml & Hsize). rewrite <- Hsize. unfold count_positions. f_equal.
  rewrite <- (size_list_to_set (C := gset (Z * Z))).
  - f_equal. apply set_eq. intros [r c].
    rewrite elem_of_list_to_set, list_elem_of_filter, elem_of_positions, Hml. cbn [fst snd].
    tauto.
  - apply NoDup_filter, NoDup_pairs; apply NoDup_seqZ.
Qed.

(** X11: The mines are laid out once and consistently: in every board reached
    from a board constructed with non-negative dimensions (by clicks, direct
    calls of the other methods and resets to non-negative dimensions), the
    grid is all zero as long as first_click is set, and afterwards
    mines_location is exactly the set of in-range cells that hold the mine
    marker, it has max(0, mines) elements, which is also the number of mine
    cells of the grid, and every other in-range cell holds the count of the
    mines among its neighbours. *)
Theorem reachable_laid_out env nrows ncols nmines b :
  0 ≤ nrows → 0 ≤ ncols →
  reachable_if (λ o _, sane o) (init env nrows ncols nmines) b →
  if first_click b then blank b
  else counts_consistent b ∧
       (∀ r c, (r, c) ∈ mines_location b
               ↔ in_bounds b r c = true ∧ mine_at (grid b) r c = true) ∧
       Z.of_nat (size (mines_location b)) = Z.max 0 (mines b) ∧
       count_positions b (λ p, mine_at (grid b) p.1 p.2) = Z.max 0 (mines b).
Proof.
  intros HR HC Hreach.
  assert (laid_out b) as [_ Hb].
  { induction Hreach as [|b o b' _ IH Hs Hrun].
    - split; [by apply init_wf|]. intros r c [Hr Hc]%in_bounds_spec.
      by apply get2_fresh_matrix.
    - by eapply run_laid_out. }
  destruct (first_click b); [done|].
  pose proof (mined_count b Hb). destruct Hb as (? & ? & ?). done.
Qed.

Lemma reachable_laid_out_witness :
  counts_consistent lost_board ∧
  count_positions lost_board (λ p, mine_at (grid lost_board) p.1 p.2) = 2.
Proof.
  pose proof (reachable_laid_out default_settings 1 6 2 lost_board
                ltac:(lia) ltac:(lia) lost_board_reachable_if) as H.
  cbn [first_click lost_board] in H. destruct H as (H1 & _ & _ & H2). split; [exact H1|exact H2].
Defined.

(** ** Safe reveals *)

Lemma reveal_non_mine b r c b' :
  wf b → counts_consistent b → game_over b = false →
  in_bounds b r c = true → mine_at (grid b) r c = false →
  reveal b r c = Done b' →
  wf b' ∧ reveal_frame b b' ∧ game_over b' = false ∧
  get2 (cell_states b') r c = Done REVEALED.
Proof.
  intros Hwf Hcons Hover Hin Hnm H.
  pose proof Hin as [Hr Hc]%in_bounds_spec.
  destruct (get2_in_dims _ _ _ r c (proj2 Hwf) Hr Hc) as [st Hst].
  destruct (decide (st = REVEALED)) as [->|Hne].
  - apply reveal_rec_opens in H as [Hfr [[_ ->]|(old & _ & _ & Hold & Hne & _)]]; [done|].
    congruence.
  - apply (reveal_rec_cascade _ b (r, c)) in H; [|done..|cbn [fst snd]; congruence].
    destruct H as (? & ? & ? & ? & _). done.
Qed.

(** X12: revealing a cell that holds no mine never ends the game.  On a
    well-formed board whose grid holds the neighbour counts, with game_over
    unset, take reveal on an in-range cell without a mine, with any number
    of frames left for the cascade: a call that returns gives a well-formed
    board with game_over still unset and that cell REVEALED, having written
    nothing but cell states, whatever the cascade opened; the only exception
    it can raise is RecursionError, and only with no more frames than
    unrevealed cells; with room for max(1, k) frames, k the number of
    unrevealed cells, it returns. *)
Theorem reveal_safe_cell frames b r c :
  wf b → counts_consistent b → game_over b = false →
  in_bounds b r c = true → mine_at (grid b) r c = false →
  (∀ b', reveal_within frames b r c = Done b' →
     wf b' ∧ reveal_frame b b' ∧ game_over b' = false ∧
     get2 (cell_states b') r c = Done REVEALED) ∧
  (∀ e, reveal_within frames b r c = Raised e →
     e = RecursionError ∧ (frames ≤ unrevealed (cell_states b))%nat) ∧
  ((1 ≤ frames)%nat → (unrevealed (cell_states b) ≤ frames)%nat →
   ∃ b', reveal_within frames b r c = Done b').
Proof.
  intros Hwf Hcons Hover Hin Hnm.
  destruct (reveal_total b r c Hwf Hin) as (b1 & Hideal & _).
  split_and!.
  - intros b' H. apply reveal_non_mine; try done.
    destruct (reveal_within_cases frames b r c) as [Heq|[Hr _]]; congruence.
  - intros e H. destruct (reveal_within_cases frames b r c) as [Heq|[Hr Hle]].
    + congruence.
    + rewrite Hr in H. by inversion H; subst.
  - intros H1 Hk. unfold reveal_within.
    destruct (reveal_rec_total frames b r c Hwf Hin H1 Hk) as (b' & -> & _). by exists b'.
Qed.

Lemma counts_consistent_opened_board : counts_consistent opened_board.
Proof. by apply (bool_decide_unpack _). Qed.

Lemma reveal_safe_cell_witness :
  ∃ b', reveal_within 3 opened_board 0 4 = Done b' ∧ game_over b' = false ∧
        get2 (cell_states b') 0 4 = Done REVEALED.
Proof.
  destruct (reveal_safe_cell 3 opened_board 0 4 wf_opened_board counts_consistent_opened_board
              eq_refl eq_refl eq_refl) as (Hpost & _ & Hret).
  destruct Hret as [b' H]; [lia|vm_compute; lia|].
  destruct (Hpost b' H) as (_ & _ & H1 & H2).
  exists b'. split_and!; [exact H|exact H1|exact H2].
Defined.

(** X13: The first left click is safe.  On a well-formed unfinished board with a
    blank grid and first_click set, a left click on a cell of the board that
    returns has laid the mines with none on the clicked cell or next to it,
    has cleared first_click, has not lost the game (game_over is set only
    together with game_won), and has left the clicked cell REVEALED unless
    it was FLAGGED. *)
Theorem first_click_is_safe env draws b mouse_pos b' :
  let row := (mouse_pos.2 - GAME_AREA_Y env) `div` cell_size b in
  let col := (mouse_pos.1 - GAME_AREA_X env) `div` cell_size b in
  wf b → blank b → first_click b = true →
  game_over b = false → game_won b = false → cell_size b ≠ 0 →
  in_bounds b row col = true →
  handle_click env draws b mouse_pos 1 = Done b' →
  first_click b' = false ∧ mined b' ∧
  (∀ r' c', in_bounds b r' c' = true →
     row - 1 ≤ r' ≤ row + 1 → col - 1 ≤ c' ≤ col + 1 → mine_at (grid b') r' c' = false) ∧
  (game_over b' = true → game_won b' = true) ∧
  (get2 (cell_states b) row col ≠ Done FLAGGED →
   get2 (cell_states b') row col = Done REVEALED).
Proof.
  intros row col Hwf Hblank Hfc Hover Hwon Hcs Hin H.
  unfold handle_click in H. rewrite Hover, Hwon in H. cbn [orb] in H. cbv zeta in H.
  unfold floordiv in H. rewrite (proj2 (Z.eqb_neq _ _) Hcs) in H. obind.
  fold row col in H. rewrite Hin in H. cbn [negb] in H.
  change (1 =? 1) with true in H. cbv iota in H. rewrite Hfc in H.
  inv_bind H. rename a into b3, E into Hstep.
  inv_bind Hstep. rename a into t, E into Hinit.
  inv_bind Hinit. rename a into b1, E into Hpl.
  inv_bind Hinit. rename a into b2, E into Hcalc. inversion Hinit; subst t. clear Hinit.
  destruct (first_click_block_mined _ _ _ _ _ _ Hwf Hblank Hin Hpl Hcalc)
    as (Hwf2 & Hmined & Hr2 & Hc2 & Hcs2 & Hgo2 & Hgw2 & Hnear & Hzero).
  set (t := with_first_click false b2) in *.
  assert (wf t) as Hwft by (by destruct Hwf2; split).
  assert (in_bounds t row col = true) as Hint.
  { unfold in_bounds in *. cbn [t rows cols with_first_click]. by rewrite Hr2, Hc2. }
  assert (wf b3 ∧ layout_eq t b3 ∧ game_over b3 = false ∧ game_won b3 = false ∧
          (get2 (cell_states b) row col ≠ Done FLAGGED →
           get2 (cell_states b3) row col = Done REVEALED))
    as (Hwf3 & Hlay3 & Hover3 & Hwon3 & Hst3).
  { inv_bind Hstep. rename a into st, E into Hst.
    cbn [t cell_states with_first_click] in Hst. rewrite Hcs2 in Hst.
    case_bool_decide as Hfl; cbn [negb] in Hstep.
    - inversion Hstep; subst b3. split_and!; [done|apply layout_eq_refl| | |].
      + cbn [t game_over with_first_click]. congruence.
      + cbn [t game_won with_first_click]. congruence.
      + intros Hnf. congruence.
    - destruct (reveal_non_mine t row col b3) as (? & Hfr & ? & ?); [done|apply Hmined| | |
        |done|].
      + cbn [t game_over with_first_click]. congruence.
      + done.
      + cbn [t grid with_first_click]. apply Hnear; [done|lia|lia].
      + split_and!; [done|by apply reveal_frame_layout|done| |done].
        destruct Hfr as (_ & _ & _ & _ & _ & _ & _ & -> & _).
        cbn [t game_won with_first_click]. congruence. }
  rewrite Hover3 in H. cbn [negb] in H.
  destruct Hlay3 as (Hr3 & Hc3 & Hm3 & Hg3 & Hml3 & Hfc3).
  assert (layout_eq b3 b') as Hlay by (by apply check_win_layout).
  pose proof (check_win_wf _ _ Hwf3 H) as Hwf'.
  assert (laid_out b') as [_ Hb'].
  { apply (laid_out_ext t); [|done|].
    - eapply layout_eq_trans; [|exact Hlay]. by repeat split.
    - split; [done|]. exact Hmined. }
  destruct Hlay as (Hr' & Hc' & Hm' & Hg' & Hml' & Hfc').
  assert (first_click b' = false) as Hfc''.
  { rewrite Hfc', Hfc3. done. }
  rewrite Hfc'' in Hb'.
  split_and!; [done|done| | |].
  - intros r' c' Hrc Hr Hc. rewrite Hg', Hg3. cbn [t grid with_first_click]. by apply Hnear.
  - destruct (check_win_cases b3 b' Hwf3 H) as [->|(? & _)]; [congruence|done].
  - intros Hnf.
    assert (open_at row col b3) as Hopen.
    { split_and!; [done| |by apply Hst3]. unfold in_bounds in *. by rewrite Hr3, Hc3. }
    by destruct (check_win_open_at row col b3 b' Hopen H) as (_ & _ & ?).
Qed.

Lemma first_click_is_safe_witness :
  ∃ b', handle_click default_settings [0; 4] (init default_settings 1 5 1) (109, 59) 1 = Done b'
        ∧ first_click b' = false
        ∧ get2 (cell_states b') 0 0 = Done REVEALED.
Proof.
  eexists. split; [vm_compute; reflexivity|].
  edestruct (first_click_is_safe default_settings [0; 4] (init default_settings 1 5 1) (109, 59))
    as (H1 & _ & _ & _ & H2).
  - apply init_wf; lia.
  - intros r c [Hr Hc]%in_bounds_spec. by apply get2_fresh_matrix.
  - reflexivity.
  - reflexivity.
  - reflexivity.
  - done.
  - reflexivity.
  - vm_compute. reflexivity.
  - split; [exact H1|]. apply H2. done.
Defined.

(** ** Mine placement happens once *)

(** X14: Only the first left click lays mines and consumes random draws: when
    first_click is unset or the button is not 1, handle_click does not
    depend on the draws, and when it returns, rows, cols, mines, the grid,
    mines_location and first_click are what they were. *)
Theorem mines_are_laid_once env draws b mouse_pos button :
  wf b → first_click b = false ∨ button ≠ 1 →
  handle_click env draws b mouse_pos button = handle_click env [] b mouse_pos button ∧
  ∀ b', handle_click env draws b mouse_pos button = Done b' → layout_eq b b'.
Proof.
  intros Hwf Hcase. split.
  - unfold handle_click.
    destruct Hcase as [Hfc|Hb]; [by rewrite Hfc|by rewrite (proj2 (Z.eqb_neq _ _) Hb)].
  - intros b' H.
    cut (wf b' ∧ layout_eq b b'); [by intros [_ ?]|]. revert H.
    apply (handle_click_preserves_block (λ t, wf t ∧ layout_eq b t) button).
    + intros ? t ???? [_ (_ & _ & _ & _ & _ & Hfc)] _ Hfct Hb _ _ _ _.
      destruct Hcase; congruence.
    + intros t r c t' [Hwft Hlay] _ _ _ H. split; [by eapply reveal_rec_wf|].
      apply reveal_rec_opens in H as [Hfr _].
      eapply layout_eq_trans; [exact Hlay|]. by apply reveal_frame_layout.
    + intros t r c t' [Hwft Hlay] _ _ H. split; [by eapply toggle_flag_wf|].
      eapply layout_eq_trans; [exact Hlay|]. by eapply toggle_flag_layout.
    + intros t t' [Hwft Hlay] _ H. split; [by eapply check_win_wf|].
      eapply layout_eq_trans; [exact Hlay|]. by apply check_win_layout.
    + split; [done|apply layout_eq_refl].
Qed.

Lemma mines_are_laid_once_witness :
  ∃ b', handle_click default_settings [7; 7] opened_board (252, 59) 1 = Done b'
        ∧ grid b' = grid opened_board.
Proof.
  destruct (mines_are_laid_once default_settings [7; 7] opened_board (252, 59) 1
              wf_opened_board (or_introl eq_refl)) as [_ H].
  eexists. split; [vm_compute; reflexivity|].
  edestruct H as (_ & _ & _ & Hg & _); [vm_compute; reflexivity|exact Hg].
Defined.

(** ** The safe zone and the number of mines *)

Lemma safe_zone_size (b : Board) (r c : Z) (sz : gset (Z * Z)) :
  (∀ r' c', (r', c') ∈ sz ↔
     (r - 1 ≤ r' ≤ r + 1) ∧ (c - 1 ≤ c' ≤ c + 1) ∧ in_bounds b r' c' = true) →
  (size sz ≤ 9)%nat ∧ (in_bounds b r c = true → (1 ≤ size sz)%nat).
Proof.
  intros Hmem. split.
  - set (l := pairs (seqZ (r - 1) 3) (seqZ (c - 1) 3)).
    assert (sz ⊆ (list_to_set l : gset (Z * Z))) as Hsub.
    { intros [r' c'] (Hr & Hc & _)%Hmem. apply elem_of_list_to_set, elem_of_pairs.
      rewrite !elem_of_seqZ. lia. }
    apply subseteq_size in Hsub. rewrite size_list_to_set in Hsub.
    + unfold l in Hsub. by rewrite length_pairs, !length_seqZ in Hsub.
    + apply NoDup_pairs; apply NoDup_seqZ.
  - intros Hin. assert ((r, c) ∈ sz) as Hp by (apply Hmem; split; [lia|split; [lia|done]]).
    assert (size sz ≠ 0%nat); [|lia]. intros H0%size_empty_inv. by apply H0 in Hp.
Qed.

(** X15: The safe zone around the first click has at most 9 cells, and at least
    one when the click is on the board.  So on a well-formed board with at
    least 9 more cells than the non-negative number of mines asked for (the
    16x16 board with 40 mines of settings.py is one), _place_mines never
    prints its warning, and whenever it returns, [mines] is unchanged and
    exactly that many distinct mines are placed. *)
Theorem enough_room_places_all b r c :
  wf b → 0 ≤ mines b →
  ∃ safe_zone,
    safe_zone_of b r c = Done safe_zone ∧
    (size safe_zone ≤ 9)%nat ∧
    (in_bounds b r c = true → (1 ≤ size safe_zone)%nat) ∧
    (mines b + 9 ≤ rows b * cols b →
     _place_mines_warns b r c = Done false ∧
     ∀ draws b', _place_mines draws b r c = Done b' →
       mines b' = mines b ∧ Z.of_nat (size (mines_location b')) = mines b).
Proof.
  intros Hwf Hm. destruct (safe_zone_spec b r c) as (sz & Hsz & Hmem).
  destruct (safe_zone_size b r c sz Hmem) as [H9 H1].
  exists sz. split_and!; [done|done|done|]. intros Hroom.
  assert (Z.min (mines b) (rows b * cols b - Z.of_nat (size sz)) = mines b) as HM by lia.
  split.
  - unfold _place_mines_warns. rewrite Hsz. obind. cbv zeta. rewrite HM.
    by rewrite Z.ltb_irrefl.
  - intros draws b' H.
    destruct (place_mines_post _ _ _ _ _ Hwf H) as (Hsize & _).
    assert (mines b' = mines b) as Hmb; [|split; [done|lia]].
    unfold _place_mines in H.
    assert (safe_zone_of (with_mines_location ∅ b) r c = Done sz) as Hsz0 by exact Hsz.
    rewrite Hsz0 in H. obind. cbv zeta in H.
    cbn [rows cols mines with_mines_location] in H. rewrite HM in H.
    inv_bind H. by inversion H; subst.
Qed.

Lemma enough_room_places_all_witness :
  let b := init default_settings 16 16 40 in
  _place_mines_warns b 0 0 = Done false.
Proof.
  destruct (enough_room_places_all (init default_settings 16 16 40) 0 0) as (sz & _ & _ & _ & H).
  - apply init_wf; lia.
  - cbn. lia.
  - apply H. cbn. lia.
Defined.

(** ** Indices in direct calls *)

Lemma py_index_mod len i :
  py_index len i = if bool_decide (- Z.of_nat len ≤ i < Z.of_nat len)
                   then Some (Z.to_nat (i `mod` Z.of_nat len)) else None.
Proof.
  unfold py_index. repeat case_bool_decide; try lia; try done.
  - by rewrite Z.mod_small by lia.
  - do 2 f_equal. rewrite <- (Z.mod_add i 1) by lia. rewrite Z.mod_small by lia. lia.
Qed.

Lemma locate_index {A} (m : list (list A)) nrows ncols r c :
  has_dims m nrows ncols →
  locate m r c = if bool_decide ((- nrows ≤ r < nrows) ∧ (- ncols ≤ c < ncols))
                 then locate m (r `mod` nrows) (c `mod` ncols) else None.
Proof.
  intros (HR & HC & Hlen & Hrows). unfold locate. rewrite !py_index_mod, Hlen.
  rewrite !Z2Nat.id by done.
  destruct (bool_decide (- nrows ≤ r < nrows)) eqn:Er.
  - apply bool_decide_eq_true in Er.
    pose proof (Z.mod_pos_bound r nrows ltac:(lia)) as Hrm.
    rewrite (bool_decide_eq_true_2 (- nrows ≤ r `mod` nrows < nrows)) by lia.
    rewrite Z.mod_mod by lia. simpl.
    destruct (m !! Z.to_nat (r `mod` nrows)) as [row|] eqn:Hrow; simpl.
    + assert (length row = Z.to_nat ncols) as ->.
      { eapply Forall_forall in Hrows; [done|]. by eapply list_elem_of_lookup_2. }
      rewrite !py_index_mod, !Z2Nat.id by done.
      destruct (bool_decide (- ncols ≤ c < ncols)) eqn:Ec.
      * apply bool_decide_eq_true in Ec.
        pose proof (Z.mod_pos_bound c ncols ltac:(lia)) as Hcm.
        rewrite (bool_decide_eq_true_2 (- ncols ≤ c `mod` ncols < ncols)) by lia.
        rewrite Z.mod_mod by lia. by rewrite bool_decide_eq_true_2.
      * apply bool_decide_eq_false in Ec. simpl. by rewrite bool_decide_eq_false_2 by tauto.
    + by case_bool_decide.
  - apply bool_decide_eq_false in Er. simpl. by rewrite bool_decide_eq_false_2 by tauto.
Qed.

(** X16: Indices in a direct call of toggle_flag follow Python's list indexing,
    with no bounds check of the method's own: on a well-formed board, a row
    in [-rows, rows) and a column in [-cols, cols) name the cell at (row mod
    rows, col mod cols), so negative indices count from the end, and the
    call returns; any other pair of indices raises IndexError. *)
Theorem toggle_flag_indices b r c :
  wf b →
  if bool_decide ((- rows b ≤ r < rows b) ∧ (- cols b ≤ c < cols b))
  then toggle_flag b r c = toggle_flag b (r `mod` rows b) (c `mod` cols b)
       ∧ ∃ b', toggle_flag b r c = Done b'
  else toggle_flag b r c = Raised IndexError.
Proof.
  intros Hwf. pose proof Hwf as [_ Hcs].
  pose proof (locate_index (cell_states b) _ _ r c Hcs) as Hloc.
  case_bool_decide as Hrange.
  - assert (toggle_flag b r c = toggle_flag b (r `mod` rows b) (c `mod` cols b)) as Heq.
    { unfold toggle_flag. by rewrite !get2_locate, !set2_locate, Hloc. }
    split; [done|]. rewrite Heq. apply toggle_flag_total; [done|].
    apply in_bounds_spec.
    pose proof (Z.mod_pos_bound r (rows b) ltac:(lia)).
    pose proof (Z.mod_pos_bound c (cols b) ltac:(lia)). lia.
  - unfold toggle_flag. by rewrite get2_locate, Hloc.
Qed.

Lemma toggle_flag_indices_witness :
  toggle_flag flagged_row (-1) (-6) = toggle_flag flagged_row 0 1 ∧
  toggle_flag flagged_row 1 0 = Raised IndexError.
Proof.
  split.
  - pose proof (toggle_flag_indices flagged_row (-1) (-6) wf_flagged_row) as H.
    rewrite bool_decide_eq_true_2 in H by (cbn; lia). exact (proj1 H).
  - pose proof (toggle_flag_indices flagged_row 1 0 wf_flagged_row) as H.
    rewrite bool_decide_eq_false_2 in H by (cbn; lia). exact H.
Defined.

(** ** _check_win twice *)

Lemma filter_ext_in {A} (P Q : A → Prop) `{!∀ x, Decision (P x)} `{!∀ x, Decision (Q x)}
    (l : list A) :
  (∀ x, x ∈ l → (P x ↔ Q x)) → filter P l = filter Q l.
Proof.
  induction l as [|x l IH]; intros Hall; [done|].
  rewrite !filter_cons. rewrite IH by (intros y Hy; apply Hall; by right).
  pose proof (Hall x ltac:(left)) as Hx.
  destruct (decide (P x)), (decide (Q x)); tauto.
Qed.

Lemma count_positions_ext b b' (P Q : Z * Z → bool) :
  rows b' = rows b → cols b' = cols b →
  (∀ r c, in_bounds b r c = true → P (r, c) = Q (r, c)) →
  count_positions b' P = count_positions b Q.
Proof.
  intros Hr Hc Hext. unfold count_positions, positions. rewrite Hr, Hc. do 2 f_equal.
  apply filter_ext_in. intros [r c] Hp%elem_of_positions. by rewrite Hext.
Qed.

(** X17: _check_win is idempotent: on a well-formed board, running it again on
    its own result changes nothing; in particular a win is declared again
    without any flag being counted twice. *)
Theorem check_win_idempotent b b1 :
  wf b → _check_win b = Done b1 → _check_win b1 = Done b1.
Proof.
  intros Hwf H. pose proof H as H0. unfold _check_win in H.
  rewrite (revealed_count_spec b Hwf) in H. obind. cbv zeta in H.
  destruct (_ =? _) eqn:Hn; [|by inversion H; subst].
  apply Z.eqb_eq in Hn.
  set (b0 := with_game_over true (with_game_won true b)) in *.
  assert (wf b0) as Hwf0 by (by destruct Hwf; split).
  destruct (flag_remaining_mines_spec b0 Hwf0) as (b1' & H' & Heq & Hwf1 & _ & Hcells).
  rewrite H in H'. inversion H'; subst b1'. clear H'.
  assert (rows b1 = rows b ∧ cols b1 = cols b ∧ mines b1 = mines b ∧ grid b1 = grid b ∧
          game_over b1 = true ∧ game_won b1 = true) as (Hr & Hc & Hm & Hg & Hgo & Hgw)
    by (by rewrite Heq).
  assert (∀ r c, in_bounds b1 r c = in_bounds b r c) as Hin
      by (intros ??; unfold in_bounds; by rewrite Hr, Hc).
  assert (∀ r c, in_bounds b r c = true →
            ∃ st, get2 (cell_states b) r c = Done st ∧
                  get2 (cell_states b1) r c
                  = Done (if mine_at (grid b) r c && bool_decide (st = HIDDEN)
                          then FLAGGED else st)) as Hcell.
  { intros r c Hrc. pose proof Hrc as [Hr' Hc']%in_bounds_spec.
    destruct (get2_in_dims _ _ _ r c (proj2 Hwf) Hr' Hc') as [st Hst].
    exists st. split; [done|]. by apply (Hcells r c st). }
  unfold _check_win. rewrite (revealed_count_spec b1 Hwf1). obind. cbv zeta.
  rewrite (count_positions_ext b b1 _
             (λ p, state_at b REVEALED p.1 p.2 && negb (mine_at (grid b) p.1 p.2))); [|done|done|].
  2:{ intros r c Hrc. cbn [fst snd]. rewrite Hg.
      destruct (Hcell r c Hrc) as (st & Hst & Hst1).
      rewrite (state_at_get2 _ _ _ _ _ Hst), (state_at_get2 _ _ _ _ _ Hst1).
      destruct (mine_at (grid b) r c); [by rewrite !andb_false_r|].
      done. }
  rewrite Hr, Hc, Hm, Hn, Z.eqb_refl.
  assert (with_game_over true (with_game_won true b1) = b1) as ->.
  { destruct b1. cbn in Hgo, Hgw. by subst. }
  destruct (flag_remaining_mines_spec b1 Hwf1) as (b2 & H2 & Heq2 & Hwf2 & Hfp2 & Hcells2).
  rewrite H2. f_equal.
  assert (count_positions b1 (λ p, mine_at (grid b1) p.1 p.2 && state_at b1 HIDDEN p.1 p.2) = 0)
    as Hzero.
  { unfold count_positions. rewrite filter_none; [done|].
    intros [r c] Hp%elem_of_positions. cbn [fst snd]. rewrite Hin in Hp.
    destruct (Hcell r c Hp) as (st & Hst & Hst1).
    rewrite (state_at_get2 _ _ _ _ _ Hst1), Hg.
    destruct (mine_at (grid b) r c); [|done].
    destruct st; cbn; done. }
  assert (cell_states b2 = cell_states b1) as Hcs2.
  { apply (matrix_ext _ _ (rows b1) (cols b1)).
    - assert (rows b2 = rows b1 ∧ cols b2 = cols b1) as [<- <-] by (by rewrite Heq2).
      apply Hwf2.
    - apply Hwf1.
    - intros r c Hr' Hc'.
      assert (in_bounds b r c = true) as Hrc by (rewrite <- Hin; by apply in_bounds_spec).
      destruct (Hcell r c Hrc) as (st & Hst & Hst1).
      rewrite (Hcells2 r c _ (proj2 (in_bounds_spec _ _ _) (conj Hr' Hc')) Hst1).
      rewrite Hst1, Hg. f_equal.
      destruct (mine_at (grid b) r c); [|done]. destruct st; done. }
  rewrite Heq2, Hcs2, Hfp2, Hzero, Z.add_0_r. by destruct b1.
Qed.

Lemma wf_cleared_board : wf cleared_board.
Proof. by apply (bool_decide_unpack _). Qed.

Lemma check_win_idempotent_witness :
  ∃ b1, _check_win cleared_board = Done b1 ∧ game_won b1 = true ∧ _check_win b1 = Done b1.
Proof.
  eexists. split; [vm_compute; reflexivity|]. split; [reflexivity|].
  apply (check_win_idempotent cleared_board); [apply wf_cleared_board|vm_compute; reflexivity].
Defined.

(** ** A lost game shows a mine *)

Lemma mine_revealed_open_at b b' :
  grid b' = grid b →
  (∀ r c, open_at r c b → open_at r c b') →
  wf b → mine_revealed b → mine_revealed b'.
Proof.
  intros Hg Hopen Hwf (r & c & Hin & Hst & Hm).
  destruct (Hopen r c) as (_ & Hin' & Hst'); [done|].
  exists r, c. by rewrite Hg.
Qed.

Lemma reveal_rec_explained fuel b r c b' :
  explained b → reveal_rec fuel b r c = Done b' → explained b'.
Proof.
  revert b r c b'. induction fuel as [|fuel IH]; intros b r c b' Hb H; [done|].
  rewrite reveal_rec_S in H. destruct (game_over b) eqn:Hover; [by inversion H; subst|].
  destruct Hb as [Hwf _]. pose proof Hwf as [Hg Hcs].
  inv_bind H. rename a into st, E into Hst.
  destruct (bool_decide (st = REVEALED)); [inversion H; subst; split; [done|congruence]|].
  inv_bind H. rename a into cs1, E into Hset. cbv zeta in H.
  cbn [grid with_cell_states] in H. inv_bind H. rename a into v, E into Hv.
  assert (wf (with_cell_states cs1 b)) as Hwf1.
  { split; [done|]. by eapply set2_dims. }
  destruct (v =? MINE_VALUE) eqn:Hmine.
  - pose proof (locate_index (cell_states b) _ _ r c Hcs) as Hloc.
    pose proof (locate_index (grid b) _ _ r c Hg) as Hlocg.
    destruct (bool_decide _) eqn:Hrange.
    2:{ rewrite get2_locate, Hloc in Hst. done. }
    apply bool_decide_eq_true in Hrange as [Hr Hc].
    set (r' := r `mod` rows b) in *. set (c' := c `mod` cols b) in *.
    assert (in_bounds b r' c' = true) as Hin.
    { apply in_bounds_spec.
      pose proof (Z.mod_pos_bound r (rows b) ltac:(lia)).
      pose proof (Z.mod_pos_bound c (cols b) ltac:(lia)). unfold r', c'. lia. }
    set (b2 := with_game_over true (with_cell_states cs1 b)) in *.
    assert (open_at r' c' b2) as Hopen.
    { split_and!; [by destruct Hwf1; split|done|]. cbn [b2 cell_states with_game_over with_cell_states].
      apply (get2_set2_same (cell_states b) _ _ _ REVEALED).
      by rewrite set2_locate, <- Hloc, <- set2_locate. }
    pose proof (reveal_all_mines_open_at r' c' b2 b' Hopen H) as (Hwf' & Hin' & Hst').
    apply reveal_all_mines_opens in H as [Heq _].
    split; [done|]. intros _. right. exists r', c'. split_and!; [done|done|].
    rewrite Heq. cbn [grid b2 with_cell_states with_game_over].
    unfold mine_at. rewrite get2_locate, <- Hlocg, <- get2_locate, Hv. done.
  - rewrite Hv in H. obind. destruct (v =? 0).
    + revert H.
      apply (for_each_returns explained); [split; [done|cbn; congruence]|].
      intros i t0 t0' _ Ht0. apply (for_each_returns explained); [done|].
      intros j t t' _ Ht H. destruct ((i =? 0) && (j =? 0)); [by inversion H; subst|].
      cbv zeta in H. destruct (in_bounds t _ _); [|by inversion H; subst].
      inv_bind H. destruct (bool_decide _); [|by inversion H; subst].
      by eapply IH.
    + inversion H; subst. split; [done|cbn; congruence].
Qed.

Lemma toggle_flag_explained b r c b' :
  explained b → toggle_flag b r c = Done b' → explained b'.
Proof.
  intros [Hwf Hb] H. split; [by eapply toggle_flag_wf|].
  assert (game_over b' = game_over b ∧ game_won b' = game_won b ∧ grid b' = grid b)
    as (-> & -> & Hg).
  { unfold toggle_flag in H. inv_bind H. destruct (bool_decide _).
    - inv_bind H. by inversion H; subst.
    - inv_bind H. destruct (bool_decide _); [|by inversion H; subst].
      inv_bind H. by inversion H; subst. }
  intros Hover. destruct (Hb Hover) as [?|Hm]; [by left|right].
  apply (mine_revealed_open_at b); [done| |done|done].
  intros ???. by eapply toggle_flag_open_at.
Qed.

Lemma check_win_explained b b' : explained b → _check_win b = Done b' → explained b'.
Proof.
  intros [Hwf Hb] H. split; [by eapply check_win_wf|].
  destruct (check_win_cases b b' Hwf H) as [->|(? & _)]; [done|]. by left.
Qed.

Lemma reveal_all_mines_explained b b' :
  explained b → _reveal_all_mines b = Done b' → explained b'.
Proof.
  intros [Hwf Hb] H. split; [by eapply reveal_all_mines_wf|].
  pose proof (reveal_all_mines_opens _ _ H) as [Heq _].
  assert (game_over b' = game_over b ∧ game_won b' = game_won b ∧ grid b' = grid b)
    as (-> & -> & Hg) by (by rewrite Heq).
  intros Hover. destruct (Hb Hover) as [?|Hm]; [by left|right].
  apply (mine_revealed_open_at b); [done| |done|done].
  intros ???. by eapply reveal_all_mines_open_at.
Qed.

Lemma run_explained o b b' : sane o → explained b → run o b = Done b' → explained b'.
Proof.
  destruct o; cbn [run sane]; intros Hs Hb H.
  - revert H. apply (handle_click_preserves_block explained button); [| | | |done].
    + intros ? t ?? t1 t2 [Hwft _] _ _ _ Hover _ Hpl Hcalc.
      pose proof (place_mines_wf _ _ _ _ _ Hwft Hpl) as Hwf1.
      pose proof (calculate_adjacent_mines_wf _ _ Hwf1 Hcalc) as Hwf2.
      apply place_mines_frame in Hpl as (_ & _ & _ & _ & _ & Hgo1 & _).
      apply calculate_adjacent_mines_frame in Hcalc as [(_ & _ & _ & _ & _ & Hgo2 & _) _].
      split; [by destruct Hwf2; split|]. cbn [game_over with_first_click]. congruence.
    + intros ????? _ _ _ ?. by eapply reveal_rec_explained.
    + intros ????? _ _ ?. by eapply toggle_flag_explained.
    + intros ??? _ ?. by eapply check_win_explained.
  - by eapply reveal_rec_explained.
  - by eapply toggle_flag_explained.
  - by eapply check_win_explained.
  - by eapply reveal_all_mines_explained.
  - destruct Hs. inversion H; subst b'. split; [by apply reset_wf|done].
Qed.

(** X18: The status message of the game screen tells the truth.  In every board
    reached from a board constructed with non-negative dimensions (by
    clicks, direct calls of the other methods and resets to non-negative
    dimensions): no message is shown exactly while game_over is unset, and
    when the message that a mine was hit is shown, some in-range cell that
    holds a mine is REVEALED. *)
Theorem status_message_sound env nrows ncols nmines b :
  0 ≤ nrows → 0 ≤ ncols →
  reachable_if (λ o _, sane o) (init env nrows ncols nmines) b →
  (status_message b = None ↔ game_over b = false) ∧
  (status_message b = Some Lost → mine_revealed b).
Proof.
  intros HR HC Hreach.
  assert (explained b ∧ won_is_over b) as [[_ Hex] Hwon].
  { induction Hreach as [|b o b' _ [IH1 IH2] Hs Hrun].
    - split; [split; [by apply init_wf|done]|done].
    - split; [by eapply run_explained|by eapply run_won_is_over]. }
  unfold status_message, won_is_over in *. split.
  - destruct (game_won b) eqn:Hw; [rewrite (Hwon eq_refl); by split|].
    destruct (game_over b); by split.
  - destruct (game_won b) eqn:Hw; [done|]. destruct (game_over b) eqn:Hg; [|done].
    intros _. by destruct (Hex eq_refl).
Qed.

Lemma status_message_sound_witness :
  status_message lost_board = Some Lost ∧ mine_revealed lost_board.
Proof.
  split; [reflexivity|].
  apply (status_message_sound default_settings 1 6 2 lost_board);
    [lia|lia|apply lost_board_reachable_if|reflexivity].
Defined.

(** ** The grid of theme buttons *)

Lemma theme_buttons_loop {A} (start_x start_y : Z) (themes : list A) (k : nat)
    (acc : list (A * (Z * Z * Z * Z))) :
  (fold_left (λ (s : Z * Z * list (A * (Z * Z * Z * Z))) theme_name,
     let '(current_col, current_row, buttons) := s in
     let button_x := start_x + current_col * (200 + 40) in
     let button_y := start_y + current_row * (50 + 25) in
     let buttons := buttons ++ [(theme_name, (button_x, button_y, 200, 50))] in
     let current_col := current_col + 1 in
     if 3 <=? current_col then (0, current_row + 1, buttons)
     else (current_col, current_row, buttons))
   themes (Z.of_nat k `mod` 3, Z.of_nat k `div` 3, acc)).2
  = acc ++ imap (λ i name, (name, (start_x + (Z.of_nat (k + i) `mod` 3) * 240,
                                   start_y + (Z.of_nat (k + i) `div` 3) * 75, 200, 50)))
             themes.
Proof.
  revert k acc. induction themes as [|name themes IH]; intros k acc.
  - simpl. by rewrite app_nil_r.
  - cbn [fold_left imap]. cbv zeta.
    assert ((if 3 <=? Z.of_nat k `mod` 3 + 1
             then (0, Z.of_nat k `div` 3 + 1,
                   acc ++ [(name, (start_x + Z.of_nat k `mod` 3 * (200 + 40),
                                   start_y + Z.of_nat k `div` 3 * (50 + 25), 200, 50))])
             else (Z.of_nat k `mod` 3 + 1, Z.of_nat k `div` 3,
                   acc ++ [(name, (start_x + Z.of_nat k `mod` 3 * (200 + 40),
                                   start_y + Z.of_nat k `div` 3 * (50 + 25), 200, 50))]))
            = (Z.of_nat (S k) `mod` 3, Z.of_nat (S k) `div` 3,
               acc ++ [(name, (start_x + Z.of_nat k `mod` 3 * 240,
                               start_y + Z.of_nat k `div` 3 * 75, 200, 50))])) as ->.
    { destruct (3 <=? Z.of_nat k `mod` 3 + 1) eqn:E;
        [apply Z.leb_le in E|apply Z.leb_gt in E].
      - assert (Z.of_nat (S k) `mod` 3 = 0 ∧
                Z.of_nat (S k) `div` 3 = Z.of_nat k `div` 3 + 1) as [-> ->]
          by (Z.div_mod_to_equations; lia).
        reflexivity.
      - assert (Z.of_nat (S k) `mod` 3 = Z.of_nat k `mod` 3 + 1 ∧
                Z.of_nat (S k) `div` 3 = Z.of_nat k `div` 3) as [-> ->]
          by (Z.div_mod_to_equations; lia).
        reflexivity. }
    rewrite IH, <- app_assoc. cbn [app]. rewrite Nat.add_0_r. do 2 f_equal.
    apply imap_ext. intros i x _. cbn. by rewrite Nat.add_succ_r.
Qed.

(** X19: The loop over the themes lays the buttons out in a grid of three
    columns: the i-th theme gets the 200x50 rectangle in column i mod 3 and
    row i div 3 of a grid with steps 240 and 75 that starts at least 20
    pixels from the left edge; so the rectangles of two different buttons
    share no pixel, and a click selects at most one theme. *)
Theorem theme_buttons_grid {A} (width title_bottom : Z) (themes : list A) :
  let start_x := Z.max 20 ((width - 680) `div` 2) in
  let start_y := title_bottom + 50 in
  let rect (i : nat) := (start_x + (Z.of_nat i `mod` 3) * 240,
                         start_y + (Z.of_nat i `div` 3) * 75, 200, 50) in
  (∀ i, theme_buttons width title_bottom themes !! i
        = (λ name, (name, rect i)) <$> themes !! i) ∧
  (∀ i, 20 ≤ (rect i).1.1.1) ∧
  (∀ i j pos, i ≠ j → collidepoint (rect i) pos = true → collidepoint (rect j) pos = false).
Proof.
  intros start_x start_y rect. split_and!.
  - intros i.
    assert (theme_buttons width title_bottom themes = imap (λ i name, (name, rect i)) themes)
      as -> by exact (theme_buttons_loop start_x start_y themes 0 []).
    by rewrite list_lookup_imap.
  - intros i. cbn [rect fst]. Z.div_mod_to_equations. lia.
  - intros i j [x y] Hne Hi. unfold rect, collidepoint in *. cbn [fst snd] in *.
    apply andb_true_iff in Hi as [[[H1 H2]%andb_true_iff H3]%andb_true_iff H4].
    apply Z.leb_le in H1, H3. apply Z.ltb_lt in H2, H4.
    destruct (_ <=? x) eqn:E1; [|done]. destruct (x <? _) eqn:E2; [|done].
    destruct (_ <=? y) eqn:E3; [|done]. destruct (y <? _) eqn:E4; [|done].
    apply Z.leb_le in E1, E3. apply Z.ltb_lt in E2, E4. exfalso. apply Hne.
    apply Nat2Z.inj. Z.div_mod_to_equations. lia.
Qed.

Lemma theme_buttons_grid_witness :
  theme_buttons 800 100 [1; 2; 3; 4] !! 3%nat = Some (4, (60, 225, 200, 50)) ∧
  collidepoint (60, 225, 200, 50) (100, 160) = false.
Proof.
  destruct (theme_buttons_grid 800 100 [1; 2; 3; 4]) as (H1 & _ & H3). split.
  - exact (H1 3%nat).
  - apply (H3 0%nat 3%nat (100, 160)); [done|reflexivity].
Defined.

(** ** The win flag *)

Lemma cleared_kept b b' :
  layout_eq b b' → (∀ r c, open_at r c b → open_at r c b') →
  wf b → cleared b → cleared b'.
Proof.
  intros (Hr & Hc & _ & Hg & _) Hopen Hwf Hcl r c Hin Hnm.
  assert (in_bounds b r c = true) as Hin0 by (unfold in_bounds in *; by rewrite <- Hr, <- Hc).
  rewrite Hg in Hnm. by destruct (Hopen r c) as (_ & _ & ?); [split_and!; auto|].
Qed.

Lemma win_sound_kept b b' :
  layout_eq b b' → game_won b' = game_won b →
  (∀ r c, open_at r c b → open_at r c b') →
  wf b → win_sound b → win_sound b'.
Proof.
  intros Hlay Hgw Hopen Hwf Hb Hw Hfc Hm.
  pose proof Hlay as (_ & _ & Hm' & _ & _ & Hfc').
  apply (cleared_kept b); [done|done|done|]. apply Hb; congruence.
Qed.

(** A win that _check_win declares on a mined board is a cleared board. *)
Lemma check_win_won_cleared b b' :
  wf b → mined b → 0 ≤ mines b → game_won b = false →
  _check_win b = Done b' → game_won b' = true → cleared b'.
Proof.
  intros Hwf Hmined Hm Hgw H Hgw'.
  pose proof (check_win_layout b b' Hwf H) as Hlay.
  apply (cleared_kept b); [done| |done|].
  { intros r c ?. by eapply check_win_open_at. }
  unfold _check_win in H. rewrite (revealed_count_spec b Hwf) in H. obind. cbv zeta in H.
  destruct (_ =? _) eqn:Hn; [|inversion H; subst; congruence].
  apply Z.eqb_eq in Hn. unfold cleared. apply (all_revealed_iff_count b Hwf).
  rewrite Hn, (mined_count b Hmined). lia.
Qed.

Lemma check_win_win_sound b b' :
  laid_out b → win_sound b → _check_win b = Done b' → win_sound b'.
Proof.
  intros [Hwf Hlaid] Hb H Hw Hfc Hm.
  pose proof (check_win_layout b b' Hwf H) as Hlay.
  pose proof Hlay as (_ & _ & Hm' & _ & _ & Hfc').
  destruct (game_won b) eqn:Hgw.
  - apply (cleared_kept b); [done| |done|apply Hb; congruence].
    intros r c ?. by eapply check_win_open_at.
  - apply (check_win_won_cleared b); [done| |congruence|done|done|done].
    rewrite <- Hfc', Hfc in Hlaid. done.
Qed.

Lemma run_win_sound o b b' :
  sane o → laid_out b ∧ win_sound b → run o b = Done b' → laid_out b' ∧ win_sound b'.
Proof.
  intros Hs [Hlaid Hb] H. split; [by eapply run_laid_out|]. revert H.
  destruct o; cbn [run]; intros H.
  - cut (laid_out b' ∧ win_sound b'); [by intros [_ ?]|]. revert H.
    apply (handle_click_preserves_block (λ t, laid_out t ∧ win_sound t) button); [| | | |done].
    + intros ? t r c t1 t2 [[Hwft Ht] _] Hin Hfc _ _ Hgw Hpl Hcalc. rewrite Hfc in Ht.
      destruct (first_click_block_mined _ _ _ _ _ _ Hwft Ht Hin Hpl Hcalc)
        as (Hwf2 & Hmined & _ & _ & _ & _ & Hgw2 & _).
      split; [split; [by destruct Hwf2; split|exact Hmined]|].
      intros Hw. cbn [game_won with_first_click] in Hw. congruence.
    + intros t r c t' [Ht Hwt] _ _ _ H. pose proof (reveal_rec_wf _ _ _ _ _ (proj1 Ht) H).
      pose proof (reveal_rec_opens _ _ _ _ _ H) as [Hfr _].
      split; [apply (laid_out_ext t); [by apply reveal_frame_layout|done|done]|].
      apply (win_sound_kept t); [by apply reveal_frame_layout| | |apply Ht|done].
      * by destruct Hfr as (_ & _ & _ & _ & _ & _ & _ & ? & _).
      * intros ???. by eapply reveal_rec_open_at.
    + intros t r c t' [Ht Hwt] _ _ H. pose proof (toggle_flag_wf _ _ _ _ (proj1 Ht) H).
      pose proof (toggle_flag_layout _ _ _ _ H) as Hlay.
      split; [by apply (laid_out_ext t)|].
      apply (win_sound_kept t); [done| | |apply Ht|done].
      * unfold toggle_flag in H. inv_bind H. destruct (bool_decide _).
        -- inv_bind H. by inversion H; subst.
        -- inv_bind H. destruct (bool_decide _); [|by inversion H; subst].
           inv_bind H. by inversion H; subst.
      * intros ???. by eapply toggle_flag_open_at.
    + intros t t' [Ht Hwt] _ H. pose proof (check_win_wf _ _ (proj1 Ht) H).
      split; [apply (laid_out_ext t); [by apply check_win_layout; [apply Ht|]|done|done]|].
      by eapply check_win_win_sound.
  - pose proof (reveal_rec_opens _ _ _ _ _ H) as [Hfr _].
    apply (win_sound_kept b); [by apply reveal_frame_layout| | |apply Hlaid|done].
    + by destruct Hfr as (_ & _ & _ & _ & _ & _ & _ & ? & _).
    + intros ???. by eapply reveal_rec_open_at.
  - apply (win_sound_kept b); [by eapply toggle_flag_layout| | |apply Hlaid|done].
    + unfold toggle_flag in H. inv_bind H. destruct (bool_decide _).
      * inv_bind H. by inversion H; subst.
      * inv_bind H. destruct (bool_decide _); [|by inversion H; subst].
        inv_bind H. by inversion H; subst.
    + intros ???. by eapply toggle_flag_open_at.
  - by eapply check_win_win_sound.
  - pose proof (reveal_all_mines_opens _ _ H) as [Heq _].
    apply (win_sound_kept b); [rewrite Heq; by repeat split|by rewrite Heq| |apply Hlaid|done].
    intros ???. by eapply reveal_all_mines_open_at.
  - inversion H; subst b'. intros Hw. done.
Qed.

(** X20: The win flag is sound in play: in every board reached from a board
    constructed with non-negative dimensions (by clicks, direct calls of the
    other methods and resets to non-negative dimensions), if game_won is set
    once the mines are laid (first_click unset) and their number is not
    negative, then every in-range cell that holds no mine is REVEALED. *)
Theorem win_means_cleared env nrows ncols nmines b :
  0 ≤ nrows → 0 ≤ ncols →
  reachable_if (λ o _, sane o) (init env nrows ncols nmines) b →
  game_won b = true → first_click b = false → 0 ≤ mines b →
  ∀ r c, in_bounds b r c = true → mine_at (grid b) r c = false →
         get2 (cell_states b) r c = Done REVEALED.
Proof.
  intros HR HC Hreach.
  assert (laid_out b ∧ win_sound b) as [_ Hb].
  { induction Hreach as [|b o b' _ IH Hs Hrun].
    - split; [split; [by apply init_wf|]|done].
      intros r c [Hr Hc]%in_bounds_spec. by apply get2_fresh_matrix.
    - by eapply run_win_sound. }
  exact Hb.
Qed.

Lemma won_board_played :
  ∃ b, handle_click default_settings [0; 4] (init default_settings 1 5 1) (109, 59) 1 = Done b
       ∧ game_won b = true ∧ first_click b = false ∧ mines b = 1
       ∧ in_bounds b 0 3 = true ∧ mine_at (grid b) 0 3 = false.
Proof. eexists. split_and!; vm_compute; reflexivity. Qed.

Lemma win_means_cleared_witness :
  ∃ b, game_won b = true ∧ get2 (cell_states b) 0 3 = Done REVEALED.
Proof.
  destruct won_board_played as (b & Hrun & Hw & Hfc & Hm & Hin & Hnm).
  exists b. split; [exact Hw|].
  apply (win_means_cleared default_settings 1 5 1 b); [lia|lia| |done|done|lia|done|done].
  eapply (reachable_if_step _ _ _ (Click _ _ _ _)); [constructor|done|exact Hrun].
Defined.

(** What handle_click has done to an unfinished board, for a click on a
    cell of the board, before its final win check. *)
Lemma handle_click_last_check (I : Board → Prop) (button : Z) :
  (∀ draws b r c b1 b2, I b → in_bounds b r c = true → first_click b = true →
     button = 1 → game_over b = false → game_won b = false →
     _place_mines draws b r c = Done b1 → _calculate_adjacent_mines b1 = Done b2 →
     I (with_first_click false b2)) →
  (∀ b r c b', I b → in_bounds b r c = true → game_over b = false →
     get2 (cell_states b) r c ≠ Done FLAGGED → reveal b r c = Done b' → I b') →
  (∀ b r c b', I b → in_bounds b r c = true →
     get2 (cell_states b) r c ≠ Done REVEALED → toggle_flag b r c = Done b' → I b') →
  ∀ env draws b mouse_pos b',
    I b → game_over b = false → game_won b = false → cell_size b ≠ 0 →
    in_bounds b ((mouse_pos.2 - GAME_AREA_Y env) `div` cell_size b)
                ((mouse_pos.1 - GAME_AREA_X env) `div` cell_size b) = true →
    handle_click env draws b mouse_pos button = Done b' →
    ∃ b1, I b1 ∧ if game_over b1 then b' = b1 else _check_win b1 = Done b'.
Proof.
  intros Hblock Hreveal Htoggle env draws b mouse_pos b' Hb Hover Hwon Hcs Hin H.
  unfold handle_click in H. rewrite Hover, Hwon in H. cbn [orb] in H.
  cbv beta zeta in H. unfold floordiv in H. rewrite (proj2 (Z.eqb_neq _ _) Hcs) in H. obind.
  set (col := (mouse_pos.1 - GAME_AREA_X env) `div` cell_size b) in *.
  set (row := (mouse_pos.2 - GAME_AREA_Y env) `div` cell_size b) in *.
  rewrite Hin in H. cbn [negb] in H. inv_bind H. rename a into b1, E into Hstep.
  exists b1. split.
  - destruct (button =? 1) eqn:Hb1; [apply Z.eqb_eq in Hb1|].
    + inv_bind Hstep. rename a into b2, E into Hinit.
      assert (I b2 ∧ rows b2 = rows b ∧ cols b2 = cols b ∧ game_over b2 = game_over b)
        as (Hb2 & Hr & Hc & Hgo).
      { destruct (first_click b) eqn:Hfc; [|by inversion Hinit; subst].
        inv_bind Hinit. inv_bind Hinit. inversion Hinit; subst b2.
        pose proof (place_mines_frame _ _ _ _ _ E) as (? & ? & _ & _ & _ & ? & _).
        pose proof (calculate_adjacent_mines_frame _ _ E0) as ((? & ? & _ & _ & _ & ? & _) & _).
        split; [exact (Hblock _ b row col _ _ Hb Hin Hfc Hb1 Hover Hwon E E0)|].
        cbn [rows cols game_over with_first_click].
        split_and!; congruence. }
      inv_bind Hstep. rename a into st, E into Hst.
      case_bool_decide as Hfl; cbn [negb] in Hstep; [by inversion Hstep; subst|].
      eapply (Hreveal b2 row col); [done| |congruence| |done].
      * unfold in_bounds in *. by rewrite Hr, Hc.
      * rewrite Hst. congruence.
    + destruct (button =? 3); [|by inversion Hstep; subst].
      inv_bind Hstep. rename a into st, E into Hst.
      case_bool_decide as Hrv; cbn [negb] in Hstep; [by inversion Hstep; subst|].
      eapply (Htoggle b row col); [done|done| |done]. rewrite Hst. congruence.
  - destruct (game_over b1); cbn [negb] in H; [by inversion H|done].
Qed.

(** X21: A win is detected at once: after a click on a cell of a board whose
    layout is consistent and that was not won before, if the mines are laid
    (a non-negative number of them) and every in-range cell that holds no
    mine is REVEALED, then game_over is set. *)
Theorem win_is_detected env draws b mouse_pos button b' :
  laid_out b → game_won b = false → cell_size b ≠ 0 →
  in_bounds b ((mouse_pos.2 - GAME_AREA_Y env) `div` cell_size b)
              ((mouse_pos.1 - GAME_AREA_X env) `div` cell_size b) = true →
  handle_click env draws b mouse_pos button = Done b' →
  first_click b' = false → 0 ≤ mines b' →
  (∀ r c, in_bounds b' r c = true → mine_at (grid b') r c = false →
          get2 (cell_states b') r c = Done REVEALED) →
  game_over b' = true.
Proof.
  intros Hlaid Hgw Hcs Hin H Hfc' Hm' Hcl.
  destruct (game_over b) eqn:Hover.
  { unfold handle_click in H. rewrite Hover in H. cbn [orb] in H. by inversion H; subst. }
  cut (∃ b1, laid_out b1 ∧ if game_over b1 then b' = b1 else _check_win b1 = Done b').
  2:{ revert H. apply (handle_click_last_check laid_out button); [| | |done..].
    - intros ? t r c t1 t2 [Hwft Ht] Hint Hfc _ _ _ Hpl Hcalc. rewrite Hfc in Ht.
      destruct (first_click_block_mined _ _ _ _ _ _ Hwft Ht Hint Hpl Hcalc)
        as (Hwf2 & Hmined & _).
      split; [by destruct Hwf2; split|]. exact Hmined.
    - intros t r c t' Ht _ _ _ H1. pose proof (reveal_rec_wf _ _ _ _ _ (proj1 Ht) H1).
      apply reveal_rec_opens in H1 as [Hfr _]. apply (laid_out_ext t); [|done|done].
      by apply reveal_frame_layout.
    - intros t r c t' Ht _ _ H1. pose proof (toggle_flag_wf _ _ _ _ (proj1 Ht) H1).
      apply (laid_out_ext t); [|done|done]. by eapply toggle_flag_layout. }
  intros (b1 & Hb1 & Hend).
  destruct (game_over b1) eqn:Hover1; [by subst|].
  destruct Hb1 as [Hwf1 Hlaid1].
  destruct (check_win_cases b1 b' Hwf1 Hend) as [->|(_ & ? & _)]; [|done].
  rewrite Hfc' in Hlaid1. exfalso.
  unfold _check_win in Hend. rewrite (revealed_count_spec b1 Hwf1) in Hend. obind.
  cbv zeta in Hend.
  assert (count_positions b1
            (λ p, state_at b1 REVEALED p.1 p.2 && negb (mine_at (grid b1) p.1 p.2))
          = rows b1 * cols b1 - mines b1) as Hn.
  { pose proof (proj2 (all_revealed_iff_count b1 Hwf1) Hcl) as ->.
    rewrite (mined_count b1 Hlaid1). lia. }
  rewrite Hn, Z.eqb_refl in Hend.
  destruct (flag_remaining_mines_spec (with_game_over true (with_game_won true b1)))
    as (b2 & H2 & Heq & _); [by destruct Hwf1; split|].
  rewrite Hend in H2. inversion H2; subst b2.
  rewrite Heq in Hover1. done.
Qed.

Lemma win_is_detected_witness :
  ∃ b', handle_click default_settings [0; 4] (init default_settings 1 5 1) (109, 59) 1 = Done b'
        ∧ game_over b' = true.
Proof.
  eexists. split; [vm_compute; reflexivity|].
  eapply (win_is_detected default_settings [0; 4] (init default_settings 1 5 1) (109, 59) 1).
  - split; [apply init_wf; lia|]. intros r c [Hr Hc]%in_bounds_spec. by apply get2_fresh_matrix.
  - reflexivity.
  - done.
  - reflexivity.
  - vm_compute. reflexivity.
  - reflexivity.
  - vm_compute. done.
  - intros r c [Hr Hc]%in_bounds_spec Hnm. cbn in Hr, Hc.
    assert (r = 0) as -> by lia.
    assert (c = 0 ∨ c = 1 ∨ c = 2 ∨ c = 3 ∨ c = 4) as [->|[->|[->|[->| ->]]]] by lia;
      try reflexivity. vm_compute in Hnm. done.
Defined.

(** ** reveal outside the grid *)

(** X22: A direct call of reveal with a row outside [-rows, rows) or a column
    outside [-cols, cols) raises IndexError while the game is running, and
    returns without touching the board once the game is over: the game-over
    test comes before any list is indexed. *)
Theorem reveal_out_of_range b r c :
  wf b → ¬ ((- rows b ≤ r < rows b) ∧ (- cols b ≤ c < cols b)) →
  reveal b r c = if game_over b then Done b else Raised IndexError.
Proof.
  intros [_ Hcs] Hout. unfold reveal. rewrite reveal_rec_S.
  destruct (game_over b); [done|].
  rewrite get2_locate, (locate_index (cell_states b) _ _ r c Hcs).
  by rewrite bool_decide_eq_false_2.
Qed.

Lemma reveal_out_of_range_witness :
  reveal flagged_row 0 7 = Raised IndexError ∧ reveal lost_board 0 7 = Done lost_board.
Proof.
  split.
  - apply (reveal_out_of_range flagged_row 0 7 wf_flagged_row). cbn. lia.
  - apply (reveal_out_of_range lost_board 0 7); [by apply (bool_decide_unpack _)|cbn; lia].
Defined.

(** ** Runs under the recursion limit and runs on a deep stack *)

(** X24: the recursion limit only cuts runs short.  Whatever the number of
    frames left for the cascade, a reveal or a click that returns under the
    limit returns the same board on a stack of any greater depth, so what is
    proved of [reveal] and [handle_click] for calls that return holds for
    every call that returns under the limit; the only other thing the limit
    can do is end the call in RecursionError, and with more frames than
    unrevealed cells it changes nothing. *)
Theorem recursion_limit_only_cuts_short frames env draws b mouse_pos button r c :
  (∀ b', reveal_within frames b r c = Done b' → reveal b r c = Done b') ∧
  (∀ e, reveal_within frames b r c = Raised e →
     e = RecursionError ∨ reveal b r c = Raised e) ∧
  ((unrevealed (cell_states b) < frames)%nat → reveal_within frames b r c = reveal b r c) ∧
  (∀ b', handle_click_within frames env draws b mouse_pos button = Done b' →
     handle_click env draws b mouse_pos button = Done b') ∧
  (∀ e, handle_click_within frames env draws b mouse_pos button = Raised e →
     e = RecursionError ∨ handle_click env draws b mouse_pos button = Raised e) ∧
  ((unrevealed (cell_states b) < frames)%nat →
   handle_click_within frames env draws b mouse_pos button
   = handle_click env draws b mouse_pos button).
Proof.
  pose proof (reveal_within_cases frames b r c) as Hr.
  pose proof (handle_click_within_cases frames env draws b mouse_pos button) as Hc.
  split_and!.
  - intros b' H. destruct Hr as [Heq|[Hx _]]; congruence.
  - intros e H. destruct Hr as [Heq|[Hx _]]; [right; congruence|left; congruence].
  - intros Hk. destruct Hr as [Heq|[_ Hle]]; [done|lia].
  - intros b' H. destruct Hc as [Heq|[Hx _]]; congruence.
  - intros e H. destruct Hc as [Heq|[Hx _]]; [right; congruence|left; congruence].
  - intros Hk. destruct Hc as [Heq|(_ & _ & Hle)]; [done|lia].
Qed.

Lemma recursion_limit_only_cuts_short_witness :
  reveal_within 3 flagged_row 0 2 = Raised RecursionError ∧
  reveal_within 8 flagged_row 0 2 = reveal flagged_row 0 2.
Proof.
  split; [reflexivity|].
  destruct (recursion_limit_only_cuts_short 8 default_settings [] flagged_row (0, 0) 1 0 2)
    as (_ & _ & H & _).
  apply H. vm_compute. lia.
Defined.

(** ** The event loop *)

Lemma handle_click_fixed env draws b mouse_pos button b' :
  handle_click env draws b mouse_pos button = Done b' →
  cell_size b' = cell_size b ∧ rows b' = rows b ∧ cols b' = cols b.
Proof.
  intros H.
  cut ((λ t, cell_size t = cell_size b ∧ rows t = rows b ∧ cols t = cols b) b'); [done|].
  revert H.
  apply (handle_click_preserves
           (λ t, cell_size t = cell_size b ∧ rows t = rows b ∧ cols t = cols b));
    [| | | | | |done].
  - intros ? t ?? t' (? & ? & ?) _ _ (? & ? & _ & _ & _ & _ & _ & ?)%place_mines_frame.
    split_and!; congruence.
  - intros t t' (? & ? & ?) [(? & ? & _ & _ & _ & _ & _ & ?) _]%calculate_adjacent_mines_frame.
    split_and!; congruence.
  - done.
  - intros t ?? t' (? & ? & ?) _ _ _ [(? & ? & _ & _ & _ & _ & _ & _ & ?) _]%reveal_rec_opens.
    split_and!; congruence.
  - intros t ?? t' Ht _ _ H. unfold toggle_flag in H. inv_bind H. destruct (bool_decide _).
    + inv_bind H. by inversion H; subst.
    + inv_bind H. destruct (bool_decide _); [|by inversion H; subst].
      inv_bind H. by inversion H; subst.
  - intros t t' Ht _ H. pose (J := λ u : Board,
      cell_size u = cell_size b ∧ rows u = rows b ∧ cols u = cols b).
    change (J t) in Ht. change (J t'). revert H. unfold _check_win.
    intros H. inv_bind H. destruct (_ =? _); [|by inversion H; subst].
    revert H. unfold flag_remaining_mines.
    apply (for_each_returns J); [done|].
    intros r u0 u0' _ Hu0. apply (for_each_returns J); [done|].
    intros c u u' _ Hu H. inv_bind H. destruct (_ =? MINE_VALUE); [|by inversion H; subst].
    inv_bind H. destruct (bool_decide _); [|by inversion H; subst].
    inv_bind H. by inversion H; subst.
Qed.

Lemma handle_event_ok frames env0 e a a' :
  0 ≤ GRID_ROWS env0 → 0 ≤ GRID_COLS env0 →
  app_ok env0 a → handle_event frames e a = Done a' → app_ok env0 a'.
Proof.
  intros HR HC Hok H. pose proof Hok as (Hr & Hc & Hcs & Hplay & Hb).
  destruct e; cbn [handle_event] in H.
  - destruct set_mode_returns; [|done]. inversion H; subst a'. by split_and!.
  - destruct (current_state a) eqn:Hst; [by inversion H; subst a'..|].
    destruct (game_board a) as [b|] eqn:Hgb; [|by inversion H; subst a'].
    inv_bind H. rename a0 into b', E into Hclick. inversion H; subst a'.
    destruct (Hb b eq_refl) as (Hwf & Hsize & Hrows & Hcols).
    assert (handle_click (app_settings a) draws b pos button = Done b') as Hideal.
    { destruct (handle_click_within_cases frames (app_settings a) draws b pos button)
        as [Heq|[Hx _]]; congruence. }
    destruct (handle_click_fixed _ _ _ _ _ _ Hideal) as (Hcs' & Hr' & Hc').
    split_and!; [done|done|done|by eauto|]. cbn [game_board]. intros ? [= <-].
    split_and!; [by eapply handle_click_wf|congruence..].
  - inversion H; subst a'. split_and!; [done|done|done|done|done].
  - inversion H; subst a'. unfold go_to_play. cbv zeta.
    cbn [app_settings current_state game_board update_game_area_position
         GRID_ROWS GRID_COLS CELL_SIZE NUM_MINES].
    split_and!; [done|done|done|by eauto|]. intros ? [= <-].
    split_and!; [apply init_wf; lia|done|done|done].
  - inversion H; subst a'. split_and!; [done|done|done|done|done].
  - inversion H; subst a'. unfold reset_game.
    destruct (game_board a) as [b|] eqn:Hgb; [|done].
    destruct (Hb b eq_refl) as (Hwf & Hsize & _).
    split_and!; [done|done|done|by eauto|]. cbn [game_board]. intros ? [= <-].
    split_and!; [apply reset_wf; lia|by cbn|by cbn|by cbn].
Qed.

(** X23: what the handling of an event can raise.  Started on the
    home screen with settings whose grid dimensions are not negative and
    whose cell size is not zero, after any sequence of resizes, mouse clicks
    and button actions that were handled without an exception: in the
    PLAYING state a board exists (the fallback branch of the loop is dead)
    and it is well-formed; a resize raises only pygame.error, and only when
    set_mode does; a mouse click raises only RecursionError, and only a left
    click with no more frames left for the cascade than the board has
    unrevealed cells; the button actions raise nothing.  So with more frames
    than the grid has cells, no mouse click raises, whatever the position,
    button and random draws. *)
Theorem event_handling_exceptions frames width height env0 a :
  0 ≤ GRID_ROWS env0 → 0 ≤ GRID_COLS env0 → CELL_SIZE env0 ≠ 0 →
  app_reachable frames (initial_app width height env0) a →
  (current_state a = PLAYING → ∃ b, game_board a = Some b ∧ wf b) ∧
  (∀ e err, handle_event frames e a = Raised err →
     match e with
     | VIDEORESIZE _ _ set_mode_returns => set_mode_returns = false ∧ err = pygame_error
     | MOUSEBUTTONDOWN _ button _ =>
         button = 1 ∧ err = RecursionError ∧
         ∃ b, game_board a = Some b ∧ (frames ≤ unrevealed (cell_states b))%nat
     | _ => False
     end) ∧
  ((Z.to_nat (GRID_ROWS env0 * GRID_COLS env0) < frames)%nat →
   ∀ pos button draws err,
     handle_event frames (MOUSEBUTTONDOWN pos button draws) a ≠ Raised err).
Proof.
  intros HR HC Hcs Hreach.
  assert (app_ok env0 a) as (_ & _ & _ & Hplay & Hb).
  { induction Hreach as [|a e a' _ IH Hstep].
    - by split_and!.
    - by eapply handle_event_ok. }
  assert (∀ pos button draws err,
            handle_event frames (MOUSEBUTTONDOWN pos button draws) a = Raised err →
            button = 1 ∧ err = RecursionError ∧
            ∃ b, game_board a = Some b ∧ (frames ≤ unrevealed (cell_states b))%nat) as Hclick.
  { intros pos button draws err H. cbn [handle_event] in H.
    destruct (current_state a); try done. destruct (game_board a) as [b|] eqn:Hgb; [|done].
    destruct (Hb b eq_refl) as (Hwf & Hsize & _).
    destruct (handle_click_within frames (app_settings a) draws b pos button)
      as [b'|e|] eqn:Hrun; obind; [done| |done].
    inversion H; subst e.
    destruct (handle_click_within_cases frames (app_settings a) draws b pos button)
      as [Heq|(Hx & ? & ?)].
    - rewrite Heq in Hrun.
      destruct (handle_click_cases (app_settings a) draws b pos button Hwf)
        as [[b' Hd]|[Hs _]]; congruence.
    - rewrite Hx in Hrun. inversion Hrun; subst err. eauto. }
  split_and!.
  - intros Hst. destruct (Hplay Hst) as [b Hgb]. exists b. split; [done|]. by apply Hb.
  - intros e err H. destruct e; try done.
    + cbn [handle_event] in H. destruct set_mode_returns; [done|]. by inversion H.
    + by eapply Hclick.
  - intros Hbig pos button draws err H.
    destruct (Hclick pos button draws err H) as (_ & _ & b & Hgb & Hle).
    destruct (Hb b Hgb) as (Hwf & _ & Hrows & Hcols).
    pose proof (unrevealed_le_cells b Hwf) as Hcells. rewrite Hrows, Hcols in Hcells. lia.
Qed.

Lemma event_handling_exceptions_witness :
  let a := go_to_play (initial_app 800 650 default_settings) in
  current_state a = PLAYING ∧
  ∀ pos button draws,
    handle_event 997 (MOUSEBUTTONDOWN pos button draws) a ≠ Raised RecursionError.
Proof.
  split; [reflexivity|].
  destruct (event_handling_exceptions 997 800 650 default_settings
              (go_to_play (initial_app 800 650 default_settings))) as (_ & _ & H);
    [done|done|done| |].
  - eapply (app_reachable_step _ _ _ GoToPlay); [constructor|reflexivity].
  - intros pos button draws. apply H. vm_compute. lia.
Defined.
